(** * Release-notes generator: a shallow embedding and its properties

    The development follows [scripts/generate_release_notes.py] and
    [scripts/ai_provider.py]:

    - [PyStr]    the string operations of the host language that the
                 script uses ([strip], [split], [replace], [join],
                 [startswith], ...), over sequences of code points;
    - [Json]     the decoder behind [json.loads];
    - [Effects]  results, events and the trace monad in which the
                 script's calls to the outside world are recorded;
    - [Gen]      the methods of [ReleaseNotesGenerator] that filter,
                 format, summarize, publish and run;
    - [Fetcher]  [get_merged_prs], over the client of the
                 source-control host;
    - [Provider] the two provider classes and their factory, over the
                 clients of the two libraries;
    - [Startup]  the constructor of the generator, its tests of the
                 connections, and [main].

    Conventions.  A string is the list of its code points.  The literals
    of the script are taken as the file has them, code point by code
    point.  Calls to the logger are left out: the logger is a sink that
    neither changes control flow nor data.  Limits of the interpreter
    (recursion depth, the digit limit of integer conversion, memory) are
    not part of the model.  The range of [datetime] is: the window of a
    run is computed as the library does, with its [OverflowError]. *)

From Stdlib Require Import String Ascii.
From Stdlib Require Import List NArith ZArith Bool Lia.
From Stdlib Require Import DecimalString.
Import ListNotations.

Set Implicit Arguments.
Set Warnings "-register-all,-abstract-large-number,-notation-for-abbreviation".

(* ================================================================== *)
(** ** Strings *)
(* ================================================================== *)

Module PyStr.

Local Open Scope N_scope.

(** A code point, and a string. *)
Notation char := N (only parsing).
Notation str := (list N) (only parsing).

(** An ASCII literal, read as code points. *)
Definition lit (s : string) : str :=
  List.map N_of_ascii (list_ascii_of_string s).

(** [lit'] is [lit] with every apostrophe read as a double quote, to
    write texts that contain double quotes. *)
Definition lit' (s : string) : str :=
  List.map (fun c => if N.eqb c 39 then 34 else c) (lit s).

Fixpoint eqb_str (a b : str) : bool :=
  match a, b with
  | [], [] => true
  | x :: a', y :: b' => N.eqb x y && eqb_str a' b'
  | _, _ => false
  end.

(** [s.startswith(p)] *)
Fixpoint startswith (p s : str) : bool :=
  match p, s with
  | [], _ => true
  | x :: p', y :: s' => N.eqb x y && startswith p' s'
  | _ :: _, [] => false
  end.

(** [s.endswith(p)] *)
Definition endswith (p s : str) : bool :=
  startswith (rev p) (rev s).

(** Truth value of a string: non-empty. *)
Definition truthy (s : str) : bool :=
  match s with [] => false | _ :: _ => true end.

(** [str.isspace] on one code point. *)
Definition isspace (c : char) : bool :=
  ((9 <=? c) && (c <=? 13)) || ((28 <=? c) && (c <=? 32))
  || (c =? 133) || (c =? 160) || (c =? 5760)
  || ((8192 <=? c) && (c <=? 8202))
  || (c =? 8232) || (c =? 8233) || (c =? 8239) || (c =? 8287)
  || (c =? 12288).

Fixpoint lstrip_by (p : char -> bool) (s : str) : str :=
  match s with
  | [] => []
  | c :: t => if p c then lstrip_by p t else s
  end.

Definition rstrip_by (p : char -> bool) (s : str) : str :=
  rev (lstrip_by p (rev s)).

Definition strip_by (p : char -> bool) (s : str) : str :=
  rstrip_by p (lstrip_by p s).

(** [s.strip()] *)
Definition strip (s : str) : str := strip_by isspace s.

(** [s.strip(chars)] *)
Definition strip_chars (chars : str) (s : str) : str :=
  strip_by (fun c => existsb (N.eqb c) chars) s.

(** [s.replace(old, new)] for a non-empty [old]: occurrences are taken
    from the left and do not overlap.  [skip] counts the code points of
    a matched occurrence that are still to be passed over. *)
Fixpoint replace_go (old new : str) (skip : nat) (s : str) : str :=
  match s with
  | [] => []
  | c :: t =>
      match skip with
      | S k => replace_go old new k t
      | O =>
          if startswith old s
          then new ++ replace_go old new (Nat.pred (List.length old)) t
          else c :: replace_go old new 0%nat t
      end
  end.

Definition replace (old new s : str) : str := replace_go old new 0%nat s.

(** [s.split(sep)] for a non-empty [sep], as the piece being read and
    the pieces after it. *)
Fixpoint split_go (sep : str) (skip : nat) (s : str) : str * list str :=
  match s with
  | [] => ([], [])
  | c :: t =>
      match skip with
      | S k => split_go sep k t
      | O =>
          if startswith sep s
          then ([], let (p, ps) := split_go sep (Nat.pred (List.length sep)) t
                    in p :: ps)
          else let (p, ps) := split_go sep 0%nat t in (c :: p, ps)
      end
  end.

Definition split (sep s : str) : list str :=
  let (p, ps) := split_go sep 0%nat s in p :: ps.

(** [sep.join(parts)] *)
Fixpoint join (sep : str) (parts : list str) : str :=
  match parts with
  | [] => []
  | [p] => p
  | p :: rest => p ++ sep ++ join sep rest
  end.

(** [s * n] *)
Fixpoint repeat_str (s : str) (n : nat) : str :=
  match n with
  | O => []
  | S k => s ++ repeat_str s k
  end.

(** [str(n)] for an integer. *)
Definition str_of_Z (z : Z) : str :=
  lit (NilZero.string_of_int (Z.to_int z)).

Definition str_of_nat (n : nat) : str := str_of_Z (Z.of_nat n).

Definition newline : char := 10.
Definition star : char := 42.

End PyStr.

(* ================================================================== *)
(** ** The JSON decoder *)
(* ================================================================== *)

Module Json.

Import PyStr.
Local Open Scope N_scope.

(** A decoded document.  An object keeps its members as the decoder read
    them; [dict_get] and [dict_keys] give them the meaning of a
    dictionary built from that list of pairs.  A number with a fraction
    or an exponent, and the constants [NaN], [Infinity] and [-Infinity],
    keep their text: the script only ever prints such a value or tests
    it for zero. *)
Inductive json : Type :=
| JNull
| JBool (b : bool)
| JInt (z : Z)
| JFloat (lexeme : str)
| JStr (s : str)
| JArr (items : list json)
| JObj (pairs : list (str * json)).

(** Outcome of scanning a prefix of the input. *)
Inductive scan (A : Type) : Type :=
| Scanned (a : A) (rest : str)
| Malformed
| MoreFuel.
Arguments Malformed {A}.
Arguments MoreFuel {A}.

Definition dquote : char := 34.
Definition backslash : char := 92.
Definition lbrace : char := 123.
Definition rbrace : char := 125.
Definition lbracket : char := 91.
Definition rbracket : char := 93.
Definition colon : char := 58.
Definition comma : char := 44.
Definition minus : char := 45.
Definition plus : char := 43.
Definition dot : char := 46.

Definition is_json_ws (c : char) : bool :=
  (c =? 32) || (c =? 9) || (c =? 10) || (c =? 13).

Definition skip_ws (s : str) : str := lstrip_by is_json_ws s.

Definition is_digit (c : char) : bool := (48 <=? c) && (c <=? 57).

Definition hex_value (c : char) : option N :=
  if is_digit c then Some (c - 48)
  else if (97 <=? c) && (c <=? 102) then Some (c - 87)
  else if (65 <=? c) && (c <=? 70) then Some (c - 55)
  else None.

Definition hex4 (a b c d : char) : option N :=
  match hex_value a, hex_value b, hex_value c, hex_value d with
  | Some x, Some y, Some z, Some w => Some (((x * 16 + y) * 16 + z) * 16 + w)
  | _, _, _, _ => None
  end.

(** The one-letter escapes. *)
Definition unescape (c : char) : option char :=
  if c =? dquote then Some dquote
  else if c =? backslash then Some backslash
  else if c =? 47 then Some 47
  else if c =? 98 then Some 8
  else if c =? 102 then Some 12
  else if c =? 110 then Some 10
  else if c =? 114 then Some 13
  else if c =? 116 then Some 9
  else None.

Definition is_high_surrogate (u : N) : bool := (55296 <=? u) && (u <=? 56319).
Definition is_low_surrogate (u : N) : bool := (56320 <=? u) && (u <=? 57343).
Definition join_surrogates (hi lo : N) : N :=
  65536 + (hi - 55296) * 1024 + (lo - 56320).

(** The body of a string, read from just after its opening quote, in
    strict mode: a control character ends the scan with an error. *)
Fixpoint scanstring (s : str) : option (str * str) :=
  match s with
  | [] => None
  | c :: t =>
      if c =? dquote then Some ([], t)
      else if c =? backslash then
        match t with
        | [] => None
        | e :: t1 =>
            if e =? 117 then
              match t1 with
              | h1 :: h2 :: h3 :: h4 :: t2 =>
                  match hex4 h1 h2 h3 h4 with
                  | None => None
                  | Some u =>
                      let single :=
                        match scanstring t2 with
                        | Some (k, r) => Some (u :: k, r)
                        | None => None
                        end in
                      if is_high_surrogate u then
                        match t2 with
                        | b :: t3 =>
                            if b =? backslash then
                              match t3 with
                              | l :: g1 :: g2 :: g3 :: g4 :: t4 =>
                                  if l =? 117 then
                                    match hex4 g1 g2 g3 g4 with
                                    | None => None
                                    | Some u2 =>
                                        if is_low_surrogate u2 then
                                          match scanstring t4 with
                                          | Some (k, r) =>
                                              Some (join_surrogates u u2 :: k, r)
                                          | None => None
                                          end
                                        else single
                                    end
                                  else single
                              | _ => single
                              end
                            else single
                        | [] => single
                        end
                      else single
                  end
              | _ => None
              end
            else
              match unescape e with
              | None => None
              | Some c' =>
                  match scanstring t1 with
                  | Some (k, r) => Some (c' :: k, r)
                  | None => None
                  end
              end
        end
      else if c <? 32 then None
      else
        match scanstring t with
        | Some (k, r) => Some (c :: k, r)
        | None => None
        end
  end.

(** Longest prefix of digits. *)
Fixpoint span_digits (s : str) : str * str :=
  match s with
  | [] => ([], [])
  | c :: t =>
      if is_digit c then let (ds, r) := span_digits t in (c :: ds, r)
      else ([], s)
  end.

Definition digits_value (ds : str) : Z :=
  fold_left (fun acc c => (acc * 10 + Z.of_N (c - 48))%Z) ds 0%Z.

(** A number at the head of the input: an optional minus sign; a zero, or
    a non-zero digit and any digits; optionally a dot and one digit or
    more; optionally [e] or [E], an optional sign, and one digit or more.
    Each part is the longest one. *)
Definition scan_sign (s : str) : str * str :=
  match s with
  | c :: t => if c =? minus then ([minus], t) else ([], s)
  | [] => ([], s)
  end.

Definition scan_int (s : str) : option (str * str) :=
  match s with
  | c :: t =>
      if c =? 48 then Some ([c], t)
      else if is_digit c then Some (span_digits s)
      else None
  | [] => None
  end.

Definition scan_frac (s : str) : str * str :=
  match s with
  | c :: t =>
      if c =? dot then
        match span_digits t with
        | ([], _) => ([], s)
        | (fs, t') => (dot :: fs, t')
        end
      else ([], s)
  | [] => ([], s)
  end.

Definition scan_exp (s : str) : str * str :=
  match s with
  | c :: t =>
      if (c =? 101) || (c =? 69) then
        let (sg, t1) :=
          match t with
          | d :: t' =>
              if (d =? minus) || (d =? plus) then ([d], t') else ([], t)
          | [] => ([], t)
          end in
        match span_digits t1 with
        | ([], _) => ([], s)
        | (es, t') => (c :: sg ++ es, t')
        end
      else ([], s)
  | [] => ([], s)
  end.

Definition scan_number (s : str) : option (json * str) :=
  let (sign, s1) := scan_sign s in
  match scan_int s1 with
  | None => None
  | Some (ds, r) =>
      let (frac, r1) := scan_frac r in
      let (exp, r2) := scan_exp r1 in
      match frac, exp with
      | [], [] =>
          let v := digits_value ds in
          Some (JInt (match sign with [] => v | _ => (- v)%Z end), r2)
      | _, _ => Some (JFloat (sign ++ ds ++ frac ++ exp), r2)
      end
  end.

Definition drop (n : nat) (s : str) : str := skipn n s.

(** Constants and numbers, the cases of [scan_once] that read no nested
    value. *)
Definition scan_atom (s : str) : option (json * str) :=
  if startswith (lit "null") s then Some (JNull, drop 4 s)
  else if startswith (lit "true") s then Some (JBool true, drop 4 s)
  else if startswith (lit "false") s then Some (JBool false, drop 5 s)
  else
    match scan_number s with
    | Some r => Some r
    | None =>
        if startswith (lit "NaN") s then Some (JFloat (lit "NaN"), drop 3 s)
        else if startswith (lit "Infinity") s
        then Some (JFloat (lit "Infinity"), drop 8 s)
        else if startswith (lit "-Infinity") s
        then Some (JFloat (lit "-Infinity"), drop 9 s)
        else None
    end.

(** [scan_once] reads one value at the head of the input;
    [object_members] reads the members of an object from just after the
    opening quote of a key; [array_items] reads the items of a non-empty
    array. *)
Fixpoint scan_once (n : nat) (s : str) {struct n} : scan json :=
  match n with
  | O => MoreFuel
  | S n' =>
      match s with
      | [] => Malformed
      | c :: t =>
          if c =? dquote then
            match scanstring t with
            | Some (k, r) => Scanned (JStr k) r
            | None => Malformed
            end
          else if c =? lbrace then
            match skip_ws t with
            | d :: r =>
                if d =? rbrace then Scanned (JObj []) r
                else if d =? dquote then
                  match object_members n' r with
                  | Scanned ps r' => Scanned (JObj ps) r'
                  | Malformed => Malformed
                  | MoreFuel => MoreFuel
                  end
                else Malformed
            | [] => Malformed
            end
          else if c =? lbracket then
            match skip_ws t with
            | d :: r =>
                if d =? rbracket then Scanned (JArr []) r
                else
                  match array_items n' (d :: r) with
                  | Scanned vs r' => Scanned (JArr vs) r'
                  | Malformed => Malformed
                  | MoreFuel => MoreFuel
                  end
            | [] => Malformed
            end
          else
            match scan_atom s with
            | Some (v, r) => Scanned v r
            | None => Malformed
            end
      end
  end

with object_members (n : nat) (s : str) {struct n} : scan (list (str * json)) :=
  match n with
  | O => MoreFuel
  | S n' =>
      match scanstring s with
      | None => Malformed
      | Some (key, r) =>
          match skip_ws r with
          | c :: r1 =>
              if c =? colon then
                match scan_once n' (skip_ws r1) with
                | Scanned v r2 =>
                    match skip_ws r2 with
                    | d :: r3 =>
                        if d =? rbrace then Scanned [(key, v)] r3
                        else if d =? comma then
                          match skip_ws r3 with
                          | q :: r4 =>
                              if q =? dquote then
                                match object_members n' r4 with
                                | Scanned ps r5 => Scanned ((key, v) :: ps) r5
                                | Malformed => Malformed
                                | MoreFuel => MoreFuel
                                end
                              else Malformed
                          | [] => Malformed
                          end
                        else Malformed
                    | [] => Malformed
                    end
                | Malformed => Malformed
                | MoreFuel => MoreFuel
                end
              else Malformed
          | [] => Malformed
          end
      end
  end

with array_items (n : nat) (s : str) {struct n} : scan (list json) :=
  match n with
  | O => MoreFuel
  | S n' =>
      match scan_once n' s with
      | Scanned v r =>
          match skip_ws r with
          | d :: r1 =>
              if d =? rbracket then Scanned [v] r1
              else if d =? comma then
                match array_items n' (skip_ws r1) with
                | Scanned vs r2 => Scanned (v :: vs) r2
                | Malformed => Malformed
                | MoreFuel => MoreFuel
                end
              else Malformed
          | [] => Malformed
          end
      | Malformed => Malformed
      | MoreFuel => MoreFuel
      end
  end.

(** Fuel that is enough for an input of this length. *)
Definition fuel_for (s : str) : nat := (2 * List.length s + 2)%nat.

(** [json.loads(s)]: one value, surrounded by optional white space and
    nothing else.  [None] is the decode error. *)
Definition json_loads (s : str) : option json :=
  let s0 := skip_ws s in
  match scan_once (fuel_for s0) s0 with
  | Scanned v r => match skip_ws r with [] => Some v | _ :: _ => None end
  | Malformed => None
  | MoreFuel => None
  end.

(** *** Dictionaries *)

(** [dict(pairs).get(key, default)]: the last member with this key. *)
Fixpoint dict_get (key : str) (pairs : list (str * json)) (default : json)
  : json :=
  match pairs with
  | [] => default
  | (k, v) :: rest =>
      if eqb_str k key then dict_get key rest v
      else dict_get key rest default
  end.

(** Keys in the order of their first insertion. *)
Fixpoint dict_keys_from (seen : list str) (pairs : list (str * json))
  : list str :=
  match pairs with
  | [] => []
  | (k, _) :: rest =>
      if existsb (eqb_str k) seen then dict_keys_from seen rest
      else k :: dict_keys_from (k :: seen) rest
  end.

Definition dict_keys (pairs : list (str * json)) : list str :=
  dict_keys_from [] pairs.

End Json.

(* ================================================================== *)
(** ** Regular expressions of the script *)
(* ================================================================== *)

Module Re.

Import PyStr.
Local Open Scope N_scope.

Definition ascii_lower (c : char) : char :=
  if (65 <=? c) && (c <=? 90) then c + 32 else c.

(** One ASCII literal [p] of a pattern compiled with [IGNORECASE] against
    one code point [c] of the subject: [c] and [p] have the same lower
    case, or they are one of the pairs that the engine treats as equal
    although their lower cases differ (dotless and dotted i, long s).
    The only code points outside ASCII whose lower case is an ASCII
    letter are U+0130 (for i) and U+212A (for k). *)
Definition ignorecase_eq (p c : char) : bool :=
  let lp := ascii_lower p in
  (ascii_lower c =? lp)
  || ((lp =? 115) && (c =? 383))
  || ((lp =? 107) && (c =? 8490))
  || ((lp =? 105) && ((c =? 304) || (c =? 305))).

(** [re.compile('^' + escape(p), re.IGNORECASE).match(s)] for a literal
    [p], as a truth value. *)
Fixpoint match_prefix_ignorecase (p s : str) : bool :=
  match p, s with
  | [], _ => true
  | x :: p', y :: s' => ignorecase_eq x y && match_prefix_ignorecase p' s'
  | _ :: _, [] => false
  end.

(** [re.sub('^' + escape(p) + '\s*', '', s)]: the pattern matches at the
    start of the subject only. *)
Definition sub_prefix_ws (p s : str) : str :=
  if startswith p s then lstrip_by isspace (skipn (List.length p) s) else s.

Definition fence : str := lit "```".

(** The pattern [\s*```$] matched at the head of [s]: white space, the
    fence, and then the end of the subject or its final newline.  The
    value is what follows the match. *)
Definition fence_at (s : str) : option str :=
  let r := lstrip_by isspace s in
  if startswith fence r then
    match skipn 3 r with
    | [] => Some []
    | [c] => if c =? newline then Some [c] else None
    | _ => None
    end
  else None.

(** [re.sub('\s*```$', '', s)]: the leftmost match is removed; nothing
    after it can match again. *)
Fixpoint sub_trailing_fence (s : str) : str :=
  match fence_at s with
  | Some r => r
  | None =>
      match s with
      | [] => []
      | c :: t => c :: sub_trailing_fence t
      end
  end.

End Re.

(* ================================================================== *)
(** ** Data, events and the trace monad *)
(* ================================================================== *)

Module Effects.

Import PyStr.

(** [PullRequest] of the script; [merged_at] in microseconds since the
    epoch. *)
Record PullRequest : Type := mkPullRequest {
  title : str;
  body : str;
  number : Z;
  url : str;
  merged_at : Z;
  labels : list str;
  repo_name : str
}.

(** A block of the chat message: the three shapes the script builds. *)
Inductive block : Type :=
| Header (text : str) (emoji : bool)
| Divider
| Section (text : str).

(** An exception raised by a call to the outside; [message] is what
    [str(e)] gives. *)
Record exn : Type := Exception { message : str }.

Inductive result (A : Type) : Type :=
| Ok (a : A)
| Raise (e : exn).
Arguments Raise {A} e.

(** What a run does to the outside world, with the outcome of each
    call. *)
Inductive event : Type :=
| Fetched (repo : str) (since : Z) (r : result (list PullRequest))
| Asked (system_prompt user_prompt : str) (r : result str)
| Posted (channel text : str) (blocks : list block) (unfurl_links : bool)
         (r : result str)
| Wrote (path content : str) (r : result unit).

Definition trace := list event.

(** A computation reads the events so far, adds its own at the end, and
    returns or raises. *)
Definition M (A : Type) : Type := trace -> result A * trace.

Definition ret {A} (a : A) : M A := fun tr => (Ok a, tr).

Definition raise {A} (e : exn) : M A := fun tr => (Raise e, tr).

Definition bind {A B} (m : M A) (k : A -> M B) : M B :=
  fun tr =>
    match m tr with
    | (Ok a, tr') => k a tr'
    | (Raise e, tr') => (Raise e, tr')
    end.

(** [try: m except Exception as e: h e] *)
Definition try_except {A} (m : M A) (h : exn -> M A) : M A :=
  fun tr =>
    match m tr with
    | (Ok a, tr') => (Ok a, tr')
    | (Raise e, tr') => h e tr'
    end.

(** A call to the outside: the answer may depend on everything that
    happened before, and is recorded. *)
Definition call {A} (answer : trace -> result A) (ev : result A -> event)
  : M A :=
  fun tr => let r := answer tr in (r, tr ++ [ev r]).

Module Notations.
  Notation "x <- m ;; k" := (bind m (fun x => k))
    (at level 61, m at next level, right associativity).
End Notations.

(** The outside world of a run: the three services, the file system, the
    clock, and the functions of the host language that print a float or
    quote a string. *)
Record world : Type := mkWorld {
  (** [get_merged_prs], which queries the source-control host *)
  github : trace -> str -> Z -> result (list PullRequest);
  (** [ai_provider.generate_summary] *)
  provider : trace -> str -> str -> result str;
  (** [slack_client.chat_postMessage]; the answer is the time stamp *)
  slack : trace -> str -> str -> list block -> bool -> result str;
  (** opening and writing a file *)
  filesystem : trace -> str -> str -> result unit;
  slack_channel : str;
  (** the two readings of the clock, in microseconds from the first
      instant of 1970 *)
  now_start : Z;
  now_end : Z;
  (** [strftime('%d %b %Y')] *)
  strftime_d_b_Y : Z -> str;
  (** the fixed instructions sent with every request *)
  release_notes_prompt : str;
  (** [str(float(lexeme))], [repr] of a string, and whether
      [float(lexeme)] is zero *)
  float_str : str -> str;
  str_repr : str -> str;
  float_is_zero : str -> bool
}.

End Effects.

(* ================================================================== *)
(** ** The generator *)
(* ================================================================== *)

Module Gen.

Import PyStr Json Re Effects Effects.Notations.
Local Open Scope N_scope.

(** *** Literals of the script, as the source file has them *)

Definition nl : str := [newline].

Definition no_prs_sentinel : str := lit "No pull requests found.".

(** Marker of a category line (three code points in the file). *)
Definition bullet : str := [226; 8364; 162].

(** Marker of an item line. *)
Definition item_bullet : str := [226; 8212; 166].

(** The unit of the divider line, which repeats it fifty times. *)
Definition divider_unit : str := [226; 8221; 8364].

Definition divider : str := repeat_str divider_unit 50.

Definition title_text : str := [240; 376; 8220; 176] ++ lit " Release Notes".

Definition output_path : str := lit "generated_message.txt".

(** *** [filter_prs] *)

Definition deps_pattern_match (t : str) : bool :=
  match_prefix_ignorecase (lit "chore(deps)") t.

Record filtered : Type := mkFiltered {
  regular : list PullRequest;
  deps : list PullRequest
}.

(** The loop appends each record to one of the two lists. *)
Definition filter_step (acc : filtered) (pr : PullRequest) : filtered :=
  if deps_pattern_match (title pr)
  then mkFiltered (regular acc) (deps acc ++ [pr])
  else mkFiltered (regular acc ++ [pr]) (deps acc).

Definition filter_prs (prs : list PullRequest) : filtered :=
  fold_left filter_step prs (mkFiltered [] []).

(** *** [format_prs_for_summary] *)

Definition pr_info (pr : PullRequest) : str :=
  let title := strip (title pr) in
  let body := if truthy (body pr) then strip (body pr) else [] in
  let labels_text :=
    match labels pr with
    | [] => []
    | _ :: _ => lit "Labels: " ++ join (lit ", ") (labels pr)
    end in
  let info0 := lit "PR #" ++ str_of_Z (number pr) ++ lit ": " ++ title in
  let info1 :=
    if truthy body then info0 ++ nl ++ lit "Description: " ++ body
    else info0 in
  let info2 :=
    if truthy labels_text then info1 ++ nl ++ labels_text else info1 in
  if truthy (url pr) then info2 ++ nl ++ lit "URL: " ++ url pr else info2.

Definition format_prs_for_summary (prs : list PullRequest) : str :=
  match prs with
  | [] => no_prs_sentinel
  | _ :: _ =>
      let formatted_prs :=
        fold_left (fun acc pr => acc ++ [pr_info pr]) prs [] in
      join (nl ++ nl) formatted_prs
  end.

(** *** Values of the decoded reply, as the host language treats them *)

(** The exceptions that the handling of a reply can raise. *)
Inductive py_error : Type :=
| JSONDecodeError
| KeyError
| TypeError
| AttributeError.

Definition caught_by_parse_handler (e : py_error) : bool :=
  match e with
  | JSONDecodeError | KeyError | TypeError => true
  | AttributeError => false
  end.

(** [dict.get] on the printed members of a dictionary. *)
Fixpoint assoc_last (key : str) (pairs : list (str * str)) (default : str)
  : str :=
  match pairs with
  | [] => default
  | (k, v) :: rest =>
      if eqb_str k key then assoc_last key rest v
      else assoc_last key rest default
  end.

Section Host.

Variable w : world.

(** [repr(v)] and [str(v)]; they differ on strings only. *)
Fixpoint py_repr (v : json) : str :=
  match v with
  | JNull => lit "None"
  | JBool true => lit "True"
  | JBool false => lit "False"
  | JInt z => str_of_Z z
  | JFloat x => float_str w x
  | JStr s => str_repr w s
  | JArr l =>
      lit "[" ++ join (lit ", ") (List.map py_repr l) ++ lit "]"
  | JObj ps =>
      let printed :=
        (fix members (ps : list (str * json)) : list (str * str) :=
           match ps with
           | [] => []
           | (k, x) :: rest => (k, py_repr x) :: members rest
           end) ps in
      lit "{"
      ++ join (lit ", ")
           (List.map (fun k => str_repr w k ++ lit ": " ++ assoc_last k printed [])
              (dict_keys ps))
      ++ lit "}"
  end.

Definition py_str (v : json) : str :=
  match v with
  | JStr s => s
  | _ => py_repr v
  end.

(** Truth value. *)
Definition py_truthy (v : json) : bool :=
  match v with
  | JNull => false
  | JBool b => b
  | JInt z => negb (Z.eqb z 0)
  | JFloat x => negb (float_is_zero w x)
  | JStr s => truthy s
  | JArr l => match l with [] => false | _ :: _ => true end
  | JObj ps => match ps with [] => false | _ :: _ => true end
  end.

(** What a [for] loop over the value visits. *)
Definition py_iter (v : json) : py_error + list json :=
  match v with
  | JArr l => inr l
  | JStr s => inr (List.map (fun c => JStr [c]) s)
  | JObj ps => inr (List.map JStr (dict_keys ps))
  | JNull | JBool _ | JInt _ | JFloat _ => inl TypeError
  end.

(** [v.get(key, default)] *)
Definition py_get (v : json) (key : str) (default : json)
  : py_error + json :=
  match v with
  | JObj ps => inr (dict_get key ps default)
  | _ => inl AttributeError
  end.

(** *** [summarize_with_ai] *)

Definition no_changes (repo : str) : str :=
  lit "*" ++ repo ++ lit "*: No changes in the specified time period.".

Definition user_prompt (repo prs_text : str) : str :=
  lit "Repository: " ++ repo ++ nl ++ nl
  ++ lit "Pull Requests to analyze:" ++ nl
  ++ prs_text ++ nl ++ nl
  ++ lit "Create user-facing release notes following the format and guidelines above.".

(** The reply without the language tag and the code fence. *)
Definition clean_reply (summary_json : str) : str :=
  let cleaned := strip summary_json in
  let cleaned := sub_prefix_ws (lit "json") cleaned in
  let cleaned := sub_prefix_ws (lit "```json") cleaned in
  let cleaned := sub_trailing_fence cleaned in
  strip cleaned.

Definition format_item (acc : str) (item : json) : str :=
  acc ++ lit "  " ++ item_bullet ++ lit " " ++ py_str item ++ nl.

(** One turn of the loop over the categories. *)
Definition format_category (acc : str) (category : json) : py_error + str :=
  match py_get category (lit "name") (JStr []) with
  | inl e => inl e
  | inr category_name =>
      match py_get category (lit "items") (JArr []) with
      | inl e => inl e
      | inr items =>
          if py_truthy items then
            let acc :=
              acc ++ nl ++ bullet ++ lit " *" ++ py_str category_name
                  ++ lit "*:" ++ nl in
            match py_iter items with
            | inl e => inl e
            | inr its => inr (fold_left format_item its acc)
            end
          else inr acc
      end
  end.

Fixpoint format_categories (acc : str) (categories : list json)
  : py_error + str :=
  match categories with
  | [] => inr acc
  | c :: rest =>
      match format_category acc c with
      | inl e => inl e
      | inr acc' => format_categories acc' rest
      end
  end.

(** The body of the inner [try]: decode the reply and lay it out. *)
Definition parse_and_format (repo summary_json : str) : py_error + str :=
  match json_loads (clean_reply summary_json) with
  | None => inl JSONDecodeError
  | Some data =>
      let formatted_summary := lit "*" ++ repo ++ lit "*" ++ nl in
      match py_get data (lit "categories") (JArr []) with
      | inl e => inl e
      | inr cats =>
          match py_iter cats with
          | inl e => inl e
          | inr categories =>
              match format_categories formatted_summary categories with
              | inl e => inl e
              | inr s => inr (s ++ nl ++ divider ++ nl)
              end
          end
      end
  end.

(** The text returned when the reply cannot be decoded. *)
Definition raw_fallback (repo summary_json : str) : str :=
  lit "*" ++ repo ++ lit "*:" ++ nl ++ nl ++ summary_json.

(** The text returned when anything else fails. *)
Definition count_fallback (repo prs_text : str) : str :=
  lit "*" ++ repo ++ lit "*: "
  ++ str_of_nat (List.length (split (lit "PR #") prs_text) - 1)
  ++ lit " pull requests merged. See individual PRs for details.".

Definition summarize_with_ai (repo prs_text : str) : M str :=
  if negb (truthy prs_text) || eqb_str prs_text no_prs_sentinel
  then ret (no_changes repo)
  else
    fun tr =>
      let sys := release_notes_prompt w in
      let usr := user_prompt repo prs_text in
      match call (fun tr => provider w tr sys usr) (Asked sys usr) tr with
      | (Ok summary_json, tr') =>
          match parse_and_format repo summary_json with
          | inr formatted_summary => (Ok formatted_summary, tr')
          | inl e =>
              if caught_by_parse_handler e
              then (Ok (raw_fallback repo summary_json), tr')
              else (Ok (count_fallback repo prs_text), tr')
          end
      | (Raise _, tr') => (Ok (count_fallback repo prs_text), tr')
      end.

(** *** [post_to_slack] *)

Definition text_version (message : str) : str :=
  replace divider_unit (lit "-")
    (replace item_bullet (lit "  -")
       (replace bullet (lit "-")
          (replace (lit "*") [] message))).

Definition header_text (date_range : option str) : str :=
  match date_range with
  | Some (c :: d) => title_text ++ lit " (" ++ (c :: d) ++ lit ")"
  | Some [] | None => title_text
  end.

Definition first_line_is_name (lines : list str) : bool :=
  match lines with
  | [] => false
  | l0 :: _ => startswith (lit "*") l0 && endswith (lit "*") l0
  end.

(** One turn of the loop over the sections: the blocks after it. *)
Definition section_step (blocks : list block) (section : str) : list block :=
  let section := strip section in
  if truthy section then
    let lines := split nl section in
    if first_line_is_name lines then
      let repo_name := strip_chars (lit "*") (hd [] lines) in
      let blocks := blocks ++ [Header repo_name false] in
      let content := strip (join nl (tl lines)) in
      let blocks :=
        if truthy content then blocks ++ [Section content] else blocks in
      blocks ++ [Divider]
    else blocks
  else blocks.

Definition build_blocks (message : str) (date_range : option str)
  : list block :=
  let sections := split divider message in
  let blocks := [Header (header_text date_range) true; Divider] in
  fold_left section_step sections blocks.

Definition post_to_slack (message : str) (date_range : option str) : M unit :=
  let text := text_version message in
  let blocks := build_blocks message date_range in
  try_except
    (_ <- call (fun tr => slack w tr (slack_channel w) text blocks false)
               (Posted (slack_channel w) text blocks false) ;;
     ret tt)
    (fun e => raise e).

(** *** [generate_release_notes] *)

Definition microseconds_per_day : Z := 86400000000.

(** The first and the last instant that a [datetime] can hold: the
    first microsecond of the year 1 and the last one of the year
    9999. *)
Definition datetime_min : Z := (-62135596800000000)%Z.
Definition datetime_max : Z := 253402300799999999%Z.

(** [timedelta(days=days)], in microseconds.  A number of days beyond
    999999999 either way raises an [OverflowError]; its messages are
    those of the interpreter. *)
Definition timedelta (days : Z) : result Z :=
  if ((days <? -2147483648) || (2147483647 <? days))%Z then
    Raise (Exception (lit "Python int too large to convert to C int"))
  else if ((days <? -999999999) || (999999999 <? days))%Z then
    Raise (Exception (lit "days=" ++ str_of_Z days
                      ++ lit "; must have magnitude <= 999999999"))
  else Ok (days * microseconds_per_day)%Z.

(** [now - delta]: an [OverflowError] when the instant is not one that a
    [datetime] can hold. *)
Definition datetime_sub (now delta : Z) : result Z :=
  let t := (now - delta)%Z in
  if ((datetime_min <=? t) && (t <=? datetime_max))%Z then Ok t
  else Raise (Exception (lit "date value out of range")).

(** [datetime.now(timezone.utc) - timedelta(days=days_back)] *)
Definition window_start (days_back : Z) : result Z :=
  match timedelta days_back with
  | Raise e => Raise e
  | Ok delta => datetime_sub (now_start w) delta
  end.

(** The label of the window that begins at [since]. *)
Definition date_range (since : Z) : str :=
  strftime_d_b_Y w since ++ lit " - " ++ strftime_d_b_Y w (now_end w).

Definition error_sentence (repo : str) (e : exn) : str :=
  lit "*" ++ repo ++ lit "*: Error processing repository - " ++ message e.

(** The body of the [try] for one repository, for the window that
    begins at [since]: the summaries after it. *)
Definition process_one (since : Z) (repo : str) (all_summaries : list str)
  : M (list str) :=
  prs <- call (fun tr => github w tr repo since) (Fetched repo since) ;;
  match prs with
  | [] => ret (all_summaries ++ [no_changes repo])
  | _ :: _ =>
      let regular_prs_text := format_prs_for_summary prs in
      summary <- summarize_with_ai repo regular_prs_text ;;
      ret (all_summaries ++ [summary])
  end.

(** The loop over the repositories. *)
Fixpoint process_repos (since : Z) (repos : list str)
         (all_summaries : list str) : M (list str) :=
  match repos with
  | [] => ret all_summaries
  | repo :: rest =>
      let repo := strip repo in
      if negb (truthy repo) then process_repos since rest all_summaries
      else
        all_summaries' <-
          try_except (process_one since repo all_summaries)
            (fun e => ret (all_summaries ++ [error_sentence repo e])) ;;
        process_repos since rest all_summaries'
  end.

(** The window is computed first: when that raises, the method is left
    before anything else is done. *)
Definition generate_release_notes (repos : list str) (days_back : Z)
  : M unit :=
  match window_start days_back with
  | Raise e => raise e
  | Ok since =>
      match repos with
      | [] => ret tt
      | _ :: _ =>
          all_summaries <- process_repos since repos [] ;;
          match all_summaries with
          | _ :: _ =>
              let full_message := join (nl ++ nl) all_summaries in
              _ <- post_to_slack full_message (Some (date_range since)) ;;
              _ <- call (fun tr => filesystem w tr output_path full_message)
                        (Wrote output_path full_message) ;;
              ret tt
          | [] => ret tt
          end
      end
  end.

End Host.

End Gen.

(* ================================================================== *)
(** ** Properties *)
(* ================================================================== *)

From Stdlib Require Import Permutation.

Import PyStr Json Re Effects Effects.Notations Gen.

(** *** Strings *)

Section StringFacts.

Local Open Scope N_scope.

Lemma eqb_str_eq (a b : str) : eqb_str a b = true <-> a = b.
Proof.
  revert b; induction a as [|x a IH]; intros [|y b]; simpl;
    try (split; [discriminate | discriminate]); try tauto.
  rewrite andb_true_iff, N.eqb_eq, IH.
  split; [intros [-> ->]; reflexivity | intros H; inversion H; auto].
Qed.

Lemma eqb_str_refl (a : str) : eqb_str a a = true.
Proof. apply eqb_str_eq; reflexivity. Qed.

Lemma eqb_str_neq (a b : str) : a <> b -> eqb_str a b = false.
Proof.
  intros H; destruct (eqb_str a b) eqn:E; [|reflexivity].
  apply eqb_str_eq in E; contradiction.
Qed.

Lemma truthy_false (s : str) : truthy s = false <-> s = [].
Proof. destruct s; simpl; split; congruence. Qed.

Lemma truthy_true (s : str) : truthy s = true <-> s <> [].
Proof. destruct s; simpl; split; congruence. Qed.

(** A string that starts with [p] is [p] followed by something. *)
Lemma startswith_spec (p s : str) :
  startswith p s = true <-> exists r, s = p ++ r.
Proof.
  revert s; induction p as [|x p IH]; intros s; simpl.
  - split; [intros _; exists s; reflexivity | reflexivity].
  - destruct s as [|y s]; [split; [discriminate | intros [r H]; discriminate]|].
    rewrite andb_true_iff, N.eqb_eq, IH.
    split.
    + intros [-> [r ->]]; exists r; reflexivity.
    + intros [r H]; inversion H; subst; split; [reflexivity | exists r; reflexivity].
Qed.

Lemma startswith_app (p r : str) : startswith p (p ++ r) = true.
Proof. apply startswith_spec; exists r; reflexivity. Qed.

End StringFacts.

(** *** The formatter and the sentinel *)

(** The loop of [format_prs_for_summary] builds the list of the blocks of
    the records, in their order. *)
Lemma formatted_prs_map (prs : list PullRequest) (acc : list str) :
  fold_left (fun acc pr => acc ++ [pr_info pr]) prs acc
  = acc ++ List.map pr_info prs.
Proof.
  revert acc; induction prs as [|pr prs IH]; intros acc; simpl.
  - now rewrite app_nil_r.
  - rewrite IH, <- app_assoc; reflexivity.
Qed.

(** Events that a computation adds to the trace [tr]. *)
Definition new_events {A} (m : M A) (tr : trace) : list event :=
  skipn (List.length tr) (snd (m tr)).

Lemma skipn_length_app {A} (l r : list A) : skipn (List.length l) (l ++ r) = r.
Proof. induction l; simpl; auto. Qed.

(** C6.  On an empty sequence the formatter returns exactly the sentinel
    text "No pull requests found."; on that sentinel the summarizer
    returns the fixed sentence that names the repository and says that
    nothing changed, and it adds no event: the provider is not called. *)
Theorem empty_sequence_gives_sentinel_and_no_provider_call
  (w : world) (repo : str) (tr : trace) :
  format_prs_for_summary [] = lit "No pull requests found."
  /\ summarize_with_ai w repo (format_prs_for_summary []) tr
     = (Ok (lit "*" ++ repo
            ++ lit "*: No changes in the specified time period."), tr)
  /\ new_events (summarize_with_ai w repo (format_prs_for_summary [])) tr = [].
Proof.
  split; [reflexivity|].
  assert (E : summarize_with_ai w repo (format_prs_for_summary []) tr
              = (Ok (no_changes repo), tr)) by reflexivity.
  split; [exact E|].
  unfold new_events; rewrite E; simpl.
  rewrite <- (app_nil_r tr) at 2; apply skipn_length_app.
Qed.

(** C10.  The formatter is a function of the sequence alone: two calls on
    the same sequence give the same text, whatever happened in between,
    and the text is the blocks of the records joined by a blank line. *)
Theorem formatter_is_deterministic (prs : list PullRequest) :
  forall first second : str,
    first = format_prs_for_summary prs ->
    second = format_prs_for_summary prs ->
    first = second
    /\ first = match prs with
               | [] => no_prs_sentinel
               | _ :: _ => join (nl ++ nl) (List.map pr_info prs)
               end.
Proof.
  intros first second -> ->; split; [reflexivity|].
  destruct prs as [|pr prs]; [reflexivity|].
  unfold format_prs_for_summary; rewrite formatted_prs_map; reflexivity.
Qed.

(** *** The filter *)

(** Folding of case under which the engine compares a code point with a
    lower-case ASCII letter of the pattern. *)
Definition fold_case (c : char) : char :=
  if N.eqb c 383 then 115%N
  else if N.eqb c 8490 then 107%N
  else if N.eqb c 304 || N.eqb c 305 then 105%N
  else ascii_lower c.

(** The title begins with the text [p], the case of letters ignored. *)
Definition has_prefix_ignoring_case (p t : str) : Prop :=
  exists head rest, t = head ++ rest /\ List.map fold_case head = p.

Definition lower_ascii (x : char) : Prop :=
  (x < 128)%N /\ ascii_lower x = x.

Lemma ignorecase_eq_fold (x c : char) :
  lower_ascii x -> ignorecase_eq x c = N.eqb (fold_case c) x.
Proof.
  intros [Hx Hl]; unfold ignorecase_eq, fold_case; rewrite Hl.
  unfold ascii_lower.
  destruct (N.eqb_spec c 383%N), (N.eqb_spec c 8490%N), (N.eqb_spec c 304%N),
    (N.eqb_spec c 305%N); cbn [orb andb];
  destruct (N.leb_spec 65%N c), (N.leb_spec c 90%N); cbn [orb andb];
  repeat match goal with
         | |- context [N.eqb ?a ?b] => destruct (N.eqb_spec a b); cbn [orb andb]
         end; try reflexivity; lia.
Qed.

Lemma match_prefix_ignorecase_spec (p t : str) :
  Forall lower_ascii p ->
  match_prefix_ignorecase p t = true <-> has_prefix_ignoring_case p t.
Proof.
  intros Hp; revert t; induction Hp as [|x p Hx Hp IH]; intros t; simpl.
  - split; [intros _; exists [], t; auto|reflexivity].
  - destruct t as [|c t].
    + split; [discriminate|].
      intros (h & r & E & M); destruct h; simpl in *; discriminate.
    + rewrite andb_true_iff, (ignorecase_eq_fold c Hx), N.eqb_eq, IH.
      split.
      * intros [Hc (h & r & -> & <-)].
        exists (c :: h), r; simpl; rewrite Hc; auto.
      * intros (h & r & E & M); destruct h as [|c' h]; simpl in *;
          [discriminate|].
        inversion E; inversion M; subst.
        split; [reflexivity|exists h, r; auto].
Qed.

Lemma deps_pattern_lower : Forall lower_ascii (lit "chore(deps)").
Proof. repeat constructor; vm_compute; reflexivity. Qed.

(** The two lists that the loop of [filter_prs] builds. *)
Lemma filter_prs_fold (prs : list PullRequest) (acc : filtered) :
  fold_left filter_step prs acc
  = mkFiltered
      (regular acc
       ++ filter (fun pr => negb (deps_pattern_match (title pr))) prs)
      (deps acc ++ filter (fun pr => deps_pattern_match (title pr)) prs).
Proof.
  revert acc; induction prs as [|pr prs IH]; intros [r d]; simpl.
  - now rewrite !app_nil_r.
  - rewrite IH; unfold filter_step; simpl.
    destruct (deps_pattern_match (title pr)); simpl;
      rewrite <- ?app_assoc; reflexivity.
Qed.

Lemma filter_partition_perm {A} (f : A -> bool) (l : list A) :
  Permutation (filter (fun x => negb (f x)) l ++ filter f l) l.
Proof.
  induction l as [|x l IH]; simpl; [constructor|].
  destruct (f x); simpl.
  - apply Permutation_sym, Permutation_cons_app, Permutation_sym, IH.
  - constructor; exact IH.
Qed.

(** C7.  The filter splits the sequence by the pattern: a record is put
    with the dependency updates exactly when its title begins with
    "chore(deps)", the case of letters ignored, and with the regular ones
    otherwise; both groups keep the order of the input, and together
    they hold every record once. *)
Theorem filter_prs_partitions_by_pattern (prs : list PullRequest) :
  let out := filter_prs prs in
  (forall pr, In pr (deps out)
              <-> In pr prs
                  /\ has_prefix_ignoring_case (lit "chore(deps)") (title pr))
  /\ (forall pr, In pr (regular out)
                 <-> In pr prs
                     /\ ~ has_prefix_ignoring_case (lit "chore(deps)") (title pr))
  /\ (forall pr, In pr (regular out) -> In pr (deps out) -> False)
  /\ Permutation (regular out ++ deps out) prs
  /\ deps out = filter (fun pr => deps_pattern_match (title pr)) prs
  /\ regular out
     = filter (fun pr => negb (deps_pattern_match (title pr))) prs.
Proof.
  intros out.
  assert (E : out = mkFiltered
                (filter (fun pr => negb (deps_pattern_match (title pr))) prs)
                (filter (fun pr => deps_pattern_match (title pr)) prs))
    by (unfold out, filter_prs; rewrite filter_prs_fold; reflexivity).
  assert (S : forall t, deps_pattern_match t = true
                        <-> has_prefix_ignoring_case (lit "chore(deps)") t)
    by (intros t; apply match_prefix_ignorecase_spec, deps_pattern_lower).
  rewrite E; simpl.
  repeat split; intros; repeat match goal with
    | H : In _ (filter _ _) |- _ => apply filter_In in H; destruct H
    | H : _ /\ _ |- _ => destruct H
    end; auto.
  - apply S; assumption.
  - apply filter_In; split; [assumption | apply S; assumption].
  - intros C; apply S in C.
    match goal with H : negb _ = true |- _ => rewrite C in H; discriminate end.
  - apply filter_In; split; [assumption|].
    destruct (deps_pattern_match (title pr)) eqn:D; [|reflexivity].
    apply S in D; contradiction.
  - match goal with H : negb ?b = true, H' : ?b = true |- _ =>
      rewrite H' in H; discriminate end.
  - apply filter_partition_perm.
Qed.

(** *** The blocks of the publisher *)

Definition is_header (b : block) : bool :=
  match b with Header _ _ => true | _ => false end.

Definition is_divider (b : block) : bool :=
  match b with Divider => true | _ => false end.

Definition is_section (b : block) : bool :=
  match b with Section _ => true | _ => false end.

Definition count_blocks (p : block -> bool) (bs : list block) : nat :=
  List.length (filter p bs).

(** The repository sections of a blob, as the publisher cuts them: the
    pieces between divider lines, without surrounding white space, that
    are not empty. *)
Definition repository_sections (message : str) : list str :=
  filter truthy (List.map strip (split divider message)).

(** The first line of the section starts and ends with the emphasis
    marker. *)
Definition begins_with_name (section : str) : bool :=
  first_line_is_name (split nl section).

(** The blocks that one section adds. *)
Definition section_blocks (section : str) : list block :=
  let section := strip section in
  if truthy section && begins_with_name section then
    let lines := split nl section in
    let content := strip (join nl (tl lines)) in
    [Header (strip_chars (lit "*") (hd [] lines)) false]
    ++ (if truthy content then [Section content] else [])
    ++ [Divider]
  else [].

Lemma section_step_blocks (blocks : list block) (section : str) :
  section_step blocks section = blocks ++ section_blocks section.
Proof.
  unfold section_step, section_blocks, begins_with_name.
  destruct (truthy (strip section)); simpl; [|now rewrite app_nil_r].
  destruct (first_line_is_name (split nl (strip section)));
    [|now rewrite app_nil_r].
  destruct (truthy (strip (join nl (tl (split nl (strip section))))));
    simpl; rewrite <- ?app_assoc; reflexivity.
Qed.

Lemma fold_section_step (sections : list str) (blocks : list block) :
  fold_left section_step sections blocks
  = blocks ++ flat_map section_blocks sections.
Proof.
  revert blocks; induction sections as [|s l IH]; intros blocks; simpl.
  - now rewrite app_nil_r.
  - rewrite IH, section_step_blocks, <- app_assoc; reflexivity.
Qed.

Lemma count_blocks_app p (a b : list block) :
  count_blocks p (a ++ b) = count_blocks p a + count_blocks p b.
Proof. unfold count_blocks; now rewrite filter_app, length_app. Qed.

(** Headers and dividers of the blocks of the sections: one of each for
    every repository section whose first line is a name. *)
Lemma count_section_blocks (sections : list str) :
  let named :=
    filter begins_with_name (filter truthy (List.map strip sections)) in
  count_blocks is_header (flat_map section_blocks sections)
  = List.length named
  /\ count_blocks is_divider (flat_map section_blocks sections)
     = List.length named.
Proof.
  induction sections as [|s l [IHh IHd]]; simpl; [split; reflexivity|].
  rewrite !count_blocks_app, IHh, IHd.
  unfold section_blocks.
  destruct (truthy (strip s)) eqn:T; simpl; [|split; reflexivity].
  destruct (begins_with_name (strip s)) eqn:B; simpl; [|split; reflexivity].
  destruct (truthy (strip (join nl (tl (split nl (strip s))))));
    split; reflexivity.
Qed.

Lemma filter_all {A} (f : A -> bool) (l : list A) :
  Forall (fun x => f x = true) l -> filter f l = l.
Proof.
  induction 1 as [|x l Hx _ IH]; simpl; [reflexivity|].
  now rewrite Hx, IH.
Qed.

(** C3.  For a blob whose repository sections all begin with a first line
    wrapped in emphasis markers, the blocks hold one header for the
    title and one for every repository section, and one divider after
    the title and one after every repository section; in particular for
    a blob of two such sections. *)
Theorem publisher_counts_headers_and_dividers
  (message : str) (date_range : option str) (n : nat) :
  List.length (repository_sections message) = n ->
  Forall (fun s => begins_with_name s = true) (repository_sections message) ->
  count_blocks is_header (build_blocks message date_range) = 1 + n
  /\ count_blocks is_divider (build_blocks message date_range) = n + 1.
Proof.
  intros Hn Hall.
  unfold build_blocks; rewrite fold_section_step.
  change [Header (header_text date_range) true; Divider]
    with ([Header (header_text date_range) true] ++ [Divider]).
  rewrite !count_blocks_app.
  destruct (count_section_blocks (split divider message)) as [Hh Hd].
  rewrite Hh, Hd; fold (repository_sections message).
  rewrite (filter_all _ Hall), Hn; simpl; split; lia.
Qed.

(** *** The summarizer *)

(** Number of places of [s] at which the text [pat] begins. *)
Fixpoint count_occurrences (pat s : str) : nat :=
  match s with
  | [] => 0
  | _ :: t => (if startswith pat s then 1 else 0) + count_occurrences pat t
  end.

Definition pr_marker : str := lit "PR #".

Lemma split_go_marker_tail (r : str) :
  split_go pr_marker (Nat.pred (List.length pr_marker)) ([82; 32; 35]%N ++ r)
  = split_go pr_marker 0 r.
Proof. reflexivity. Qed.

Lemma count_occurrences_marker_tail (r : str) :
  count_occurrences pr_marker ([82; 32; 35]%N ++ r)
  = count_occurrences pr_marker r.
Proof. reflexivity. Qed.

Lemma split_marker_count_bounded (n : nat) (s : str) :
  List.length s <= n ->
  List.length (snd (split_go pr_marker 0 s)) = count_occurrences pr_marker s.
Proof.
  revert s; induction n as [|n IH]; intros [|c t] Hlen; simpl in Hlen;
    try reflexivity; try lia.
  cbn [split_go count_occurrences].
  destruct (startswith pr_marker (c :: t)) eqn:E.
  - apply startswith_spec in E; destruct E as [r E].
    change (pr_marker ++ r) with (80%N :: [82; 32; 35]%N ++ r) in E.
    injection E as -> ->.
    change (82 :: 32 :: 35 :: r)%N with ([82; 32; 35]%N ++ r) in *.
    rewrite split_go_marker_tail, count_occurrences_marker_tail.
    specialize (IH r).
    destruct (split_go pr_marker 0 r) as [p ps].
    cbn [snd List.length] in *.
    rewrite IH; [reflexivity|].
    rewrite length_app in Hlen; simpl in Hlen; lia.
  - specialize (IH t).
    destruct (split_go pr_marker 0 t) as [p ps].
    cbn [snd] in *; apply IH; lia.
Qed.

(** The number that the fallback sentence reports is the number of
    markers in the text. *)
Lemma split_marker_count (s : str) :
  List.length (split pr_marker s) - 1 = count_occurrences pr_marker s.
Proof.
  unfold split.
  pose proof (@split_marker_count_bounded (List.length s) s (le_n _)) as H.
  destruct (split_go pr_marker 0 s) as [p ps]; simpl in *; lia.
Qed.

(** *** The decoder never runs out of fuel *)

Section DecoderFuel.

Local Open Scope nat_scope.

Ltac break_hyp :=
  match goal with
  | H : context [match ?x with _ => _ end] |- _ => destruct x eqn:?
  | H : context [if ?x then _ else _] |- _ => destruct x eqn:?
  end.

Ltac invert_pairs :=
  repeat match goal with
         | H : (_, _) = (_, _) |- _ => inversion H; subst; clear H
         | H : Some _ = Some _ |- _ => inversion H; subst; clear H
         | H : Scanned _ _ = Scanned _ _ |- _ => inversion H; subst; clear H
         end.

Lemma lstrip_by_length (p : char -> bool) (s : str) :
  List.length (lstrip_by p s) <= List.length s.
Proof.
  induction s as [|c t IH]; simpl; [lia|].
  destruct (p c); simpl; lia.
Qed.

Lemma skip_ws_length (s : str) : List.length (skip_ws s) <= List.length s.
Proof. apply lstrip_by_length. Qed.

Lemma skip_ws_cons_length (s r : str) (c : char) :
  skip_ws s = c :: r -> List.length r < List.length s.
Proof.
  intros E; pose proof (skip_ws_length s) as H; rewrite E in H; simpl in H; lia.
Qed.

Lemma scanstring_shrinks_bounded (n : nat) :
  forall s k r, List.length s <= n -> scanstring s = Some (k, r) ->
                List.length r < List.length s.
Proof.
  induction n as [|n IH]; intros [|c t] k r Hlen; simpl in *;
    try discriminate; try lia.
  repeat match goal with
         | |- context [match ?x with _ => _ end] =>
             lazymatch x with
             | scanstring _ => fail
             | _ => destruct x eqn:?
             end
         | |- context [if ?x then _ else _] => destruct x eqn:?
         end; try discriminate.
  all: repeat match goal with
         | |- context [scanstring ?u] =>
             let E := fresh "E" in
             destruct (scanstring u) as [[? ?]|] eqn:E; try discriminate;
             apply IH in E; [|simpl in *; lia]
         end.
  all: intros H; inversion H; subst; simpl in *; lia.
Qed.

Lemma scanstring_shrinks (s k r : str) :
  scanstring s = Some (k, r) -> List.length r < List.length s.
Proof. apply (@scanstring_shrinks_bounded (List.length s)); lia. Qed.

Lemma span_digits_length (s ds r : str) :
  span_digits s = (ds, r) -> List.length r <= List.length s.
Proof.
  revert ds r; induction s as [|c t IH]; simpl; intros ds r E.
  - invert_pairs; simpl; lia.
  - destruct (is_digit c); [|invert_pairs; simpl; lia].
    destruct (span_digits t) as [ds' r'] eqn:E'; invert_pairs.
    specialize (IH _ _ eq_refl); simpl; lia.
Qed.

Lemma scan_sign_length (s sg r : str) :
  scan_sign s = (sg, r) -> List.length r <= List.length s.
Proof.
  unfold scan_sign; intros E; repeat break_hyp; invert_pairs; simpl; lia.
Qed.

Lemma scan_int_length (s ds r : str) :
  scan_int s = Some (ds, r) -> List.length r < List.length s.
Proof.
  unfold scan_int; intros E; repeat break_hyp; try discriminate; invert_pairs;
    simpl; try lia.
  simpl in H0; rewrite Heqb0 in H0.
  destruct (span_digits l) as [ds' r'] eqn:E'; invert_pairs.
  apply span_digits_length in E'; lia.
Qed.

Lemma scan_frac_length (s f r : str) :
  scan_frac s = (f, r) -> List.length r <= List.length s.
Proof.
  unfold scan_frac; intros E; repeat break_hyp; invert_pairs; simpl; try lia.
  all: match goal with H : span_digits _ = _ |- _ =>
         apply span_digits_length in H; simpl in *; lia end.
Qed.

Lemma scan_exp_length (s e r : str) :
  scan_exp s = (e, r) -> List.length r <= List.length s.
Proof.
  unfold scan_exp; intros E; repeat break_hyp; invert_pairs; simpl; try lia.
  all: match goal with H : span_digits _ = _ |- _ =>
         apply span_digits_length in H; simpl in *; lia end.
Qed.

Lemma scan_number_shrinks (s : str) (v : json) (r : str) :
  scan_number s = Some (v, r) -> List.length r < List.length s.
Proof.
  unfold scan_number.
  destruct (scan_sign s) as [sg s1] eqn:E1.
  destruct (scan_int s1) as [[ds r0]|] eqn:E2; [|discriminate].
  destruct (scan_frac r0) as [f r1] eqn:E3.
  destruct (scan_exp r1) as [e r2] eqn:E4.
  apply scan_sign_length in E1; apply scan_int_length in E2.
  apply scan_frac_length in E3; apply scan_exp_length in E4.
  intros H; assert (r = r2) by (destruct f, e; inversion H; reflexivity).
  subst; lia.
Qed.

Lemma startswith_length (p s : str) :
  startswith p s = true -> List.length p <= List.length s.
Proof.
  intros H; apply startswith_spec in H; destruct H as [r ->].
  rewrite length_app; lia.
Qed.

Lemma drop_shrinks (n : nat) (s : str) :
  0 < n -> n <= List.length s -> List.length (drop n s) < List.length s.
Proof. intros; unfold drop; rewrite length_skipn; lia. Qed.

Lemma scan_atom_shrinks (s : str) (v : json) (r : str) :
  scan_atom s = Some (v, r) -> List.length r < List.length s.
Proof.
  unfold scan_atom; intros E.
  repeat match type of E with
         | (if startswith ?p s then Some (_, ?d) else _) = _ =>
             let P := fresh "P" in
             let R := fresh "R" in
             destruct (startswith p s) eqn:P;
             [ assert (R : d = r) by congruence; rewrite <- R;
               apply startswith_length in P;
               apply drop_shrinks; [lia | exact P] | ]
         | match scan_number s with _ => _ end = _ =>
             let Q := fresh "Q" in
             destruct (scan_number s) as [[? ?]|] eqn:Q;
             [ apply scan_number_shrinks with (v := v); rewrite Q; exact E | ]
         end.
  discriminate.
Qed.

Ltac scan_facts IH :=
  repeat match goal with
         | H : scanstring _ = Some _ |- _ => apply scanstring_shrinks in H
         | H : skip_ws _ = _ :: _ |- _ => apply skip_ws_cons_length in H
         | H : scan_atom _ = Some _ |- _ => apply scan_atom_shrinks in H
         | H : scan_once _ _ = Scanned _ _ |- _ => apply IH in H
         | H : object_members _ _ = Scanned _ _ |- _ => apply IH in H
         | H : array_items _ _ = Scanned _ _ |- _ => apply IH in H
         end;
  repeat match goal with
         | H : context [skip_ws ?x] |- _ =>
             lazymatch goal with
             | _ : List.length (skip_ws x) <= List.length x |- _ => fail
             | _ => pose proof (skip_ws_length x)
             end
         end.

(** Every scan that succeeds reads at least one code point. *)
Lemma scan_shrinks (n : nat) :
  (forall s v r, scan_once n s = Scanned v r ->
                 List.length r < List.length s)
  /\ (forall s ps r, object_members n s = Scanned ps r ->
                     List.length r < List.length s)
  /\ (forall s vs r, array_items n s = Scanned vs r ->
                     List.length r < List.length s).
Proof.
  induction n as [|n (IH1 & IH2 & IH3)];
    [repeat split; intros; discriminate|].
  repeat split; intros s v r E;
    cbn [scan_once object_members array_items] in E;
    repeat break_hyp; try discriminate; invert_pairs;
    scan_facts IH1; scan_facts IH2; scan_facts IH3; simpl in *; lia.
Qed.

(** With fuel for the length of the input no scan stops for lack of
    fuel. *)
Lemma scan_fuel (n : nat) :
  (forall s, 2 * List.length s + 1 <= n -> scan_once n s <> MoreFuel)
  /\ (forall s, 2 * List.length s + 1 <= n -> object_members n s <> MoreFuel)
  /\ (forall s, 2 * List.length s + 2 <= n -> array_items n s <> MoreFuel).
Proof.
  induction n as [|n (IH1 & IH2 & IH3)]; [repeat split; intros; lia|].
  destruct (scan_shrinks n) as (S1 & S2 & S3).
  repeat split; intros s Hn E;
    cbn [scan_once object_members array_items] in E;
    repeat break_hyp; try discriminate; invert_pairs.
  all: match goal with
       | H : scan_once _ ?x = MoreFuel |- _ => apply IH1 in H; [exact H|]
       | H : object_members _ ?x = MoreFuel |- _ => apply IH2 in H; [exact H|]
       | H : array_items _ ?x = MoreFuel |- _ => apply IH3 in H; [exact H|]
       end.
  all: scan_facts S1; scan_facts S2; scan_facts S3; simpl in *; lia.
Qed.

(** [json_loads] returns [None] only for a text that is not one JSON
    value: the scan behind it ends with a value or with an error. *)
Lemma json_loads_fuel (s : str) :
  scan_once (fuel_for (skip_ws s)) (skip_ws s) <> MoreFuel.
Proof.
  apply (proj1 (scan_fuel (fuel_for (skip_ws s)))); unfold fuel_for; lia.
Qed.

End DecoderFuel.

Section Summarizer.

Variable w : world.

(** The condition under which the summarizer answers without asking. *)
Definition nothing_to_summarize (prs_text : str) : bool :=
  negb (truthy prs_text) || eqb_str prs_text no_prs_sentinel.

(** The text that the summarizer makes of the answer of the provider. *)
Definition summary_of_answer (repo prs_text : str) (answer : result str)
  : str :=
  match answer with
  | Ok reply =>
      match parse_and_format w repo reply with
      | inr formatted => formatted
      | inl e =>
          if caught_by_parse_handler e then raw_fallback repo reply
          else count_fallback repo prs_text
      end
  | Raise _ => count_fallback repo prs_text
  end.

Lemma summarize_skips (repo prs_text : str) (tr : trace) :
  nothing_to_summarize prs_text = true ->
  summarize_with_ai w repo prs_text tr = (Ok (no_changes repo), tr).
Proof.
  unfold summarize_with_ai, nothing_to_summarize; intros ->; reflexivity.
Qed.

Lemma summarize_asks (repo prs_text : str) (tr : trace) :
  nothing_to_summarize prs_text = false ->
  let answer :=
    provider w tr (release_notes_prompt w) (user_prompt repo prs_text) in
  summarize_with_ai w repo prs_text tr
  = (Ok (summary_of_answer repo prs_text answer),
     tr ++ [Asked (release_notes_prompt w) (user_prompt repo prs_text) answer]).
Proof.
  unfold summarize_with_ai, nothing_to_summarize, summary_of_answer, call.
  intros ->; cbv zeta.
  destruct (provider w tr (release_notes_prompt w) (user_prompt repo prs_text))
    as [reply|e]; [|reflexivity].
  destruct (parse_and_format w repo reply) as [err|s]; [|reflexivity].
  destruct (caught_by_parse_handler err); reflexivity.
Qed.

(** The summarizer returns a text on every input. *)
Lemma summarizer_never_raises (repo prs_text : str) (tr : trace) :
  exists s tr', summarize_with_ai w repo prs_text tr = (Ok s, tr').
Proof.
  destruct (nothing_to_summarize prs_text) eqn:G.
  - rewrite summarize_skips by exact G; eauto.
  - rewrite summarize_asks by exact G; eauto.
Qed.

(** During this run of the summarizer the provider was asked and gave
    this answer. *)
Definition provider_answered (repo prs_text : str) (tr : trace)
           (answer : result str) : Prop :=
  exists sys usr,
    In (Asked sys usr answer)
       (new_events (summarize_with_ai w repo prs_text) tr).

Lemma provider_answered_inv (repo prs_text : str) (tr : trace)
      (answer : result str) :
  provider_answered repo prs_text tr answer ->
  summarize_with_ai w repo prs_text tr
  = (Ok (summary_of_answer repo prs_text answer),
     tr ++ [Asked (release_notes_prompt w) (user_prompt repo prs_text) answer]).
Proof.
  intros (sys & usr & Hin); unfold new_events in Hin.
  destruct (nothing_to_summarize prs_text) eqn:G.
  - rewrite summarize_skips in Hin by exact G; simpl in Hin.
    rewrite <- (app_nil_r tr) in Hin at 2.
    rewrite skipn_length_app in Hin; destruct Hin.
  - rewrite summarize_asks in * by exact G; simpl in Hin.
    rewrite skipn_length_app in Hin.
    destruct Hin as [E|[]]; inversion E; subst; reflexivity.
Qed.

(** C8.  When the request to the provider raises, the summarizer returns
    the sentence that names the repository and counts the pull requests,
    and the count is the number of places at which the marker "PR #"
    occurs in the text; the summarizer itself returns normally.  (The
    provider is asked only for a text that is neither empty nor the
    sentinel, so the premise covers every such text and no other.) *)
Theorem provider_failure_gives_count_sentence
  (repo prs_text : str) (tr : trace) (e : exn) :
  provider_answered repo prs_text tr (Raise e) ->
  fst (summarize_with_ai w repo prs_text tr)
  = Ok (lit "*" ++ repo ++ lit "*: "
        ++ str_of_nat (count_occurrences (lit "PR #") prs_text)
        ++ lit " pull requests merged. See individual PRs for details.").
Proof.
  intros H; rewrite (provider_answered_inv H); simpl.
  unfold count_fallback; fold pr_marker; rewrite split_marker_count.
  reflexivity.
Qed.

(** C5.  When the reply of the provider, without its wrapper, is not a
    JSON text, the summarizer returns the reply as it came, after a
    first line that names the repository, and returns normally. *)
Theorem malformed_reply_gives_raw_text
  (repo prs_text : str) (tr : trace) (reply : str) :
  provider_answered repo prs_text tr (Ok reply) ->
  json_loads (clean_reply reply) = None ->
  fst (summarize_with_ai w repo prs_text tr)
  = Ok (lit "*" ++ repo ++ lit "*:" ++ nl ++ nl ++ reply).
Proof.
  intros H J; rewrite (provider_answered_inv H); simpl.
  unfold parse_and_format; rewrite J; reflexivity.
Qed.

(** The structured reply of the round trip, bare and in its wrappers. *)
Definition features_payload : str :=
  lit' "{'categories':[{'name':'Features','items':['Added X']}]}".

Definition fenced (payload : str) : str :=
  lit "```json" ++ nl ++ payload ++ nl ++ lit "```".

Definition tagged (payload : str) : str :=
  lit "json" ++ nl ++ payload.

Definition features_document : json :=
  JObj [(lit "categories",
         JArr [JObj [(lit "name", JStr (lit "Features"));
                     (lit "items", JArr [JStr (lit "Added X")])]])].

(** The lines after the first one of the text made of that reply. *)
Definition features_body : str :=
  nl ++ bullet ++ lit " *Features*:" ++ nl
  ++ lit "  " ++ item_bullet ++ lit " Added X" ++ nl
  ++ nl ++ divider ++ nl.

Lemma features_reply_decoded (reply : str) :
  reply = features_payload \/ reply = fenced features_payload
  \/ reply = tagged features_payload ->
  json_loads (clean_reply reply) = Some features_document.
Proof. intros [-> | [-> | ->]]; vm_compute; reflexivity. Qed.

Lemma features_document_formatted (repo : str) :
  match py_get features_document (lit "categories") (JArr []) with
  | inl e => inl e
  | inr cats =>
      match py_iter cats with
      | inl e => inl e
      | inr categories =>
          match format_categories w (lit "*" ++ repo ++ lit "*" ++ nl)
                  categories with
          | inl e => inl e
          | inr s => inr (s ++ nl ++ divider ++ nl)
          end
      end
  end = inr (lit "*" ++ repo ++ lit "*" ++ nl ++ features_body).
Proof.
  cbn -[divider]; unfold nl; repeat rewrite <- app_assoc; reflexivity.
Qed.

(** A first line without a newline is the first piece of the split. *)
Lemma split_go_first_line (a rest : str) :
  ~ In newline a ->
  split_go nl 0 (a ++ newline :: rest)
  = (a, let (p, ps) := split_go nl 0 rest in p :: ps).
Proof.
  induction a as [|c a IH]; intros Hn; [reflexivity|].
  cbn [List.app split_go].
  assert (Hc : startswith nl (c :: a ++ newline :: rest) = false).
  { cbn [startswith nl]; destruct (N.eqb_spec newline c) as [E|_];
      [|reflexivity].
    exfalso; apply Hn; left; symmetry; exact E. }
  rewrite Hc, IH; [reflexivity|].
  intros Hin; apply Hn; right; exact Hin.
Qed.

Lemma split_first_line (a rest : str) :
  ~ In newline a -> split nl (a ++ newline :: rest) = a :: split nl rest.
Proof.
  intros Hn; unfold split; rewrite split_go_first_line by exact Hn.
  reflexivity.
Qed.

(** C4.  The structured reply with the one category "Features" and the
    one item "Added X", bare, inside a fence with the language tag, or
    after the language tag alone, is laid out as a text whose lines are:
    the name of the repository between emphasis markers, a category
    line with "Features", and an indented item line with "Added X",
    followed by the divider line. *)
Theorem structured_reply_is_laid_out
  (repo prs_text : str) (tr : trace) (reply : str) :
  reply = features_payload \/ reply = fenced features_payload
  \/ reply = tagged features_payload ->
  provider_answered repo prs_text tr (Ok reply) ->
  let out := lit "*" ++ repo ++ lit "*" ++ nl ++ features_body in
  fst (summarize_with_ai w repo prs_text tr) = Ok out
  /\ (~ In newline repo ->
      split nl out
      = [lit "*" ++ repo ++ lit "*";
         [];
         bullet ++ lit " *Features*:";
         lit "  " ++ item_bullet ++ lit " Added X";
         [];
         divider;
         []]).
Proof.
  intros Hreply H out; split.
  - rewrite (provider_answered_inv H); simpl.
    unfold parse_and_format.
    rewrite (features_reply_decoded Hreply), features_document_formatted.
    reflexivity.
  - intros Hn.
    assert (E : out = (lit "*" ++ repo ++ lit "*") ++ newline :: features_body)
      by (unfold out, nl; repeat rewrite <- app_assoc; reflexivity).
    rewrite E, split_first_line.
    + f_equal.
    + intros Hin; apply in_app_or in Hin; destruct Hin as [Hin|Hin];
        [destruct Hin as [Hin|[]]; discriminate|].
      apply in_app_or in Hin; destruct Hin as [Hin|Hin];
        [exact (Hn Hin)|destruct Hin as [Hin|[]]; discriminate].
Qed.

End Summarizer.

(** *** The orchestrator *)

Section Orchestrator.

Variable w : world.

(** Events of the loop over the repositories: requests to the
    source-control host and to the provider. *)
Definition gathering (ev : event) : Prop :=
  match ev with
  | Fetched _ _ _ | Asked _ _ _ => True
  | Posted _ _ _ _ _ | Wrote _ _ _ => False
  end.

Lemma summarize_gathers (repo prs_text : str) (tr : trace) :
  exists s evs,
    summarize_with_ai w repo prs_text tr = (Ok s, tr ++ evs)
    /\ Forall gathering evs.
Proof.
  destruct (nothing_to_summarize prs_text) eqn:G.
  - rewrite summarize_skips by exact G.
    exists (no_changes repo), []; rewrite app_nil_r; auto.
  - rewrite summarize_asks by exact G.
    eexists _, [_]; split; [reflexivity|]; repeat constructor.
Qed.

(** One repository: the fetch is recorded; either it raises, or a summary
    is added. *)
Lemma process_one_cases (since : Z) (repo : str) (all : list str)
      (tr : trace) :
  let tr1 := tr ++ [Fetched repo since (github w tr repo since)] in
  match github w tr repo since with
  | Raise e => process_one w since repo all tr = (Raise e, tr1)
  | Ok [] =>
      process_one w since repo all tr = (Ok (all ++ [no_changes repo]), tr1)
  | Ok (pr :: prs) =>
      exists s tr2,
        summarize_with_ai w repo (format_prs_for_summary (pr :: prs)) tr1
        = (Ok s, tr2)
        /\ process_one w since repo all tr = (Ok (all ++ [s]), tr2)
  end.
Proof.
  intros tr1; unfold process_one, bind, call.
  destruct (github w tr repo since) as [[|pr prs]|e]; try reflexivity.
  fold tr1.
  destruct (summarizer_never_raises w repo
              (format_prs_for_summary (pr :: prs)) tr1) as (s & tr2 & E).
  exists s, tr2; split; [exact E|]; rewrite E; reflexivity.
Qed.

Lemma process_repos_gathers (since : Z) (repos : list str) :
  forall (all : list str) (tr : trace),
  exists l evs,
    process_repos w since repos all tr = (Ok l, tr ++ evs)
    /\ Forall gathering evs.
Proof.
  induction repos as [|repo rest IH]; intros all tr; cbn [process_repos].
  - exists all, []; unfold ret; rewrite app_nil_r; auto.
  - destruct (truthy (strip repo)); cbn [negb]; [|apply IH].
    unfold bind at 1, try_except.
    pose proof (process_one_cases since (strip repo) all tr) as P.
    cbv zeta in P.
    destruct (github w tr (strip repo) since)
      as [[|pr prs]|e].
    + rewrite P.
      destruct (IH (all ++ [no_changes (strip repo)])
                  (tr ++ [Fetched (strip repo) since
                            (Ok [])])) as (l & evs & E & F).
      exists l, (Fetched (strip repo) since (Ok []) :: evs).
      rewrite E, <- app_assoc; split; [reflexivity|].
      constructor; [exact I|exact F].
    + destruct P as (s & tr2 & S & P); rewrite P.
      destruct (summarize_gathers (strip repo)
                  (format_prs_for_summary (pr :: prs))
                  (tr ++ [Fetched (strip repo) since
                            (Ok (pr :: prs))])) as (s' & evs1 & S' & F1).
      rewrite S in S'; inversion S'; subst.
      destruct (IH (all ++ [s'])
                  ((tr ++ [Fetched (strip repo) since
                             (Ok (pr :: prs))]) ++ evs1))
        as (l & evs & E & F).
      exists l,
        ((Fetched (strip repo) since (Ok (pr :: prs))
          :: evs1) ++ evs).
      rewrite E; split.
      * f_equal; rewrite <- !app_assoc; reflexivity.
      * apply Forall_app; split; [constructor; [exact I|exact F1]|exact F].
    + rewrite P; unfold ret.
      destruct (IH (all ++ [error_sentence (strip repo) e])
                  (tr ++ [Fetched (strip repo) since
                            (Raise e)])) as (l & evs & E & F).
      exists l,
        (Fetched (strip repo) since (Raise e) :: evs).
      rewrite E, <- app_assoc; split; [reflexivity|].
      constructor; [exact I|exact F].
Qed.

(** The post that publishes [message]. *)
Definition post_event (since : Z) (message : str) (r : result str)
  : event :=
  Posted (slack_channel w) (text_version message)
         (build_blocks message (Some (date_range w since))) false r.

Definition outcome (r : result unit) : result unit :=
  match r with Ok _ => Ok tt | Raise e => Raise e end.

Lemma bind_ok {A B} (m : M A) (k : A -> M B) (tr tr' : trace) (a : A) :
  m tr = (Ok a, tr') -> bind m k tr = k a tr'.
Proof. unfold bind; intros ->; reflexivity. Qed.

Lemma bind_raise {A B} (m : M A) (k : A -> M B) (tr tr' : trace) (e : exn) :
  m tr = (Raise e, tr') -> bind m k tr = (Raise e, tr').
Proof. unfold bind; intros ->; reflexivity. Qed.

(** The publisher posts once, and fails exactly when the post is
    rejected. *)
Lemma post_to_slack_spec (message : str) (date_range : option str)
      (tr : trace) :
  let r :=
    slack w tr (slack_channel w) (text_version message)
          (build_blocks message date_range) false in
  post_to_slack w message date_range tr
  = (match r with Ok _ => Ok tt | Raise e => Raise e end,
     tr ++ [Posted (slack_channel w) (text_version message)
                   (build_blocks message date_range) false r]).
Proof.
  unfold post_to_slack, try_except, bind, call, raise, ret; cbv zeta.
  destruct (slack w tr (slack_channel w) (text_version message)
              (build_blocks message date_range) false); reflexivity.
Qed.

(** The window is computed exactly when the look-back is a number of
    days that [timedelta] takes and the instant that many days before
    the reading of the clock is one that a [datetime] can hold; it is
    that instant. *)
Lemma window_start_computed (days_back since : Z) :
  window_start w days_back = Ok since
  <-> (-999999999 <= days_back <= 999999999
       /\ since = now_start w - days_back * microseconds_per_day
       /\ datetime_min <= since <= datetime_max)%Z.
Proof.
  unfold window_start, timedelta, datetime_sub; cbv zeta.
  set (t := (now_start w - days_back * microseconds_per_day)%Z).
  destruct (Z.ltb_spec days_back (-2147483648));
    destruct (Z.ltb_spec 2147483647 days_back);
    destruct (Z.ltb_spec days_back (-999999999));
    destruct (Z.ltb_spec 999999999 days_back);
    cbn [orb andb]; try (split; [discriminate|lia]).
  change (now_start w - days_back * microseconds_per_day)%Z with t.
  destruct (Z.leb_spec datetime_min t); destruct (Z.leb_spec t datetime_max);
    cbn [andb]; try (split; [discriminate|lia]).
  split.
  - intros E; assert (since = t) by congruence; lia.
  - intros (_ & -> & _); reflexivity.
Qed.

(** When the window cannot be computed, the run raises and does
    nothing. *)
Lemma run_without_window (repos : list str) (days_back : Z) (tr : trace)
      (e : exn) :
  window_start w days_back = Raise e ->
  generate_release_notes w repos days_back tr = (Raise e, tr).
Proof. unfold generate_release_notes; intros ->; reflexivity. Qed.

(** A run whose window is computed gathers; then it ends, or it posts
    and fails, or it posts and writes the file. *)
Lemma run_shape (repos : list str) (days_back since : Z) (tr : trace) :
  window_start w days_back = Ok since ->
  exists evs,
    Forall gathering evs
    /\ (generate_release_notes w repos days_back tr = (Ok tt, tr ++ evs)
        \/ (exists message e,
              generate_release_notes w repos days_back tr
              = (Raise e,
                 tr ++ evs ++ [post_event since message (Raise e)]))
        \/ (exists message ts r,
              generate_release_notes w repos days_back tr
              = (outcome r,
                 tr ++ evs ++ [post_event since message (Ok ts);
                               Wrote output_path message r]))).
Proof.
  unfold generate_release_notes; intros ->.
  destruct repos as [|repo rest].
  { exists []; split; [constructor|left]; unfold ret; now rewrite app_nil_r. }
  destruct (process_repos_gathers since (repo :: rest) [] tr)
    as (l & evs & E & F).
  exists evs; split; [exact F|].
  rewrite (@bind_ok _ _ _ _ _ _ _ E).
  destruct l as [|s l]; [left; reflexivity|right].
  set (message := join (nl ++ nl) (s :: l)).
  pose proof (post_to_slack_spec message (Some (date_range w since))
                                 (tr ++ evs)) as P.
  cbv zeta in P; fold (post_event since message) in P.
  destruct (slack w (tr ++ evs) (slack_channel w) (text_version message)
              (build_blocks message (Some (date_range w since))) false)
    as [ts|e].
  - right; exists message, ts.
    rewrite (@bind_ok _ _ _ _ _ _ _ P).
    unfold bind, call, ret; unfold post_event.
    match goal with
    | |- context [filesystem w ?t output_path message] =>
        destruct (filesystem w t output_path message) as [[]|e]
    end.
    + exists (Ok tt); cbn [outcome]; rewrite <- !app_assoc; reflexivity.
    + exists (Raise e); cbn [outcome]; rewrite <- !app_assoc; reflexivity.
  - left; exists message, e.
    rewrite (@bind_raise _ _ _ _ _ _ _ P), <- app_assoc; reflexivity.
Qed.

Lemma gathering_not_posted evs ch text blocks u r :
  Forall gathering evs -> In (Posted ch text blocks u r) evs -> False.
Proof.
  intros F Hin; rewrite Forall_forall in F; exact (F _ Hin).
Qed.

Lemma gathering_not_wrote evs p c r :
  Forall gathering evs -> In (Wrote p c r) evs -> False.
Proof.
  intros F Hin; rewrite Forall_forall in F; exact (F _ Hin).
Qed.

(** The claim C1 as the specification words it: whenever the final post
    is rejected, a write of the artifact file has been attempted. *)
Definition artifact_attempted_on_rejection
           (repos : list str) (days_back : Z) (tr : trace) : Prop :=
  forall ch text blocks u e,
    In (Posted ch text blocks u (Raise e))
       (new_events (generate_release_notes w repos days_back) tr) ->
    exists path content r,
      In (Wrote path content r)
         (new_events (generate_release_notes w repos days_back) tr).

(** C1, amended.  When the chat platform rejects the final post, the run
    ends in failure with that rejection, and no write of the artifact
    file is attempted; a write is attempted only after a post that
    succeeded. *)
Theorem rejected_post_fails_without_artifact
  (repos : list str) (days_back : Z) (tr : trace) :
  let events := new_events (generate_release_notes w repos days_back) tr in
  (forall ch text blocks u e,
      In (Posted ch text blocks u (Raise e)) events ->
      fst (generate_release_notes w repos days_back tr) = Raise e
      /\ forall path content r, ~ In (Wrote path content r) events)
  /\ (forall path content r,
         In (Wrote path content r) events ->
         exists ch text blocks u ts,
           In (Posted ch text blocks u (Ok ts)) events).
Proof.
  intros events; unfold events, new_events.
  destruct (window_start w days_back) as [since|e0] eqn:W.
  2:{ rewrite (@run_without_window repos _ tr _ W); cbn [fst snd].
      rewrite skipn_all; split; intros; contradiction. }
  destruct (@run_shape repos _ _ tr W)
    as (evs & F & [E | [(m & e' & E) | (m & ts & r' & E)]]);
    rewrite E; cbn [fst snd]; rewrite skipn_length_app; split.
  - intros ch text blocks u e Hin.
    exfalso; eapply gathering_not_posted; eassumption.
  - intros p c r Hin; exfalso; eapply gathering_not_wrote; eassumption.
  - intros ch text blocks u e Hin; apply in_app_or in Hin.
    destruct Hin as [Hin|[Hin|[]]];
      [exfalso; eapply gathering_not_posted; eassumption|].
    inversion Hin; subst; split; [reflexivity|].
    intros p c r Hw; apply in_app_or in Hw.
    destruct Hw as [Hw|[Hw|[]]];
      [eapply gathering_not_wrote; eassumption|discriminate].
  - intros p c r Hw; apply in_app_or in Hw.
    destruct Hw as [Hw|[Hw|[]]];
      [exfalso; eapply gathering_not_wrote; eassumption|discriminate].
  - intros ch text blocks u e Hin; apply in_app_or in Hin.
    destruct Hin as [Hin|[Hin|[Hin|[]]]];
      [exfalso; eapply gathering_not_posted; eassumption|discriminate|discriminate].
  - intros p c r Hw.
    exists (slack_channel w), (text_version m),
      (build_blocks m (Some (date_range w since))), false, ts.
    apply in_or_app; right; left; reflexivity.
Qed.

(** C2.  For the list of the two repositories [A] and [B], in a run
    whose window is computed, when the fetch for [A] raises and the
    fetch for [B] returns, the loop ends with exactly two summaries: the
    sentence that reports the error for [A], with its name and the
    message of the exception, and the summary of [B] (the "no changes"
    sentence when [B] has no pull request, the text of the summarizer
    otherwise); and the run goes on to post the two, joined by a blank
    line. *)
Theorem failing_repository_is_isolated
  (A B : str) (days_back since : Z) (tr : trace) (e : exn)
  (prs : list PullRequest) :
  let a := strip A in
  let b := strip B in
  let tr1 := tr ++ [Fetched a since (Raise e)] in
  let tr2 := tr1 ++ [Fetched b since (Ok prs)] in
  a <> [] -> b <> [] ->
  window_start w days_back = Ok since ->
  github w tr a since = Raise e ->
  github w tr1 b since = Ok prs ->
  exists summary tr',
    process_repos w since [A; B] [] tr
    = (Ok [lit "*" ++ a ++ lit "*: Error processing repository - "
           ++ message e;
           summary], tr')
    /\ match prs with
       | [] => summary = no_changes b
       | _ :: _ =>
           fst (summarize_with_ai w b (format_prs_for_summary prs) tr2)
           = Ok summary
       end
    /\ exists r,
        In (post_event since
              (join (nl ++ nl) [error_sentence a e; summary]) r)
           (new_events (generate_release_notes w [A; B] days_back) tr).
Proof.
  intros a b tr1 tr2 Ha Hb W GA GB.
  apply truthy_true in Ha, Hb.
  assert (Loop : exists summary tr',
             process_repos w since [A; B] [] tr
             = (Ok [error_sentence a e; summary], tr')
             /\ (exists evs, tr' = tr ++ evs)
             /\ match prs with
                | [] => summary = no_changes b
                | _ :: _ =>
                    fst (summarize_with_ai w b (format_prs_for_summary prs) tr2)
                    = Ok summary
                end).
  { cbn [process_repos]; fold a b; rewrite Ha, Hb; cbn [negb].
    pose proof (process_one_cases since a [] tr) as PA.
    cbv zeta in PA; rewrite GA in PA; fold tr1 in PA.
    assert (TA : try_except (process_one w since a [])
                   (fun e => ret ([] ++ [error_sentence a e])) tr
                 = (Ok [error_sentence a e], tr1))
      by (unfold try_except; rewrite PA; reflexivity).
    rewrite (@bind_ok _ _ _ _ _ _ _ TA).
    pose proof (process_one_cases since b [error_sentence a e] tr1) as PB.
    cbv zeta in PB; rewrite GB in PB; fold tr2 in PB.
    destruct prs as [|pr prs'].
    - exists (no_changes b), tr2.
      assert (TB : try_except (process_one w since b [error_sentence a e])
                     (fun e0 => ret ([error_sentence a e]
                                     ++ [error_sentence b e0])) tr1
                   = (Ok [error_sentence a e; no_changes b], tr2))
        by (unfold try_except; rewrite PB; reflexivity).
      rewrite (@bind_ok _ _ _ _ _ _ _ TB).
      split; [reflexivity|split; [|reflexivity]].
      exists [Fetched a since (Raise e); Fetched b since (Ok [])].
      unfold tr2, tr1; rewrite <- app_assoc; reflexivity.
    - destruct PB as (s & tr3 & S & PB).
      exists s, tr3.
      assert (TB : try_except (process_one w since b [error_sentence a e])
                     (fun e0 => ret ([error_sentence a e]
                                     ++ [error_sentence b e0])) tr1
                   = (Ok [error_sentence a e; s], tr3))
        by (unfold try_except; rewrite PB; reflexivity).
      rewrite (@bind_ok _ _ _ _ _ _ _ TB).
      split; [reflexivity|split; [|rewrite S; reflexivity]].
      destruct (summarize_gathers b (format_prs_for_summary (pr :: prs'))
                  tr2) as (s' & evs & S' & _).
      rewrite S in S'; inversion S'; subst.
      exists ([Fetched a since (Raise e); Fetched b since (Ok (pr :: prs'))]
              ++ evs).
      unfold tr2, tr1; rewrite <- !app_assoc; reflexivity. }
  destruct Loop as (summary & tr' & L & (evs & ->) & Hs).
  exists summary, (tr ++ evs); split; [exact L|split; [exact Hs|]].
  set (msg := join (nl ++ nl) [error_sentence a e; summary]).
  exists (slack w (tr ++ evs) (slack_channel w) (text_version msg)
            (build_blocks msg (Some (date_range w since))) false).
  unfold new_events, generate_release_notes; rewrite W.
  rewrite (@bind_ok _ _ _ _ _ _ _ L).
  pose proof (post_to_slack_spec msg (Some (date_range w since))
                                 (tr ++ evs)) as P.
  cbv zeta in P; fold (post_event since msg) in P.
  fold msg.
  destruct (slack w (tr ++ evs) (slack_channel w) (text_version msg)
              (build_blocks msg (Some (date_range w since))) false)
    as [ts|e'].
  - rewrite (@bind_ok _ _ _ _ _ _ _ P).
    unfold bind, call, ret.
    match goal with
    | |- context [filesystem w ?t output_path msg] =>
        destruct (filesystem w t output_path msg) as [[]|e']
    end; cbn [snd]; rewrite <- !app_assoc, skipn_length_app;
      apply in_or_app; right; left; reflexivity.
  - rewrite (@bind_raise _ _ _ _ _ _ _ P); cbn [snd].
    rewrite <- app_assoc, skipn_length_app.
    apply in_or_app; right; left; reflexivity.
Qed.

End Orchestrator.

(** *** Splitting, joining and replacing *)

Section SplitJoin.

Variable sep : str.
Hypothesis sep_nonempty : sep <> [].

(** Passing over the rest of a matched separator. *)
Lemma split_go_skip (u s : str) :
  split_go sep (List.length u) (u ++ s) = split_go sep 0 s.
Proof. induction u as [|c u IH]; [reflexivity|exact IH]. Qed.

Lemma join_cons_first (c : N) (p : str) (ps : list str) :
  join sep ((c :: p) :: ps) = c :: join sep (p :: ps).
Proof. destruct ps; reflexivity. Qed.

Lemma split_go_join_bounded (n : nat) (s : str) :
  List.length s <= n ->
  let (p, ps) := split_go sep 0 s in join sep (p :: ps) = s.
Proof.
  revert s; induction n as [|n IH]; intros [|c t] Hlen; simpl in Hlen;
    try reflexivity; try lia.
  cbn [split_go].
  destruct (startswith sep (c :: t)) eqn:E.
  - apply startswith_spec in E; destruct E as [r E].
    assert (T : t = tl sep ++ r /\ Nat.pred (List.length sep)
                                   = List.length (tl sep)).
    { destruct sep as [|c' sep']; [contradiction|].
      injection E as _ ->; split; reflexivity. }
    destruct T as [T ->]; rewrite E, T, split_go_skip.
    specialize (IH r); destruct (split_go sep 0 r) as [p ps].
    change (join sep ([] :: p :: ps)) with (sep ++ join sep (p :: ps)).
    rewrite IH; [reflexivity|].
    rewrite T, length_app in Hlen; lia.
  - specialize (IH t); destruct (split_go sep 0 t) as [p ps].
    rewrite join_cons_first, IH; [reflexivity|lia].
Qed.

(** Joining the pieces of a split with the separator gives the text
    back. *)
Lemma join_split (s : str) : join sep (split sep s) = s.
Proof.
  unfold split.
  pose proof (@split_go_join_bounded (List.length s) s (le_n _)) as H.
  destruct (split_go sep 0 s) as [p ps]; exact H.
Qed.

(** A piece of a joined text lies between separators, or at an end. *)
Lemma join_middle (before after : list str) (piece : str) :
  exists l r,
    join sep (before ++ piece :: after) = l ++ piece ++ r
    /\ (l = [] \/ exists l0, l = l0 ++ sep)
    /\ (r = [] \/ exists r0, r = sep ++ r0).
Proof.
  induction before as [|a before IH].
  - destruct after as [|q after].
    + exists [], []; cbn; rewrite app_nil_r; auto.
    + exists [], (sep ++ join sep (q :: after)); cbn [List.app join].
      split; [reflexivity|split; [left; reflexivity|right; eauto]].
  - destruct IH as (l & r & E & Hl & Hr).
    exists (a ++ sep ++ l), r.
    assert (J : join sep ((a :: before) ++ piece :: after)
                = a ++ sep ++ join sep (before ++ piece :: after))
      by (destruct before; reflexivity).
    rewrite J, E, <- !app_assoc; split; [reflexivity|split; [right|exact Hr]].
    destruct Hl as [->|[l0 ->]].
    + exists a; now rewrite app_nil_r.
    + exists (a ++ sep ++ l0); now rewrite <- !app_assoc.
Qed.

End SplitJoin.

Section StripFacts.

Variable p : N -> bool.

Lemma lstrip_by_decompose (s : str) :
  exists ws, s = ws ++ lstrip_by p s /\ Forall (fun c => p c = true) ws.
Proof.
  induction s as [|c t (ws & E & F)]; [exists []; auto|].
  cbn [lstrip_by]; destruct (p c) eqn:Pc.
  - exists (c :: ws); split; [cbn; f_equal; exact E|constructor; assumption].
  - exists []; auto.
Qed.

Lemma rstrip_by_decompose (s : str) :
  exists ws, s = rstrip_by p s ++ ws /\ Forall (fun c => p c = true) ws.
Proof.
  unfold rstrip_by.
  destruct (lstrip_by_decompose (rev s)) as (ws & E & F).
  exists (rev ws); split.
  - rewrite <- rev_app_distr, <- E, rev_involutive; reflexivity.
  - apply Forall_rev; exact F.
Qed.

(** A text is its stripped text between two runs of stripped code
    points. *)
Lemma strip_by_decompose (s : str) :
  exists l r,
    s = l ++ strip_by p s ++ r
    /\ Forall (fun c => p c = true) l /\ Forall (fun c => p c = true) r.
Proof.
  unfold strip_by.
  destruct (lstrip_by_decompose s) as (l & E & Fl).
  destruct (rstrip_by_decompose (lstrip_by p s)) as (r & E' & Fr).
  exists l, r; split; [|auto].
  rewrite <- E'; exact E.
Qed.

End StripFacts.

Section ReplaceFacts.

Variables old new : str.

(** No occurrence of [old] begins in [x] and ends in [y]. *)
Definition no_straddle (x y : str) : Prop :=
  forall x1 x2, x = x1 ++ x2 -> x2 <> [] ->
                startswith old (x2 ++ y) = true -> startswith old x2 = true.

Lemma startswith_app_l (p x r : str) :
  startswith p x = true -> startswith p (x ++ r) = true.
Proof.
  intros H; apply startswith_spec in H; destruct H as [q ->].
  rewrite <- app_assoc; apply startswith_app.
Qed.

Lemma replace_go_app (x y : str) (k : nat) :
  no_straddle x y -> k <= List.length x ->
  replace_go old new k (x ++ y)
  = replace_go old new k x ++ replace_go old new 0 y.
Proof.
  revert k; induction x as [|c x IH]; intros k NS Hk.
  - simpl in Hk; assert (k = 0) by lia; subst; reflexivity.
  - assert (NS' : no_straddle x y).
    { intros x1 x2 E; apply (NS (c :: x1) x2); rewrite E; reflexivity. }
    cbn [List.app replace_go]; destruct k as [|k].
    + destruct (startswith old (c :: x ++ y)) eqn:E1.
      * assert (E2 : startswith old (c :: x) = true)
          by (apply (NS [] (c :: x)); [reflexivity|discriminate|exact E1]).
        rewrite E2, IH, app_assoc; [reflexivity|exact NS'|].
        apply startswith_spec in E2; destruct E2 as [r E2].
        apply (f_equal (@List.length N)) in E2.
        rewrite length_app in E2; simpl in E2; lia.
      * destruct (startswith old (c :: x)) eqn:E2.
        { apply (startswith_app_l _ _ y) in E2; simpl in E2; congruence. }
        rewrite IH; [reflexivity|exact NS'|lia].
    + apply IH; [exact NS'|simpl in Hk; lia].
Qed.

(** [replace] goes through a concatenation that no occurrence
    straddles. *)
Lemma replace_app (x y : str) :
  no_straddle x y ->
  replace old new (x ++ y) = replace old new x ++ replace old new y.
Proof. intros NS; apply replace_go_app; [exact NS|lia]. Qed.

Lemma straddle_head (x2 y : str) :
  forall p, x2 <> [] ->
            startswith p (x2 ++ y) = true -> startswith p x2 = false ->
            exists c y', y = c :: y' /\ In c (tl p).
Proof.
  induction x2 as [|a t IH]; intros p Hne H1 H2; [contradiction|].
  destruct p as [|o p']; [discriminate|].
  cbn [List.app startswith] in H1, H2.
  apply andb_true_iff in H1; destruct H1 as [Ho H1].
  rewrite Ho in H2; cbn [andb] in H2.
  destruct t as [|b t'].
  - destruct p' as [|o' p'']; [discriminate|].
    destruct y as [|c y']; [discriminate|].
    cbn [List.app startswith] in H1.
    apply andb_true_iff in H1; destruct H1 as [Hc _].
    apply N.eqb_eq in Hc; subst.
    exists c, y'; split; [reflexivity|left; reflexivity].
  - destruct (IH p') as (c & y' & E & Hin); [discriminate|exact H1|exact H2|].
    exists c, y'; split; [exact E|].
    destruct p' as [|o' p'']; [destruct Hin|right; exact Hin].
Qed.

(** Nothing straddles when [y] begins with a code point that [old] has
    only in its first place, if at all. *)
Lemma no_straddle_head (x y : str) :
  (y = [] \/ exists c y', y = c :: y' /\ ~ In c (tl old)) ->
  no_straddle x y.
Proof.
  intros Hy x1 x2 _ Hne H1.
  destruct (startswith old x2) eqn:H2; [reflexivity|].
  destruct (@straddle_head x2 y old Hne H1 H2) as (c & y' & E & Hin).
  destruct Hy as [->|(c' & y'' & -> & Hn)]; [discriminate|].
  injection E as <- <-; contradiction.
Qed.

Lemma straddle_last (x2 y : str) :
  forall p x2' c, x2 = x2' ++ [c] ->
                  startswith p (x2 ++ y) = true -> startswith p x2 = false ->
                  In c (removelast p).
Proof.
  induction x2 as [|a t IH]; intros p x2' c E H1 H2;
    [destruct x2'; discriminate|].
  destruct p as [|o p']; [discriminate|].
  cbn [List.app startswith] in H1, H2.
  apply andb_true_iff in H1; destruct H1 as [Ho H1].
  rewrite Ho in H2; cbn [andb] in H2.
  apply N.eqb_eq in Ho; subst o.
  assert (Hp : p' <> []) by (intros ->; destruct t; discriminate).
  assert (R : removelast (a :: p') = a :: removelast p')
    by (destruct p'; [contradiction|reflexivity]).
  rewrite R.
  destruct x2' as [|a' x2''].
  - injection E as -> ->; left; reflexivity.
  - injection E as -> ->; right.
    eapply IH; [reflexivity|exact H1|exact H2].
Qed.

(** Nothing straddles when [x] ends with a code point that [old] has only
    in its last place, if at all. *)
Lemma no_straddle_last (x y : str) :
  (x = [] \/ exists x' c, x = x' ++ [c] /\ ~ In c (removelast old)) ->
  no_straddle x y.
Proof.
  intros Hx x1 x2 E Hne H1.
  destruct (startswith old x2) eqn:H2; [reflexivity|].
  destruct Hx as [->|(x' & c & -> & Hn)];
    [destruct x1; [simpl in E; subst; contradiction|discriminate]|].
  destruct (exists_last Hne) as (x2' & c' & E2).
  assert (c' = c).
  { rewrite E2, app_assoc in E; apply app_inj_tail in E; destruct E; auto. }
  subst c'; exfalso; apply Hn.
  eapply straddle_last; eassumption.
Qed.

(** A code point that does not begin [old] is kept. *)
Lemma replace_cons_other (c o : N) (p' s : str) :
  old = o :: p' -> o <> c ->
  replace old new (c :: s) = c :: replace old new s.
Proof.
  intros E Hc; unfold replace; cbn [replace_go]; rewrite E.
  cbn [startswith]; destruct (N.eqb_spec o c); [contradiction|reflexivity].
Qed.

End ReplaceFacts.

(** *** The plain-text rendering *)

Section PlainText.

Local Open Scope N_scope.

(** What can stand before a section in a blob: nothing, white space, or
    the end of a divider line. *)
Definition left_closed (l : str) : Prop :=
  l = []
  \/ (exists l0 c, l = l0 ++ [c] /\ isspace c = true)
  \/ (exists l0, l = l0 ++ [8221; 8364]).

(** What can stand after a section: nothing, white space, or the start
    of a divider line. *)
Definition right_closed (r : str) : Prop :=
  r = []
  \/ (exists c r0, r = c :: r0 /\ isspace c = true)
  \/ (exists r0, r = 226 :: 8221 :: r0).

(** A marker that neither white space nor the ends of a divider line can
    complete. *)
Record plain_marker (p : str) : Prop := {
  pm_head :
    exists o p', p = o :: p' /\ o <> 8364 /\ o <> 8221
                 /\ (forall c, isspace c = true -> o <> c)
                 /\ (o = 226 -> exists q p'', p' = q :: p'' /\ q <> 8221);
  pm_tail_space : forall c, isspace c = true -> ~ In c (tl p);
  pm_tail_8221 : ~ In 8221 (tl p);
  pm_tail_226 : ~ In 226 (tl p)
}.

Ltac not_space :=
  match goal with
  | H : isspace ?c = true |- _ =>
      intros; subst; vm_compute in H; discriminate
  end.

Ltac plain_marker_tac :=
  constructor;
  [ eexists _, _; split; [reflexivity|];
    split; [discriminate|split; [discriminate|split]];
    [ intros c Hc E; subst; vm_compute in Hc; discriminate
    | intros E;
      first [ discriminate
            | eexists _, _; split; [reflexivity|discriminate] ] ]
  | intros c Hc Hin; cbn in Hin;
    repeat match type of Hin with
           | _ \/ _ =>
               destruct Hin as [Hin|Hin];
               [subst; vm_compute in Hc; discriminate|]
           end; exact Hin
  | intros Hin; cbn in Hin;
    repeat match type of Hin with
           | _ \/ _ => destruct Hin as [Hin|Hin]; [discriminate|]
           end; exact Hin
  | intros Hin; cbn in Hin;
    repeat match type of Hin with
           | _ \/ _ => destruct Hin as [Hin|Hin]; [discriminate|]
           end; exact Hin ].

Lemma star_plain : plain_marker (lit "*").
Proof. plain_marker_tac. Qed.

Lemma bullet_plain : plain_marker bullet.
Proof. plain_marker_tac. Qed.

Lemma item_bullet_plain : plain_marker item_bullet.
Proof. plain_marker_tac. Qed.

Lemma space_not_8221 (c : N) : isspace c = true -> c <> 8221.
Proof. intros H ->; vm_compute in H; discriminate. Qed.

Lemma space_not_8364 (c : N) : isspace c = true -> c <> 8364.
Proof. intros H ->; vm_compute in H; discriminate. Qed.

Lemma space_not_226 (c : N) : isspace c = true -> c <> 226.
Proof. intros H ->; vm_compute in H; discriminate. Qed.

(** Replacing a plain marker leaves what stands before a section as it
    is closed, and does not reach into the section. *)
Lemma replace_left_closed (p new l : str) :
  plain_marker p -> left_closed l ->
  exists l', left_closed l'
             /\ forall x, replace p new (l ++ x) = l' ++ replace p new x.
Proof.
  intros [(o & p' & Ep & H1 & H2 & H3 & _) Hs H8 _] [->|[(l0 & c & -> & Hc)|(l0 & ->)]].
  - exists []; split; [left; reflexivity|reflexivity].
  - exists (replace p new l0 ++ [c]); split; [right; left; eauto|].
    intros x; rewrite <- !app_assoc, replace_app.
    + cbn [List.app]; rewrite (replace_cons_other new x Ep); [reflexivity|].
      apply H3; exact Hc.
    + apply no_straddle_head; right; exists c, x; split; [reflexivity|].
      apply Hs; exact Hc.
  - exists (replace p new l0 ++ [8221; 8364]); split; [right; right; eauto|].
    intros x; rewrite <- !app_assoc, replace_app.
    + cbn [List.app].
      rewrite (replace_cons_other new _ Ep), (replace_cons_other new _ Ep);
        [reflexivity|exact H1|exact H2].
    + apply no_straddle_head; right; exists 8221, (8364 :: x).
      split; [reflexivity|exact H8].
Qed.

(** The same for what stands after a section. *)
Lemma replace_right_closed (p new r : str) :
  plain_marker p -> right_closed r ->
  exists r', right_closed r'
             /\ forall x, replace p new (x ++ r) = replace p new x ++ r'.
Proof.
  intros [(o & p' & Ep & H1 & H2 & H3 & H4) Hs H8 H6]
         [->|[(c & r0 & -> & Hc)|(r0 & ->)]].
  - exists []; split; [left; reflexivity|].
    intros x; now rewrite !app_nil_r.
  - exists (c :: replace p new r0); split; [right; left; eauto|].
    intros x; rewrite replace_app.
    + rewrite (replace_cons_other new r0 Ep); [reflexivity|].
      apply H3; exact Hc.
    + apply no_straddle_head; right; exists c, r0; split; [reflexivity|].
      apply Hs; exact Hc.
  - exists (226 :: 8221 :: replace p new r0); split; [right; right; eauto|].
    intros x; rewrite replace_app.
    + f_equal.
      destruct (N.eq_dec o 226) as [->|Ho].
      * destruct (H4 eq_refl) as (q & p'' & -> & Hq).
        unfold replace; cbn [replace_go]; rewrite Ep; cbn [startswith].
        rewrite N.eqb_refl; destruct (N.eqb_spec q 8221) as [|_];
          [contradiction|].
        cbn [andb]; reflexivity.
      * rewrite (replace_cons_other new _ Ep) by exact Ho.
        rewrite (replace_cons_other new _ Ep) by exact H2; reflexivity.
    + apply no_straddle_head; right; exists 226, (8221 :: r0).
      split; [reflexivity|exact H6].
Qed.

(** The unit of the divider line cannot reach out of a section
    either. *)
Lemma replace_divider_unit_between (new l s r : str) :
  left_closed l -> right_closed r ->
  replace divider_unit new (l ++ s ++ r)
  = replace divider_unit new l ++ replace divider_unit new s
    ++ replace divider_unit new r.
Proof.
  intros Hl Hr; rewrite replace_app, replace_app; [reflexivity| |].
  - apply no_straddle_head.
    destruct Hr as [->|[(c & r0 & -> & Hc)|(r0 & ->)]]; [left; reflexivity| |];
      right; eexists _, _; (split; [reflexivity|]); cbn;
      intros [E|[E|[]]]; try discriminate;
      [ symmetry in E; exact (space_not_8221 Hc E)
      | symmetry in E; exact (space_not_8364 Hc E) ].
  - apply no_straddle_last.
    destruct Hl as [->|[(l0 & c & -> & Hc)|(l0 & ->)]]; [left; reflexivity| |];
      right.
    + exists l0, c; split; [reflexivity|]; cbn.
      intros [E|[E|[]]];
        [ symmetry in E; exact (space_not_226 Hc E)
        | symmetry in E; exact (space_not_8221 Hc E) ].
    + exists (l0 ++ [8221]), 8364; split; [now rewrite <- app_assoc|]; cbn.
      intros [E|[E|[]]]; discriminate.
Qed.

(** The plain text of a blob holds the plain text of every part that is
    closed off on both sides. *)
Lemma text_version_between (l s r : str) :
  left_closed l -> right_closed r ->
  exists a b, text_version (l ++ s ++ r) = a ++ text_version s ++ b.
Proof.
  intros Hl Hr; unfold text_version.
  destruct (replace_left_closed [] star_plain Hl) as (l1 & Hl1 & E1).
  destruct (replace_right_closed [] star_plain Hr) as (r1 & Hr1 & F1).
  rewrite E1, F1.
  destruct (replace_left_closed (lit "-") bullet_plain Hl1) as (l2 & Hl2 & E2).
  destruct (replace_right_closed (lit "-") bullet_plain Hr1)
    as (r2 & Hr2 & F2).
  rewrite E2, F2.
  destruct (replace_left_closed (lit "  -") item_bullet_plain Hl2)
    as (l3 & Hl3 & E3).
  destruct (replace_right_closed (lit "  -") item_bullet_plain Hr2)
    as (r3 & Hr3 & F3).
  rewrite E3, F3.
  rewrite (replace_divider_unit_between (lit "-") _ Hl3 Hr3).
  eauto.
Qed.

(** The plain-text rendering in its own terms: the emphasis markers are
    left out, and in what remains, read from the left, each marker of a
    category, of an item or of the divider line becomes a hyphen (after
    two spaces for an item).  [skip] counts the code points of a marker
    that are still to be passed over. *)
Definition without_stars (s : str) : str :=
  filter (fun c => negb (c =? star)) s.

Fixpoint hyphenate_go (skip : nat) (s : str) : str :=
  match s with
  | [] => []
  | c :: t =>
      match skip with
      | S k => hyphenate_go k t
      | O =>
          if startswith bullet s then lit "-" ++ hyphenate_go 2 t
          else if startswith item_bullet s then lit "  -" ++ hyphenate_go 2 t
          else if startswith divider_unit s then lit "-" ++ hyphenate_go 2 t
          else c :: hyphenate_go 0 t
      end
  end.

Definition plain_rendering (s : str) : str :=
  hyphenate_go 0 (without_stars s).

Lemma replace_star (s : str) : replace (lit "*") [] s = without_stars s.
Proof.
  unfold replace; induction s as [|c t IH]; [reflexivity|].
  cbn [replace_go without_stars filter]; change (lit "*") with [star].
  cbn [startswith List.length Nat.pred List.app].
  rewrite (N.eqb_sym c star).
  destruct (star =? c); cbn [andb negb]; [exact IH|].
  f_equal; exact IH.
Qed.

(** A replacement changes nothing to whether a text begins with a
    pattern that holds neither the first code point replaced nor the
    first one put in its place. *)
Lemma startswith_replace (old new p : str) (o n0 : N) (old' new' : str) :
  old = o :: old' -> new = n0 :: new' ->
  ~ In o p -> ~ In n0 p ->
  forall t, startswith p (replace old new t) = startswith p t.
Proof.
  intros Eo En; induction p as [|x p IH]; intros Ho Hn t.
  { destruct (replace old new t), t; reflexivity. }
  destruct t as [|c t]; [reflexivity|].
  unfold replace; cbn [replace_go].
  destruct (startswith old (c :: t)) eqn:S.
  - rewrite En; cbn [List.app startswith].
    rewrite Eo in S; cbn [startswith] in S.
    apply andb_true_iff in S; destruct S as [Hc _].
    apply N.eqb_eq in Hc; subst c.
    destruct (N.eqb_spec x n0) as [->|_];
      [exfalso; apply Hn; left; reflexivity|].
    destruct (N.eqb_spec x o) as [->|_];
      [exfalso; apply Ho; left; reflexivity|reflexivity].
  - cbn [startswith]; fold (replace old new t); rewrite IH; [reflexivity| |].
    + intros H; apply Ho; right; exact H.
    + intros H; apply Hn; right; exact H.
Qed.

Lemma replace_cons_no_match (old new : str) (c : N) (t : str) :
  startswith old (c :: t) = false ->
  replace old new (c :: t) = c :: replace old new t.
Proof. unfold replace; cbn [replace_go]; intros ->; reflexivity. Qed.

(** The three replacements by hyphens, one after the other. *)
Definition hyphens (t : str) : str :=
  replace divider_unit (lit "-")
    (replace item_bullet (lit "  -") (replace bullet (lit "-") t)).

Lemma hyphens_bullet (t : str) :
  hyphens (bullet ++ t) = lit "-" ++ hyphens t.
Proof.
  unfold hyphens.
  change (replace bullet (lit "-") (bullet ++ t))
    with (45 :: replace bullet (lit "-") t).
  rewrite (@replace_cons_other item_bullet (lit "  -") 45 226 [8212; 166]);
    [|reflexivity|discriminate].
  rewrite (@replace_cons_other divider_unit (lit "-") 45 226 [8221; 8364]);
    [reflexivity|reflexivity|discriminate].
Qed.

Lemma hyphens_item_bullet (t : str) :
  hyphens (item_bullet ++ t) = lit "  -" ++ hyphens t.
Proof.
  unfold hyphens.
  change (replace bullet (lit "-") (item_bullet ++ t))
    with (item_bullet ++ replace bullet (lit "-") t).
  change (replace item_bullet (lit "  -")
            (item_bullet ++ replace bullet (lit "-") t))
    with (32 :: 32 :: 45
          :: replace item_bullet (lit "  -") (replace bullet (lit "-") t)).
  rewrite !(@replace_cons_other divider_unit (lit "-") _ 226 [8221; 8364]);
    try reflexivity; discriminate.
Qed.

Lemma hyphens_divider_unit (t : str) :
  hyphens (divider_unit ++ t) = lit "-" ++ hyphens t.
Proof.
  unfold hyphens.
  change (replace bullet (lit "-") (divider_unit ++ t))
    with (divider_unit ++ replace bullet (lit "-") t).
  change (replace item_bullet (lit "  -")
            (divider_unit ++ replace bullet (lit "-") t))
    with (divider_unit
          ++ replace item_bullet (lit "  -") (replace bullet (lit "-") t)).
  reflexivity.
Qed.

Lemma startswith_cons (x c : N) (p t : str) :
  startswith (x :: p) (c :: t) = (x =? c) && startswith p t.
Proof. reflexivity. Qed.

Lemma hyphens_other (c : N) (t : str) :
  startswith bullet (c :: t) = false ->
  startswith item_bullet (c :: t) = false ->
  startswith divider_unit (c :: t) = false ->
  hyphens (c :: t) = c :: hyphens t.
Proof.
  intros Hb Hi Hd; unfold hyphens.
  assert (Si : forall t',
             startswith [8212; 166] (replace bullet (lit "-") t')
             = startswith [8212; 166] t').
  { apply (@startswith_replace bullet (lit "-") [8212; 166] 226 45
             [8364; 162] []); try reflexivity;
      intros [E|[E|[]]]; discriminate. }
  assert (Sd : forall t',
             startswith [8221; 8364] (replace bullet (lit "-") t')
             = startswith [8221; 8364] t').
  { apply (@startswith_replace bullet (lit "-") [8221; 8364] 226 45
             [8364; 162] []); try reflexivity;
      intros [E|[E|[]]]; discriminate. }
  assert (Sd' : forall t',
             startswith [8221; 8364] (replace item_bullet (lit "  -") t')
             = startswith [8221; 8364] t').
  { apply (@startswith_replace item_bullet (lit "  -") [8221; 8364] 226 32
             [8212; 166] [32; 45]); try reflexivity;
      intros [E|[E|[]]]; discriminate. }
  rewrite (@replace_cons_no_match bullet (lit "-") c t Hb).
  unfold item_bullet in Hi; rewrite startswith_cons in Hi.
  unfold divider_unit in Hd; rewrite startswith_cons in Hd.
  rewrite (@replace_cons_no_match item_bullet (lit "  -") c);
    [|unfold item_bullet; rewrite startswith_cons, Si; exact Hi].
  rewrite (@replace_cons_no_match divider_unit (lit "-") c);
    [reflexivity|].
  unfold divider_unit; rewrite startswith_cons, Sd', Sd; exact Hd.
Qed.

Lemma hyphens_hyphenate_bounded (n : nat) (t : str) :
  (List.length t <= n)%nat -> hyphens t = hyphenate_go 0 t.
Proof.
  revert t; induction n as [|n IH]; intros [|c t] Hlen; simpl in Hlen;
    try reflexivity; try lia.
  cbn [hyphenate_go].
  destruct (startswith bullet (c :: t)) eqn:Hb.
  { apply startswith_spec in Hb; destruct Hb as [r E].
    injection E as -> ->; simpl in Hlen.
    change (226 :: 8364 :: 162 :: r) with (bullet ++ r).
    rewrite hyphens_bullet; cbn [List.app hyphenate_go].
    rewrite IH by lia; reflexivity. }
  destruct (startswith item_bullet (c :: t)) eqn:Hi.
  { apply startswith_spec in Hi; destruct Hi as [r E].
    injection E as -> ->; simpl in Hlen.
    change (226 :: 8212 :: 166 :: r) with (item_bullet ++ r).
    rewrite hyphens_item_bullet; cbn [List.app hyphenate_go].
    rewrite IH by lia; reflexivity. }
  destruct (startswith divider_unit (c :: t)) eqn:Hd.
  { apply startswith_spec in Hd; destruct Hd as [r E].
    injection E as -> ->; simpl in Hlen.
    change (226 :: 8221 :: 8364 :: r) with (divider_unit ++ r).
    rewrite hyphens_divider_unit; cbn [List.app hyphenate_go].
    rewrite IH by lia; reflexivity. }
  rewrite (@hyphens_other c t Hb Hi Hd), IH by lia; reflexivity.
Qed.

(** The rendering that the script computes by four replacements is the
    plain-text rendering. *)
Lemma text_version_plain (s : str) : text_version s = plain_rendering s.
Proof.
  unfold text_version, plain_rendering; rewrite replace_star.
  exact (@hyphens_hyphenate_bounded _ (without_stars s) (le_n _)).
Qed.

Lemma divider_nonempty : divider <> [].
Proof. discriminate. Qed.

Lemma divider_ends : exists d, divider = d ++ [8221; 8364].
Proof. exists (firstn 148 divider); reflexivity. Qed.

Lemma divider_starts : exists d, divider = 226 :: 8221 :: d.
Proof. exists (skipn 2 divider); reflexivity. Qed.

Lemma last_or_nil {A} (l : list A) :
  l = [] \/ exists l' c, l = l' ++ [c].
Proof.
  destruct l as [|a l]; [left; reflexivity|right].
  destruct (@exists_last _ (a :: l)) as (l' & c & E); [discriminate|eauto].
Qed.

(** A section of a blob, without its surrounding white space, is closed
    off on both sides. *)
Lemma section_in_context (message : str) (before after : list str)
      (section : str) :
  split divider message = before ++ section :: after ->
  exists l r,
    message = l ++ strip section ++ r /\ left_closed l /\ right_closed r.
Proof.
  intros E.
  pose proof (join_split divider_nonempty message) as J; rewrite E in J.
  destruct (join_middle divider before after section)
    as (lm & rm & M & Hl & Hr).
  destruct (strip_by_decompose isspace section) as (w1 & w2 & S & F1 & F2).
  fold (strip section) in S.
  exists (lm ++ w1), (w2 ++ rm); split; [|split].
  - rewrite <- J, M, S at 1; rewrite <- !app_assoc; reflexivity.
  - destruct (last_or_nil w1) as [->|(w1' & c & ->)].
    + rewrite app_nil_r; destruct Hl as [->|(l0 & ->)]; [left; reflexivity|].
      destruct divider_ends as (d & ->).
      right; right; exists (l0 ++ d); now rewrite <- app_assoc.
    + right; left; exists (lm ++ w1'), c; split; [now rewrite <- app_assoc|].
      apply Forall_app in F1; destruct F1 as [_ F1]; inversion F1; assumption.
  - destruct w2 as [|c w2'].
    + destruct Hr as [->|(r0 & ->)]; [left; reflexivity|].
      destruct divider_starts as (d & ->).
      right; right; exists (d ++ r0); reflexivity.
    + right; left; exists c, (w2' ++ rm); split; [reflexivity|].
      inversion F2; assumption.
Qed.

(** C9.  A section of the blob that is not empty and whose first line
    does not both start and end with the emphasis marker adds no block:
    the blocks are those of the other sections, after the title and its
    divider.  Its text is still part of the plain-text rendering that is
    sent along with the blocks: that rendering holds, in one piece, the
    section without its emphasis markers and with a hyphen for each of
    its list markers. *)
Theorem unnamed_section_only_in_plain_text
  (message : str) (date_range : option str)
  (before after : list str) (section : str) :
  split divider message = before ++ section :: after ->
  strip section <> [] ->
  begins_with_name (strip section) = false ->
  section_blocks section = []
  /\ (forall blocks, section_step blocks section = blocks)
  /\ build_blocks message date_range
     = [Header (header_text date_range) true; Divider]
       ++ flat_map section_blocks (before ++ after)
  /\ exists a b,
      text_version message = a ++ plain_rendering (strip section) ++ b.
Proof.
  intros E Hne Hname.
  assert (B : section_blocks section = []).
  { unfold section_blocks; rewrite Hname, andb_false_r; reflexivity. }
  split; [exact B|split; [|split]].
  - intros blocks; rewrite section_step_blocks, B, app_nil_r; reflexivity.
  - unfold build_blocks; rewrite fold_section_step, E.
    rewrite !flat_map_app; cbn [flat_map]; rewrite B; reflexivity.
  - destruct (@section_in_context message before after section E)
      as (l & r & -> & Hl & Hr).
    rewrite <- text_version_plain.
    apply text_version_between; assumption.
Qed.

End PlainText.

(* ================================================================== *)
(** ** Runs on concrete worlds *)
(* ================================================================== *)

Definition sample_pr : PullRequest :=
  mkPullRequest (lit " Add login page ") (lit "Adds the page.") 12
                (lit "https://example.test/pull/12") 0 [lit "feature"]
                (lit "octo/app").

(** A world whose services answer by the name of the repository and
    always the same way. *)
Definition sample_world (fetch : str -> result (list PullRequest))
           (ask post : result str) : world :=
  mkWorld (fun _ repo _ => fetch repo) (fun _ _ _ => ask)
          (fun _ _ _ _ _ => post) (fun _ _ _ => Ok tt)
          (lit "#releases") 0 0 (fun _ => lit "01 Jan 1970")
          (lit "instructions") (fun x => x) (fun x => x) (fun _ => false).

Definition boom : exn := Exception (lit "boom").

Definition fetch_app (repo : str) : result (list PullRequest) :=
  if eqb_str repo (lit "octo/app") then Ok [sample_pr] else Raise boom.

Definition world_fenced : world :=
  sample_world fetch_app (Ok (fenced features_payload)) (Ok (lit "1700000000.1")).

Definition world_garbled : world :=
  sample_world fetch_app (Ok (lit "Sorry, I cannot do that.")) (Ok (lit "1")).

Definition world_provider_down : world :=
  sample_world fetch_app (Raise boom) (Ok (lit "1")).

Definition world_rejecting : world :=
  sample_world fetch_app (Ok (fenced features_payload))
               (Raise (Exception (lit "channel_not_found"))).

Definition sample_text : str := format_prs_for_summary [sample_pr; sample_pr].

Lemma provider_failure_gives_count_sentence_witness :
  provider_answered world_provider_down (lit "octo/app") sample_text []
                    (Raise boom)
  /\ fst (summarize_with_ai world_provider_down (lit "octo/app") sample_text [])
     = Ok (lit "*" ++ lit "octo/app" ++ lit "*: "
           ++ str_of_nat (count_occurrences (lit "PR #") sample_text)
           ++ lit " pull requests merged. See individual PRs for details.").
Proof.
  assert (H : provider_answered world_provider_down (lit "octo/app")
                                sample_text [] (Raise boom))
    by (eexists _, _; vm_compute; left; reflexivity).
  split; [exact H|].
  exact (provider_failure_gives_count_sentence H).
Defined.

Lemma malformed_reply_gives_raw_text_witness :
  provider_answered world_garbled (lit "octo/app") sample_text []
                    (Ok (lit "Sorry, I cannot do that."))
  /\ json_loads (clean_reply (lit "Sorry, I cannot do that.")) = None
  /\ fst (summarize_with_ai world_garbled (lit "octo/app") sample_text [])
     = Ok (lit "*" ++ lit "octo/app" ++ lit "*:" ++ nl ++ nl
           ++ lit "Sorry, I cannot do that.").
Proof.
  assert (H : provider_answered world_garbled (lit "octo/app") sample_text []
                                (Ok (lit "Sorry, I cannot do that.")))
    by (eexists _, _; vm_compute; left; reflexivity).
  assert (J : json_loads (clean_reply (lit "Sorry, I cannot do that.")) = None)
    by (vm_compute; reflexivity).
  split; [exact H|split; [exact J|]].
  exact (malformed_reply_gives_raw_text H J).
Defined.

Lemma structured_reply_is_laid_out_witness :
  provider_answered world_fenced (lit "octo/app") sample_text []
                    (Ok (fenced features_payload))
  /\ ~ In newline (lit "octo/app")
  /\ fst (summarize_with_ai world_fenced (lit "octo/app") sample_text [])
     = Ok (lit "*" ++ lit "octo/app" ++ lit "*" ++ nl ++ features_body)
  /\ split nl (lit "*" ++ lit "octo/app" ++ lit "*" ++ nl ++ features_body)
     = [lit "*" ++ lit "octo/app" ++ lit "*";
        [];
        bullet ++ lit " *Features*:";
        lit "  " ++ item_bullet ++ lit " Added X";
        [];
        divider;
        []].
Proof.
  assert (H : provider_answered world_fenced (lit "octo/app") sample_text []
                                (Ok (fenced features_payload)))
    by (eexists _, _; vm_compute; left; reflexivity).
  assert (N : ~ In newline (lit "octo/app"))
    by (vm_compute; intuition discriminate).
  split; [exact H|split; [exact N|]].
  destruct (@structured_reply_is_laid_out world_fenced (lit "octo/app")
              sample_text [] (fenced features_payload)
              (or_intror (or_introl eq_refl)) H) as [R L].
  split; [exact R|exact (L N)].
Defined.

Lemma formatter_is_deterministic_witness :
  format_prs_for_summary [sample_pr; sample_pr] = sample_text
  /\ sample_text = join (nl ++ nl) (List.map pr_info [sample_pr; sample_pr]).
Proof.
  destruct (@formatter_is_deterministic [sample_pr; sample_pr]
              (format_prs_for_summary [sample_pr; sample_pr]) sample_text
              eq_refl eq_refl) as [E F].
  split; [exact E|rewrite <- E; exact F].
Defined.

(** A blob of two repository sections, as the summarizer lays them
    out. *)
Definition two_section_blob : str :=
  join (nl ++ nl)
       [lit "*octo/app*" ++ nl ++ features_body;
        lit "*octo/web*" ++ nl ++ features_body].

Lemma publisher_counts_headers_and_dividers_witness :
  List.length (repository_sections two_section_blob) = 2
  /\ Forall (fun s => begins_with_name s = true)
            (repository_sections two_section_blob)
  /\ count_blocks is_header (build_blocks two_section_blob None) = 1 + 2
  /\ count_blocks is_divider (build_blocks two_section_blob None) = 2 + 1.
Proof.
  assert (L : List.length (repository_sections two_section_blob) = 2)
    by (vm_compute; reflexivity).
  assert (F : Forall (fun s => begins_with_name s = true)
                     (repository_sections two_section_blob))
    by (vm_compute; repeat constructor).
  split; [exact L|split; [exact F|]].
  exact (@publisher_counts_headers_and_dividers two_section_blob None 2 L F).
Defined.

(** The blob of a run in which the second repository failed: the
    section after the divider line holds the error sentence, whose line
    does not end with the emphasis marker. *)
Definition blob_with_failure : str :=
  join (nl ++ nl)
       [lit "*octo/app*" ++ nl ++ features_body;
        error_sentence (lit "octo/broken") boom].

Definition named_part : str :=
  lit "*octo/app*" ++ nl
  ++ nl ++ bullet ++ lit " *Features*:" ++ nl
  ++ lit "  " ++ item_bullet ++ lit " Added X" ++ nl
  ++ nl.

Definition unnamed_part : str :=
  nl ++ nl ++ nl ++ lit "*octo/broken*: Error processing repository - boom".

Lemma unnamed_section_only_in_plain_text_witness :
  split divider blob_with_failure = [named_part] ++ unnamed_part :: []
  /\ strip unnamed_part
     = lit "*octo/broken*: Error processing repository - boom"
  /\ begins_with_name (strip unnamed_part) = false
  /\ build_blocks blob_with_failure None
     = [Header (header_text None) true; Divider;
        Header (lit "octo/app") false;
        Section (bullet ++ lit " *Features*:" ++ nl
                 ++ lit "  " ++ item_bullet ++ lit " Added X");
        Divider]
  /\ exists a b,
      text_version blob_with_failure
      = a ++ lit "octo/broken: Error processing repository - boom" ++ b.
Proof.
  assert (S : split divider blob_with_failure
              = [named_part] ++ unnamed_part :: [])
    by (vm_compute; reflexivity).
  assert (P : strip unnamed_part
              = lit "*octo/broken*: Error processing repository - boom")
    by (vm_compute; reflexivity).
  assert (N : strip unnamed_part <> [])
    by (rewrite P; discriminate).
  assert (B : begins_with_name (strip unnamed_part) = false)
    by (vm_compute; reflexivity).
  split; [exact S|split; [exact P|split; [exact B|]]].
  destruct (@unnamed_section_only_in_plain_text blob_with_failure None
              [named_part] [] unnamed_part S N B)
    as (_ & _ & Bl & a & b & T).
  split.
  - rewrite Bl; vm_compute; reflexivity.
  - exists a, b; rewrite T, P; reflexivity.
Defined.

(** The post of the run on the rejecting world. *)
Definition rejected_message : str :=
  lit "*octo/app*" ++ nl ++ features_body.

Definition rejection : exn := Exception (lit "channel_not_found").

Lemma rejected_run :
  generate_release_notes world_rejecting [lit "octo/app"] 7 []
  = (Raise rejection,
     [Fetched (lit "octo/app") (-604800000000) (Ok [sample_pr]);
      Asked (lit "instructions")
            (user_prompt (lit "octo/app") (format_prs_for_summary [sample_pr]))
            (Ok (fenced features_payload));
      post_event world_rejecting (-604800000000) rejected_message (Raise rejection)]).
Proof. vm_compute; reflexivity. Qed.

(** C1 as worded fails: on a world whose chat platform rejects the post,
    the run posts, fails, and has written nothing. *)
Lemma artifact_not_attempted_on_rejection :
  ~ artifact_attempted_on_rejection world_rejecting [lit "octo/app"] 7 [].
Proof.
  unfold artifact_attempted_on_rejection, new_events.
  rewrite rejected_run; cbn [snd List.length skipn].
  intros H.
  destruct (H _ _ _ _ _ (or_intror (or_intror (or_introl eq_refl))))
    as (path & content & r & [W|[W|[W|[]]]]); discriminate.
Qed.

Lemma rejected_post_fails_without_artifact_witness :
  In (post_event world_rejecting (-604800000000) rejected_message (Raise rejection))
     (new_events (generate_release_notes world_rejecting [lit "octo/app"] 7) [])
  /\ fst (generate_release_notes world_rejecting [lit "octo/app"] 7 [])
     = Raise rejection
  /\ forall path content r,
      ~ In (Wrote path content r)
           (new_events (generate_release_notes world_rejecting
                                               [lit "octo/app"] 7) []).
Proof.
  assert (P : In (post_event world_rejecting (-604800000000) rejected_message
                             (Raise rejection))
                 (new_events (generate_release_notes world_rejecting
                                                     [lit "octo/app"] 7) []))
    by (unfold new_events; rewrite rejected_run; right; right; left;
        reflexivity).
  split; [exact P|].
  exact (proj1 (@rejected_post_fails_without_artifact world_rejecting
                  [lit "octo/app"] 7 []) _ _ _ _ _ P).
Defined.

Definition world_one_broken : world :=
  sample_world fetch_app (Ok (fenced features_payload)) (Ok (lit "1")).

Lemma failing_repository_is_isolated_witness :
  strip (lit " octo/broken ") <> []
  /\ strip (lit "octo/app") <> []
  /\ window_start world_one_broken 7 = Ok (-604800000000)%Z
  /\ exists summary tr',
      process_repos world_one_broken (-604800000000)
                    [lit " octo/broken "; lit "octo/app"] [] []
      = (Ok [lit "*" ++ lit "octo/broken"
             ++ lit "*: Error processing repository - " ++ lit "boom";
             summary], tr')
      /\ summary = rejected_message
      /\ exists r,
          In (post_event world_one_broken (-604800000000)
                (join (nl ++ nl)
                      [error_sentence (lit "octo/broken") boom; summary]) r)
             (new_events
                (generate_release_notes
                   world_one_broken [lit " octo/broken "; lit "octo/app"] 7)
                []).
Proof.
  assert (Ha : strip (lit " octo/broken ") <> []) by (vm_compute; discriminate).
  assert (Hb : strip (lit "octo/app") <> []) by (vm_compute; discriminate).
  assert (W : window_start world_one_broken 7 = Ok (-604800000000)%Z)
    by reflexivity.
  split; [exact Ha|split; [exact Hb|split; [exact W|]]].
  destruct (@failing_repository_is_isolated world_one_broken
              (lit " octo/broken ") (lit "octo/app") 7 (-604800000000)
              [] boom [sample_pr] Ha Hb W eq_refl eq_refl)
    as (summary & tr' & L & S & P).
  exists summary, tr'; split; [exact L|split; [|exact P]].
  vm_compute in S; injection S as <-; reflexivity.
Defined.

(* ================================================================== *)
(** ** Further properties of the orchestrator *)
(* ================================================================== *)

Section OrchestratorMore.

Variable w : world.

(** The names that the loop works on: those that are not blank, without
    their surrounding white space. *)
Definition worked_names (repos : list str) : list str :=
  filter truthy (List.map strip repos).

Definition fetched_name (ev : event) : list str :=
  match ev with
  | Fetched repo _ _ => [repo]
  | _ => []
  end.

Definition is_asked (ev : event) : bool :=
  match ev with Asked _ _ _ => true | _ => false end.

Definition is_posted (ev : event) : bool :=
  match ev with Posted _ _ _ _ _ => true | _ => false end.

Definition is_wrote (ev : event) : bool :=
  match ev with Wrote _ _ _ => true | _ => false end.

(** What the summarizer adds to the trace: nothing, or one request. *)
Lemma summarize_events (repo prs_text : str) (tr : trace) :
  exists s evs,
    summarize_with_ai w repo prs_text tr = (Ok s, tr ++ evs)
    /\ flat_map fetched_name evs = []
    /\ List.length (filter is_asked evs) <= 1.
Proof.
  destruct (nothing_to_summarize prs_text) eqn:G.
  - rewrite summarize_skips by exact G.
    exists (no_changes repo), []; rewrite app_nil_r; simpl; auto.
  - rewrite summarize_asks by exact G.
    eexists _, [_]; split; [reflexivity|]; simpl; auto.
Qed.

(** The loop, with what it returns and what it records. *)
Lemma process_repos_account (since : Z) (repos : list str) :
  forall (all : list str) (tr : trace),
  exists l evs,
    process_repos w since repos all tr = (Ok (all ++ l), tr ++ evs)
    /\ List.length l = List.length (worked_names repos)
    /\ flat_map fetched_name evs = worked_names repos
    /\ List.length (filter is_asked evs) <= List.length (worked_names repos)
    /\ Forall (gathering) evs.
Proof.
  unfold worked_names.
  induction repos as [|repo rest IH]; intros all tr; cbn [process_repos].
  - exists [], []; unfold ret; rewrite !app_nil_r; simpl; auto.
  - cbn [List.map filter].
    destruct (truthy (strip repo)); cbn [negb]; [|apply IH].
    unfold bind at 1, try_except.
    pose proof (process_one_cases w since (strip repo) all tr) as P.
    cbv zeta in P.
    destruct (github w tr (strip repo) since) as [[|pr prs]|e].
    + rewrite P.
      destruct (IH (all ++ [no_changes (strip repo)])
                  (tr ++ [Fetched (strip repo) since (Ok [])]))
        as (l & evs & E & L & Fn & A & G).
      exists (no_changes (strip repo) :: l),
        (Fetched (strip repo) since (Ok []) :: evs).
      rewrite E, <- !app_assoc; cbn [List.app].
      split; [reflexivity|].
      split; [simpl; lia|].
      split; [simpl; now rewrite Fn|].
      split; [simpl; lia|constructor; [exact I|exact G]].
    + destruct P as (s & tr2 & S & P).
      destruct (summarize_events (strip repo)
                  (format_prs_for_summary (pr :: prs))
                  (tr ++ [Fetched (strip repo) since (Ok (pr :: prs))]))
        as (s' & evs1 & S' & Fn1 & A1).
      destruct (summarize_gathers w (strip repo)
                  (format_prs_for_summary (pr :: prs))
                  (tr ++ [Fetched (strip repo) since (Ok (pr :: prs))]))
        as (s'' & evs1' & S'' & G1).
      rewrite S' in S, S''.
      injection S as <- <-; injection S'' as _ Et.
      apply app_inv_head in Et; subst evs1'.
      rewrite P.
      destruct (IH (all ++ [s'])
                  ((tr ++ [Fetched (strip repo) since (Ok (pr :: prs))])
                   ++ evs1))
        as (l & evs & E & L & Fn & A & G).
      exists (s' :: l),
        ((Fetched (strip repo) since (Ok (pr :: prs)) :: evs1) ++ evs).
      rewrite E, <- !app_assoc; cbn [List.app].
      split; [reflexivity|split; [simpl; lia|split; [|split]]].
      * cbn [flat_map fetched_name List.app].
        rewrite flat_map_app, Fn1, Fn; reflexivity.
      * cbn [filter is_asked]; rewrite filter_app, length_app; simpl; lia.
      * constructor; [exact I|apply Forall_app; split; assumption].
    + rewrite P; unfold ret.
      destruct (IH (all ++ [error_sentence (strip repo) e])
                  (tr ++ [Fetched (strip repo) since (Raise e)]))
        as (l & evs & E & L & Fn & A & G).
      exists (error_sentence (strip repo) e :: l),
        (Fetched (strip repo) since (Raise e) :: evs).
      rewrite E, <- !app_assoc; cbn [List.app].
      split; [reflexivity|].
      split; [simpl; lia|].
      split; [simpl; now rewrite Fn|].
      split; [simpl; lia|constructor; [exact I|exact G]].
Qed.

(** A run whose window is computed, told in full: the loop, then
    nothing, or the post and, after a post that succeeded, the write. *)
Lemma run_account (repos : list str) (days_back since : Z) (tr : trace) :
  window_start w days_back = Ok since ->
  exists summaries evs,
    process_repos w since repos [] tr = (Ok summaries, tr ++ evs)
    /\ List.length summaries = List.length (worked_names repos)
    /\ Forall gathering evs
    /\ let message := join (nl ++ nl) summaries in
       let post :=
         slack w (tr ++ evs) (slack_channel w) (text_version message)
               (build_blocks message (Some (date_range w since))) false in
       match summaries, post with
       | [], _ =>
           generate_release_notes w repos days_back tr = (Ok tt, tr ++ evs)
       | _ :: _, Raise e =>
           generate_release_notes w repos days_back tr
           = (Raise e, tr ++ evs ++ [post_event w since message (Raise e)])
       | _ :: _, Ok ts =>
           let written :=
             filesystem w
               ((tr ++ evs) ++ [post_event w since message (Ok ts)])
               output_path message in
           generate_release_notes w repos days_back tr
           = (outcome written,
              tr ++ evs ++ [post_event w since message (Ok ts);
                            Wrote output_path message written])
       end.
Proof.
  intros W.
  destruct (process_repos_account since repos [] tr)
    as (l & evs & E & L & _ & _ & G).
  cbn [List.app] in E.
  exists l, evs; split; [exact E|split; [exact L|split; [exact G|]]].
  cbv zeta; unfold generate_release_notes; rewrite W.
  destruct repos as [|repo rest].
  { cbn in E; unfold ret in E; injection E as <- Et.
    rewrite <- Et; reflexivity. }
  rewrite (@bind_ok _ _ _ _ _ _ _ E).
  destruct l as [|s l]; [reflexivity|].
  set (message := join (nl ++ nl) (s :: l)).
  pose proof (post_to_slack_spec w message (Some (date_range w since))
                                 (tr ++ evs)) as P.
  cbv zeta in P; fold (post_event w since message) in P.
  destruct (slack w (tr ++ evs) (slack_channel w) (text_version message)
              (build_blocks message (Some (date_range w since))) false)
    as [ts|e].
  - rewrite (@bind_ok _ _ _ _ _ _ _ P).
    unfold bind, call, ret, post_event.
    match goal with
    | |- context [filesystem w ?t output_path message] =>
        destruct (filesystem w t output_path message) as [[]|e]
    end; cbn [outcome]; rewrite <- !app_assoc; reflexivity.
  - rewrite (@bind_raise _ _ _ _ _ _ _ P), <- app_assoc; reflexivity.
Qed.

Lemma gathering_filters (evs : list event) :
  Forall gathering evs ->
  filter is_posted evs = [] /\ filter is_wrote evs = [].
Proof.
  induction 1 as [|ev evs Hev _ [IHp IHw]]; [split; reflexivity|].
  destruct ev; try contradiction; simpl; auto.
Qed.

(** X1. The loop never raises, and returns one summary for each name that is
    not blank. *)
Theorem loop_gives_one_summary_per_repository
  (since : Z) (repos : list str) (tr : trace) :
  exists summaries,
    fst (process_repos w since repos [] tr) = Ok summaries
    /\ List.length summaries = List.length (worked_names repos).
Proof.
  destruct (process_repos_account since repos [] tr)
    as (l & evs & E & L & _).
  exists l; rewrite E; split; [reflexivity|exact L].
Qed.


Lemma process_repos_blank (since : Z) (repos : list str) :
  worked_names repos = [] ->
  forall all tr, process_repos w since repos all tr = (Ok all, tr).
Proof.
  unfold worked_names.
  induction repos as [|repo rest IH]; intros Hb all tr; [reflexivity|].
  cbn [process_repos]; cbn [List.map filter] in Hb.
  destruct (truthy (strip repo)); [discriminate|].
  cbn [negb]; apply IH; exact Hb.
Qed.

(** X3. When the list holds no name, or blank names only, the run does
    nothing at all: no fetch, no request, no post, no file.  It returns,
    unless the window cannot be computed: it then raises the error of
    that computation. *)
Theorem blank_names_do_nothing
  (repos : list str) (days_back : Z) (tr : trace) :
  worked_names repos = [] ->
  generate_release_notes w repos days_back tr
  = (match window_start w days_back with
     | Ok _ => Ok tt
     | Raise e => Raise e
     end, tr).
Proof.
  intros Hb; unfold generate_release_notes.
  destruct (window_start w days_back) as [since|e]; [|reflexivity].
  destruct repos as [|repo rest]; [reflexivity|].
  rewrite (@bind_ok _ _ _ _ _ _ _
             (@process_repos_blank since (repo :: rest) Hb [] tr)).
  reflexivity.
Qed.

(** X4. The file that a run writes is "generated_message.txt", and it holds
    the summaries of the loop joined by blank lines: the very message whose
    post succeeded just before. *)
Theorem artifact_holds_the_posted_message
  (repos : list str) (days_back : Z) (tr : trace)
  (path content : str) (r : result unit) :
  In (Wrote path content r)
     (new_events (generate_release_notes w repos days_back) tr) ->
  path = lit "generated_message.txt"
  /\ exists since summaries ts,
      window_start w days_back = Ok since
      /\ fst (process_repos w since repos [] tr) = Ok summaries
      /\ content = join (nl ++ nl) summaries
      /\ In (post_event w since content (Ok ts))
            (new_events (generate_release_notes w repos days_back) tr).
Proof.
  unfold new_events.
  destruct (window_start w days_back) as [since|e0] eqn:W.
  2:{ rewrite (@run_without_window w repos _ tr _ W); cbn [snd].
      rewrite skipn_all; intros []. }
  destruct (@run_account repos _ _ tr W) as (l & evs & E & _ & G & R).
  cbv zeta in R.
  destruct l as [|s l].
  - rewrite R; cbn [snd]; rewrite skipn_length_app; intros Hin.
    exfalso; eapply gathering_not_wrote; eassumption.
  - destruct (slack w (tr ++ evs) (slack_channel w)
                (text_version (join (nl ++ nl) (s :: l)))
                (build_blocks (join (nl ++ nl) (s :: l))
                   (Some (date_range w since))) false) as [ts|e];
      rewrite R; cbn [snd]; rewrite skipn_length_app; intros Hin;
      apply in_app_or in Hin.
    + destruct Hin as [Hin|[Hin|[Hin|[]]]];
        [exfalso; eapply gathering_not_wrote; eassumption|discriminate|].
      injection Hin as <- <- _; split; [reflexivity|].
      exists since, (s :: l), ts; rewrite E.
      split; [reflexivity|split; [reflexivity|]].
      split; [reflexivity|].
      apply in_or_app; right; left; reflexivity.
    + destruct Hin as [Hin|[Hin|[]]];
        [exfalso; eapply gathering_not_wrote; eassumption|discriminate].
Qed.

(** X5. A run can fail in three places only: at the computation of the
    window, before anything is done; at the post; or at the write of the
    file.  Fetching and summarizing never end it. *)
Theorem run_fails_only_at_window_post_or_write
  (repos : list str) (days_back : Z) (tr : trace) (e : exn) :
  let events := new_events (generate_release_notes w repos days_back) tr in
  fst (generate_release_notes w repos days_back tr) = Raise e ->
  (window_start w days_back = Raise e /\ events = [])
  \/ exists since message,
      window_start w days_back = Ok since
      /\ (In (post_event w since message (Raise e)) events
          \/ In (Wrote output_path message (Raise e)) events).
Proof.
  cbv zeta; unfold new_events.
  destruct (window_start w days_back) as [since|e0] eqn:W.
  2:{ rewrite (@run_without_window w repos _ tr _ W); cbn [fst snd].
      intros Hr; injection Hr as ->; left; split; [reflexivity|].
      apply skipn_all. }
  destruct (@run_account repos _ _ tr W) as (l & evs & E & _ & G & R).
  cbv zeta in R.
  intros Hr; right.
  destruct l as [|s l]; [rewrite R in Hr; discriminate|].
  exists since, (join (nl ++ nl) (s :: l)); split; [reflexivity|].
  destruct (slack w (tr ++ evs) (slack_channel w)
              (text_version (join (nl ++ nl) (s :: l)))
              (build_blocks (join (nl ++ nl) (s :: l))
                 (Some (date_range w since))) false) as [ts|e'];
    rewrite R in *; cbn [fst snd] in *; rewrite skipn_length_app.
  - right; apply in_or_app; right; right; left.
    destruct (filesystem w _ output_path (join (nl ++ nl) (s :: l)))
      as [[]|e']; [discriminate|].
    cbn [outcome] in Hr; injection Hr as ->; reflexivity.
  - left; injection Hr as ->; apply in_or_app; right; left; reflexivity.
Qed.

(** X6. A run posts once when its window is computed and there is a name
    to work on, and never otherwise; it writes at most once, never
    without a post. *)
Theorem run_posts_exactly_once
  (repos : list str) (days_back : Z) (tr : trace) :
  let events := new_events (generate_release_notes w repos days_back) tr in
  List.length (filter is_posted events)
  = match window_start w days_back, worked_names repos with
    | Ok _, _ :: _ => 1
    | _, _ => 0
    end
  /\ List.length (filter is_wrote events)
     <= List.length (filter is_posted events).
Proof.
  cbv zeta; unfold new_events.
  destruct (window_start w days_back) as [since|e0] eqn:W.
  2:{ rewrite (@run_without_window w repos _ tr _ W); cbn [snd].
      rewrite skipn_all; split; [reflexivity|apply le_n]. }
  destruct (@run_account repos _ _ tr W) as (l & evs & E & L & G & R).
  destruct (gathering_filters G) as [Fp Fw].
  cbv zeta in R.
  destruct l as [|s l].
  - rewrite R; cbn [snd]; rewrite skipn_length_app, Fp, Fw.
    destruct (worked_names repos); [split; [reflexivity|apply le_n]|].
    discriminate.
  - assert (N : match worked_names repos with [] => 0 | _ :: _ => 1 end = 1)
      by (destruct (worked_names repos); [discriminate|reflexivity]).
    rewrite N.
    destruct (slack w (tr ++ evs) (slack_channel w)
                (text_version (join (nl ++ nl) (s :: l)))
                (build_blocks (join (nl ++ nl) (s :: l))
                   (Some (date_range w since))) false) as [ts|e];
      rewrite R; cbn [snd]; rewrite skipn_length_app, !filter_app, Fp, Fw;
      simpl; split; auto.
Qed.

End OrchestratorMore.

Lemma blank_names_do_nothing_witness :
  worked_names [lit "  "; []] = []
  /\ generate_release_notes world_fenced [lit "  "; []] 7 [] = (Ok tt, [])
  /\ generate_release_notes world_fenced [lit "  "; []] 1000000 []
     = (Raise (Exception (lit "date value out of range")), []).
Proof.
  assert (H : worked_names [lit "  "; []] = []) by reflexivity.
  split; [exact H|split].
  - exact (@blank_names_do_nothing world_fenced [lit "  "; []] 7 [] H).
  - exact (@blank_names_do_nothing world_fenced [lit "  "; []] 1000000 [] H).
Defined.

Lemma artifact_holds_the_posted_message_witness :
  In (Wrote output_path rejected_message (Ok tt))
     (new_events (generate_release_notes world_fenced [lit "octo/app"] 7) [])
  /\ output_path = lit "generated_message.txt"
  /\ exists since summaries ts,
      window_start world_fenced 7 = Ok since
      /\ fst (process_repos world_fenced since [lit "octo/app"] [] [])
         = Ok summaries
      /\ rejected_message = join (nl ++ nl) summaries
      /\ In (post_event world_fenced since rejected_message (Ok ts))
            (new_events (generate_release_notes world_fenced
                                                [lit "octo/app"] 7) []).
Proof.
  assert (H : In (Wrote output_path rejected_message (Ok tt))
                 (new_events (generate_release_notes world_fenced
                                                     [lit "octo/app"] 7) []))
    by (vm_compute; right; right; right; left; reflexivity).
  split; [exact H|].
  exact (@artifact_holds_the_posted_message world_fenced [lit "octo/app"] 7 []
           output_path rejected_message (Ok tt) H).
Defined.

(** A look-back of a million days: the window would begin before the
    year 1. *)
Lemma run_fails_only_at_window_post_or_write_witness :
  (fst (generate_release_notes world_rejecting [lit "octo/app"] 7 [])
   = Raise rejection
   /\ exists message,
       In (post_event world_rejecting (-604800000000) message
                      (Raise rejection))
          (new_events (generate_release_notes world_rejecting
                                              [lit "octo/app"] 7) []))
  /\ (fst (generate_release_notes world_fenced [lit "octo/app"] 1000000 [])
      = Raise (Exception (lit "date value out of range"))
      /\ new_events (generate_release_notes world_fenced
                                            [lit "octo/app"] 1000000) []
         = []).
Proof.
  assert (H : fst (generate_release_notes world_rejecting [lit "octo/app"] 7 [])
              = Raise rejection) by (rewrite rejected_run; reflexivity).
  assert (K : fst (generate_release_notes world_fenced [lit "octo/app"]
                                          1000000 [])
              = Raise (Exception (lit "date value out of range")))
    by reflexivity.
  split; (split; [assumption|]).
  - destruct (@run_fails_only_at_window_post_or_write
                world_rejecting [lit "octo/app"] 7 [] rejection H)
      as [[W _]|(since & message & W & [P|P])].
    + discriminate W.
    + injection W as <-; exists message; exact P.
    + exfalso; revert P; unfold new_events; rewrite rejected_run.
      intros [P|[P|[P|[]]]]; discriminate.
  - destruct (@run_fails_only_at_window_post_or_write
                world_fenced [lit "octo/app"] 1000000 [] _ K)
      as [[_ E]|(since & message & W & _)]; [exact E|discriminate W].
Defined.

(* ================================================================== *)
(** ** Further properties of the publisher *)
(* ================================================================== *)

Section PublisherMore.

Local Open Scope N_scope.

(** The blocks of the repositories: for each one a header, then a
    section if there is any text under the name, then a divider. *)
Inductive repository_groups : list block -> Prop :=
| groups_nil : repository_groups []
| groups_bare (name : str) (rest : list block) :
    repository_groups rest ->
    repository_groups (Header name false :: Divider :: rest)
| groups_body (name content : str) (rest : list block) :
    content <> [] -> strip content = content ->
    repository_groups rest ->
    repository_groups (Header name false :: Section content :: Divider :: rest).

Lemma repository_groups_app (a b : list block) :
  repository_groups a -> repository_groups b -> repository_groups (a ++ b).
Proof.
  induction 1; intros Hb; cbn [List.app]; try constructor; auto.
Qed.

Lemma lstrip_by_idem (p : N -> bool) (s : str) :
  lstrip_by p (lstrip_by p s) = lstrip_by p s.
Proof.
  induction s as [|c t IH]; [reflexivity|].
  cbn [lstrip_by]; destruct (p c) eqn:E; [exact IH|].
  cbn [lstrip_by]; rewrite E; reflexivity.
Qed.

(** What [lstrip_by] returns does not begin with a stripped code
    point. *)
Lemma lstrip_by_head (p : N -> bool) (s : str) :
  match lstrip_by p s with
  | [] => True
  | c :: _ => p c = false
  end.
Proof.
  induction s as [|c t IH]; [exact I|].
  cbn [lstrip_by]; destruct (p c) eqn:E; [exact IH|exact E].
Qed.

Lemma lstrip_by_fixed (p : N -> bool) (s : str) :
  match s with [] => True | c :: _ => p c = false end ->
  lstrip_by p s = s.
Proof. destruct s as [|c t]; [reflexivity|]; cbn; intros ->; reflexivity. Qed.

(** Stripping on the right keeps the first code point of a text that
    does not begin with a stripped one. *)
Lemma rstrip_by_keeps_head (p : N -> bool) (s : str) :
  match s with [] => True | c :: _ => p c = false end ->
  match rstrip_by p s with
  | [] => s = []
  | c :: _ => p c = false
  end.
Proof.
  intros Hs.
  destruct (rstrip_by_decompose p s) as (ws & E & F).
  destruct (rstrip_by p s) as [|c r] eqn:R.
  - cbn in E; subst ws.
    destruct s as [|c t]; [reflexivity|].
    inversion F; congruence.
  - rewrite E in Hs; exact Hs.
Qed.

Lemma rstrip_by_idem (p : N -> bool) (s : str) :
  rstrip_by p (rstrip_by p s) = rstrip_by p s.
Proof.
  unfold rstrip_by; rewrite rev_involutive, lstrip_by_idem; reflexivity.
Qed.

(** Stripping twice is stripping once. *)
Lemma strip_by_idem (p : N -> bool) (s : str) :
  strip_by p (strip_by p s) = strip_by p s.
Proof.
  unfold strip_by.
  pose proof (lstrip_by_head p s) as H.
  pose proof (rstrip_by_keeps_head p _ H) as K.
  rewrite (lstrip_by_fixed p (rstrip_by p (lstrip_by p s))).
  - apply rstrip_by_idem.
  - destruct (rstrip_by p (lstrip_by p s)); [exact I|exact K].
Qed.

Lemma section_blocks_groups (section : str) :
  repository_groups (section_blocks section).
Proof.
  unfold section_blocks.
  destruct (truthy (strip section) && begins_with_name (strip section));
    [|constructor].
  destruct (truthy (strip (join nl (tl (split nl (strip section))))))
    eqn:T; cbn [List.app].
  - apply groups_body; [apply truthy_true; exact T| |constructor].
    apply strip_by_idem.
  - apply groups_bare; constructor.
Qed.

(** X7. For every message the blocks are the title header and a divider,
    followed by the groups of the repositories. *)
Theorem blocks_are_title_then_repository_groups
  (message : str) (date_range : option str) :
  exists rest,
    build_blocks message date_range
    = Header (header_text date_range) true :: Divider :: rest
    /\ repository_groups rest.
Proof.
  exists (flat_map section_blocks (split divider message)).
  unfold build_blocks; rewrite fold_section_step; split; [reflexivity|].
  induction (split divider message) as [|s l IH]; [constructor|].
  cbn [flat_map]; apply repository_groups_app;
    [apply section_blocks_groups|exact IH].
Qed.

(** Every code point of a replaced text comes from the text or from the
    replacement. *)
Lemma in_replace_go (old new : str) (c : N) :
  forall s k, In c (replace_go old new k s) -> In c new \/ In c s.
Proof.
  induction s as [|x t IH]; intros k H; [destruct H|].
  cbn [replace_go] in H; destruct k as [|k].
  - destruct (startswith old (x :: t)).
    + apply in_app_or in H; destruct H as [H|H]; [left; exact H|].
      destruct (IH _ H); [left|right; right]; assumption.
    + destruct H as [H|H]; [right; left; exact H|].
      destruct (IH _ H); [left|right; right]; assumption.
  - destruct (IH _ H); [left|right; right]; assumption.
Qed.

(** Replacing one code point by nothing removes it. *)
Lemma replace_char_by_nothing (c : N) (s : str) :
  ~ In c (replace [c] [] s).
Proof.
  unfold replace; induction s as [|x t IH]; [intros []|].
  cbn [replace_go startswith List.length Nat.pred List.app].
  destruct (N.eqb_spec c x) as [->|Hx]; cbn [andb]; [exact IH|].
  intros [H|H]; [congruence|exact (IH H)].
Qed.

(** X8. The plain-text rendering never holds an emphasis marker. *)
Theorem plain_text_has_no_emphasis_marker (message : str) :
  ~ In star (text_version message).
Proof.
  unfold text_version, replace; intros H.
  apply in_replace_go in H; destruct H as [H|H];
    [cbn in H; intuition discriminate|].
  apply in_replace_go in H; destruct H as [H|H];
    [cbn in H; intuition discriminate|].
  apply in_replace_go in H; destruct H as [H|H];
    [cbn in H; intuition discriminate|].
  exact (replace_char_by_nothing star message H).
Qed.

(** A text without the first code point of the separator is one
    piece. *)
Lemma split_without_separator (sep s : str) (c : N) :
  hd_error sep = Some c -> ~ In c s -> split sep s = [s].
Proof.
  intros Hc Hs; unfold split.
  assert (G : split_go sep 0 s = (s, [])).
  { induction s as [|x t IH]; [reflexivity|].
    cbn [split_go].
    assert (E : startswith sep (x :: t) = false).
    { destruct sep as [|o p]; [discriminate|].
      injection Hc as ->; cbn [startswith].
      destruct (N.eqb_spec c x) as [->|_]; [|reflexivity].
      exfalso; apply Hs; left; reflexivity. }
    rewrite E, IH; [reflexivity|].
    intros H; apply Hs; right; exact H. }
  rewrite G; reflexivity.
Qed.

Lemma last_app_nonempty {A} (a b : list A) (d : A) :
  b <> [] -> last (a ++ b) d = last b d.
Proof.
  intros Hb; induction a as [|x a IH]; [reflexivity|].
  cbn [List.app last]; rewrite IH.
  destruct (a ++ b) eqn:E; [|reflexivity].
  apply app_eq_nil in E; destruct E; contradiction.
Qed.

Lemma join_nonempty (sep p : str) (ps : list str) :
  p <> [] -> join sep (p :: ps) <> [].
Proof. destruct ps, p; try contradiction; discriminate. Qed.

(** A repository name made of printable ASCII characters. *)
Definition printable_name (name : str) : Prop :=
  Forall (fun c => 32 < c /\ c < 127) name.

Definition quiet_sentence_tail : str :=
  lit "*: No changes in the specified time period.".

Lemma printable_not_in (name : str) (c : N) :
  printable_name name -> (c <= 32 \/ 127 <= c) -> ~ In c name.
Proof.
  intros P Hc Hin; unfold printable_name in P; rewrite Forall_forall in P.
  specialize (P _ Hin); lia.
Qed.

Lemma in_join (sep : str) (parts : list str) (c : N) :
  In c (join sep parts) -> In c sep \/ exists p, In p parts /\ In c p.
Proof.
  induction parts as [|p rest IH]; [intros []|].
  destruct rest as [|q rest'].
  - cbn [join]; intros H; right; exists p; split; [left; reflexivity|exact H].
  - change (join sep (p :: q :: rest'))
      with (p ++ sep ++ join sep (q :: rest')).
    intros H; apply in_app_or in H; destruct H as [H|H];
      [right; exists p; split; [left; reflexivity|exact H]|].
    apply in_app_or in H; destruct H as [H|H]; [left; exact H|].
    destruct (IH H) as [H'|(p' & Hp & Hc)]; [left; exact H'|].
    right; exists p'; split; [right; exact Hp|exact Hc].
Qed.

(** X9. When every repository had no change, the message has the title
    header and its divider and nothing else: the sentences reach the channel
    in the plain-text rendering only. *)
Theorem quiet_run_posts_title_only
  (name : str) (names : list str) (date_range : option str) :
  Forall printable_name (name :: names) ->
  build_blocks (join (nl ++ nl) (List.map no_changes (name :: names)))
               date_range
  = [Header (header_text date_range) true; Divider].
Proof.
  intros P.
  set (message := join (nl ++ nl) (List.map no_changes (name :: names))).
  assert (Hin : forall c, In c message ->
                          c = newline \/ c < 127).
  { intros c Hc; apply in_join in Hc; destruct Hc as [Hc|(p & Hp & Hc)].
    - left; cbn in Hc; intuition.
    - right; apply in_map_iff in Hp; destruct Hp as (n & <- & Hn).
      rewrite Forall_forall in P; specialize (P _ Hn).
      unfold no_changes in Hc.
      apply in_app_or in Hc; destruct Hc as [Hc|Hc];
        [cbn in Hc; destruct Hc as [<-|[]]; reflexivity|].
      apply in_app_or in Hc; destruct Hc as [Hc|Hc].
      + unfold printable_name in P; rewrite Forall_forall in P.
        apply P; exact Hc.
      + cbn in Hc.
        repeat (destruct Hc as [<-|Hc]; [reflexivity|]); destruct Hc. }
  assert (S : split divider message = [message]).
  { apply split_without_separator with (c := 226); [reflexivity|].
    intros H; destruct (Hin _ H); [discriminate|lia]. }
  unfold build_blocks; rewrite S; cbn [fold_left].
  rewrite section_step_blocks.
  assert (B : section_blocks message = []); [|rewrite B; reflexivity].
  (* the message is its own stripped text, and its first line is the
     first sentence, which ends with a full stop *)
  assert (F : exists rest,
             message = (lit "*" ++ name ++ quiet_sentence_tail) ++ rest
             /\ (rest = [] \/ exists rest', rest = newline :: rest')).
  { unfold message; cbn [List.map].
    destruct (List.map no_changes names) as [|q qs].
    - exists []; rewrite app_nil_r; split; [reflexivity|left; reflexivity].
    - exists ((nl ++ nl) ++ join (nl ++ nl) (q :: qs)).
      split; [reflexivity|right; eexists; reflexivity]. }
  destruct F as (rest & F & Hrest).
  assert (Pn : printable_name name) by (inversion P; assumption).
  assert (L : message <> [] /\ last message 0 = 46).
  { split; [rewrite F; discriminate|].
    unfold message.
    clear - P.
    assert (G : forall l : list str,
               l <> [] ->
               Forall (fun s => s <> [] /\ last s 0 = 46) l ->
               last (join (nl ++ nl) l) 0 = 46).
    { induction l as [|a l IH]; [contradiction|].
      intros _ Fl; inversion Fl as [|? ? [Ha La] Fl']; subst.
      destruct l as [|b l']; [exact La|].
      change (join (nl ++ nl) (a :: b :: l'))
        with (a ++ (nl ++ nl) ++ join (nl ++ nl) (b :: l')).
      inversion Fl' as [|? ? [Hb _] _]; subst.
      rewrite last_app_nonempty, last_app_nonempty;
        [apply IH; [discriminate|exact Fl']
        |apply join_nonempty; exact Hb
        |discriminate]. }
    apply G; [discriminate|].
    apply Forall_forall; intros s Hs.
    apply in_map_iff in Hs; destruct Hs as (n & <- & _).
    unfold no_changes; split; [discriminate|].
    rewrite app_assoc, last_app_nonempty; [reflexivity|discriminate]. }
  unfold section_blocks.
  assert (St : strip message = message).
  { unfold strip, strip_by.
    rewrite (lstrip_by_fixed isspace message)
      by (rewrite F; reflexivity).
    unfold rstrip_by.
    rewrite (lstrip_by_fixed isspace (rev message)), rev_involutive;
      [reflexivity|].
    destruct L as [Lne Ll].
    destruct (exists_last Lne) as (m' & c & Em).
    rewrite Em in Ll |- *; rewrite last_last in Ll; subst c.
    rewrite rev_app_distr; reflexivity. }
  rewrite St.
  assert (Nm : begins_with_name message = false); [|rewrite Nm, andb_false_r; reflexivity].
  unfold begins_with_name.
  assert (Hl : exists more,
             split nl message
             = (lit "*" ++ name ++ quiet_sentence_tail) :: more).
  { assert (Nn : ~ In newline (lit "*" ++ name ++ quiet_sentence_tail)).
    { intros H; apply in_app_or in H; destruct H as [H|H];
        [cbn in H; intuition discriminate|].
      apply in_app_or in H; destruct H as [H|H].
      - revert H; apply printable_not_in; [exact Pn|left; cbv; discriminate].
      - cbn in H; intuition discriminate. }
    rewrite F; destruct Hrest as [->|(rest' & ->)].
    - rewrite app_nil_r.
      rewrite (@split_without_separator nl _ newline eq_refl Nn).
      exists []; reflexivity.
    - rewrite split_first_line by exact Nn; eexists; reflexivity. }
  destruct Hl as (more & ->); cbn [first_line_is_name].
  apply andb_false_iff; right.
  unfold endswith; rewrite app_assoc, rev_app_distr; reflexivity.
Qed.

End PublisherMore.

Lemma quiet_run_posts_title_only_witness :
  Forall printable_name [lit "octo/app"; lit "octo/web"]
  /\ build_blocks
       (join (nl ++ nl) (List.map no_changes [lit "octo/app"; lit "octo/web"]))
       None
     = [Header (header_text None) true; Divider].
Proof.
  assert (H : Forall printable_name [lit "octo/app"; lit "octo/web"])
    by (repeat constructor; cbv; discriminate || reflexivity).
  split; [exact H|].
  exact (@quiet_run_posts_title_only (lit "octo/app") [lit "octo/web"] None H).
Defined.

(* ================================================================== *)
(** ** Further properties of the summarizer *)
(* ================================================================== *)

Section SummarizerMore.

Variable w : world.

Lemma format_items_extend (its : list json) (acc : str) :
  fold_left (format_item w) its acc
  = acc ++ concat (List.map (fun it => lit "  " ++ item_bullet ++ lit " "
                                        ++ py_str w it ++ nl) its).
Proof.
  revert acc; induction its as [|it its IH]; intros acc; cbn [fold_left].
  - cbn; now rewrite app_nil_r.
  - rewrite IH; unfold format_item; cbn [List.map concat].
    rewrite <- !app_assoc; reflexivity.
Qed.

Lemma format_category_extends (acc : str) (c : json) (s : str) :
  format_category w acc c = inr s -> exists t, s = acc ++ t.
Proof.
  unfold format_category; intros H.
  destruct (py_get c (lit "name") (JStr [])) as [|name]; [discriminate|].
  destruct (py_get c (lit "items") (JArr [])) as [|items]; [discriminate|].
  destruct (py_truthy w items).
  - destruct (py_iter items) as [|its]; [discriminate|].
    injection H as <-; rewrite format_items_extend, <- !app_assoc.
    eexists; reflexivity.
  - injection H as <-; exists []; now rewrite app_nil_r.
Qed.

Lemma format_categories_extend (cats : list json) :
  forall acc s, format_categories w acc cats = inr s -> exists t, s = acc ++ t.
Proof.
  induction cats as [|c cats IH]; intros acc s H; cbn [format_categories] in H.
  - injection H as <-; exists []; now rewrite app_nil_r.
  - destruct (format_category w acc c) as [|acc'] eqn:E; [discriminate|].
    destruct (format_category_extends _ _ E) as (t1 & ->).
    destruct (IH _ _ H) as (t2 & ->).
    exists (t1 ++ t2); now rewrite app_assoc.
Qed.

(** X10. Whatever happens, the text that the summarizer returns begins with
    the name of the repository between emphasis markers. *)
Theorem summary_begins_with_repository_name
  (repo prs_text : str) (tr : trace) :
  exists rest,
    fst (summarize_with_ai w repo prs_text tr)
    = Ok (lit "*" ++ repo ++ lit "*" ++ rest).
Proof.
  destruct (nothing_to_summarize prs_text) eqn:G.
  - rewrite summarize_skips by exact G; eexists; reflexivity.
  - rewrite summarize_asks by exact G; cbn [fst].
    unfold summary_of_answer.
    destruct (provider w tr (release_notes_prompt w)
                (user_prompt repo prs_text)) as [reply|e];
      [|eexists; reflexivity].
    destruct (parse_and_format w repo reply) as [err|s] eqn:E.
    + destruct (caught_by_parse_handler err); eexists; reflexivity.
    + unfold parse_and_format in E.
      destruct (json_loads (clean_reply reply)) as [data|]; [|discriminate].
      destruct (py_get data (lit "categories") (JArr [])) as [|cats];
        [discriminate|].
      destruct (py_iter cats) as [|cs]; [discriminate|].
      destruct (format_categories w (lit "*" ++ repo ++ lit "*" ++ nl) cs)
        as [|b] eqn:F; [discriminate|].
      injection E as <-.
      destruct (format_categories_extend _ _ F) as (t & ->).
      rewrite <- !app_assoc; eexists; reflexivity.
Qed.

(** X11. A reply that is a JSON text but not an object is not handled as a
    reply that cannot be decoded: the attribute error of [data.get] escapes
    the inner handler, and the summarizer returns the sentence that counts
    the pull requests. *)
Theorem non_object_reply_gives_count_sentence
  (repo prs_text : str) (tr : trace) (reply : str) (v : json) :
  provider_answered w repo prs_text tr (Ok reply) ->
  json_loads (clean_reply reply) = Some v ->
  (forall members, v <> JObj members) ->
  fst (summarize_with_ai w repo prs_text tr)
  = Ok (count_fallback repo prs_text).
Proof.
  intros H J Hv; rewrite (provider_answered_inv H); cbn [fst].
  unfold summary_of_answer, parse_and_format; rewrite J.
  destruct v; try reflexivity.
  exfalso; eapply Hv; reflexivity.
Qed.

(** The values that a loop cannot go over. *)
Definition not_iterable (v : json) : Prop :=
  match v with
  | JNull | JBool _ | JInt _ | JFloat _ => True
  | JStr _ | JArr _ | JObj _ => False
  end.

(** X12. When the reply is an object whose "categories" is null, a truth
    value or a number, the loop over it raises a type error, which the inner
    handler catches: the summarizer returns the raw reply under the name of
    the repository. *)
Theorem uniterable_categories_give_raw_text
  (repo prs_text : str) (tr : trace) (reply : str)
  (members : list (str * json)) :
  provider_answered w repo prs_text tr (Ok reply) ->
  json_loads (clean_reply reply) = Some (JObj members) ->
  not_iterable (dict_get (lit "categories") members (JArr [])) ->
  fst (summarize_with_ai w repo prs_text tr)
  = Ok (lit "*" ++ repo ++ lit "*:" ++ nl ++ nl ++ reply).
Proof.
  intros H J Hc; rewrite (provider_answered_inv H); cbn [fst].
  unfold summary_of_answer, parse_and_format; rewrite J.
  cbn [py_get].
  destruct (dict_get (lit "categories") members (JArr []));
    try contradiction; reflexivity.
Qed.

(** The texts of the items of a category: the members of a list of
    texts, the code points of a text, or the keys of an object. *)
Definition item_texts (items : json) (texts : list str) : Prop :=
  match items with
  | JArr l => l = List.map JStr texts
  | JStr s => texts = List.map (fun c => [c]) s
  | JObj ps => texts = dict_keys ps
  | JNull | JBool _ | JInt _ | JFloat _ => False
  end.

(** A category with this name (the empty name when there is none) and
    these item texts (none when there is no list). *)
Definition category_shape (c : json) (name : str) (texts : list str) : Prop :=
  exists members,
    c = JObj members
    /\ dict_get (lit "name") members (JStr []) = JStr name
    /\ item_texts (dict_get (lit "items") members (JArr [])) texts.

(** A document with these categories. *)
Definition document_shape (v : json) (cats : list (str * list str)) : Prop :=
  exists members cs,
    v = JObj members
    /\ dict_get (lit "categories") members (JArr []) = JArr cs
    /\ Forall2 (fun c nt => category_shape c (fst nt) (snd nt)) cs cats.

Definition render_item (text : str) : str :=
  lit "  " ++ item_bullet ++ lit " " ++ text ++ nl.

(** The lines of a category; a category without items has none. *)
Definition render_category (nt : str * list str) : str :=
  match snd nt with
  | [] => []
  | _ :: _ =>
      nl ++ bullet ++ lit " *" ++ fst nt ++ lit "*:" ++ nl
      ++ concat (List.map render_item (snd nt))
  end.

Definition render_summary (repo : str) (cats : list (str * list str)) : str :=
  lit "*" ++ repo ++ lit "*" ++ nl
  ++ concat (List.map render_category cats)
  ++ nl ++ divider ++ nl.

Lemma item_texts_iter (items : json) (texts : list str) :
  item_texts items texts ->
  py_truthy w items = match texts with [] => false | _ :: _ => true end
  /\ exists its, py_iter items = inr its
                 /\ List.map (py_str w) its = texts.
Proof.
  destruct items as [| | | |s|l|ps]; cbn [item_texts]; try contradiction;
    intros ->; cbn [py_truthy py_iter].
  - split; [destruct s; reflexivity|].
    eexists; split; [reflexivity|].
    rewrite !map_map; reflexivity.
  - split; [destruct texts; reflexivity|].
    eexists; split; [reflexivity|].
    rewrite map_map; cbn [py_str]; apply map_id.
  - split; [destruct ps as [|[k x] ps]; reflexivity|].
    eexists; split; [reflexivity|].
    rewrite map_map; cbn [py_str]; apply map_id.
Qed.

Lemma format_category_shape (acc : str) (c : json) (nt : str * list str) :
  category_shape c (fst nt) (snd nt) ->
  format_category w acc c = inr (acc ++ render_category nt).
Proof.
  intros (members & -> & Hn & Hi).
  unfold format_category; cbn [py_get]; rewrite Hn.
  destruct (item_texts_iter _ _ Hi) as (T & its & I & M).
  rewrite T; unfold render_category.
  destruct (snd nt) as [|t ts] eqn:E; [now rewrite app_nil_r|].
  rewrite I, format_items_extend; cbn [py_str].
  rewrite <- M, map_map, <- !app_assoc; reflexivity.
Qed.

Lemma format_categories_shape (cs : list json) (cats : list (str * list str)) :
  Forall2 (fun c nt => category_shape c (fst nt) (snd nt)) cs cats ->
  forall acc,
    format_categories w acc cs
    = inr (acc ++ concat (List.map render_category cats)).
Proof.
  induction 1 as [|c nt cs cats Hc _ IH]; intros acc;
    cbn [format_categories List.map concat].
  - now rewrite app_nil_r.
  - rewrite (@format_category_shape acc c nt Hc), IH, <- app_assoc;
      reflexivity.
Qed.

(** X13. The layout of a reply that decodes to a document of categories: the
    name line; for every category with at least one item, a blank line, the
    category line and one indented line for each item; a blank line, the
    divider line. A category without items leaves no trace. *)
Theorem document_is_laid_out
  (repo prs_text : str) (tr : trace) (reply : str) (v : json)
  (cats : list (str * list str)) :
  provider_answered w repo prs_text tr (Ok reply) ->
  json_loads (clean_reply reply) = Some v ->
  document_shape v cats ->
  fst (summarize_with_ai w repo prs_text tr) = Ok (render_summary repo cats).
Proof.
  intros H J (members & cs & -> & Hc & Hcs).
  rewrite (provider_answered_inv H); cbn [fst].
  unfold summary_of_answer, parse_and_format; rewrite J.
  cbn [py_get]; rewrite Hc; cbn [py_iter].
  rewrite (@format_categories_shape cs cats Hcs).
  unfold render_summary; rewrite <- !app_assoc; reflexivity.
Qed.

End SummarizerMore.

Definition world_replying (reply : str) : world :=
  sample_world fetch_app (Ok reply) (Ok (lit "1")).

Ltac answered :=
  eexists _, _; vm_compute; left; reflexivity.

Lemma non_object_reply_gives_count_sentence_witness :
  provider_answered (world_replying (lit "[1, 2]")) (lit "octo/app")
                    sample_text [] (Ok (lit "[1, 2]"))
  /\ json_loads (clean_reply (lit "[1, 2]")) = Some (JArr [JInt 1; JInt 2])
  /\ fst (summarize_with_ai (world_replying (lit "[1, 2]")) (lit "octo/app")
                            sample_text [])
     = Ok (lit "*octo/app*: 2 pull requests merged. See individual PRs for details.").
Proof.
  assert (H : provider_answered (world_replying (lit "[1, 2]"))
                (lit "octo/app") sample_text [] (Ok (lit "[1, 2]")))
    by answered.
  assert (J : json_loads (clean_reply (lit "[1, 2]"))
              = Some (JArr [JInt 1; JInt 2])) by (vm_compute; reflexivity).
  split; [exact H|split; [exact J|]].
  rewrite (@non_object_reply_gives_count_sentence _ _ _ _ _ _ H J);
    [vm_compute; reflexivity|discriminate].
Defined.

Definition null_categories : str := lit' "{'categories': null}".

Lemma uniterable_categories_give_raw_text_witness :
  provider_answered (world_replying null_categories) (lit "octo/app")
                    sample_text [] (Ok null_categories)
  /\ json_loads (clean_reply null_categories)
     = Some (JObj [(lit "categories", JNull)])
  /\ fst (summarize_with_ai (world_replying null_categories) (lit "octo/app")
                            sample_text [])
     = Ok (lit "*" ++ lit "octo/app" ++ lit "*:" ++ nl ++ nl
           ++ null_categories).
Proof.
  assert (H : provider_answered (world_replying null_categories)
                (lit "octo/app") sample_text [] (Ok null_categories))
    by answered.
  assert (J : json_loads (clean_reply null_categories)
              = Some (JObj [(lit "categories", JNull)]))
    by (vm_compute; reflexivity).
  split; [exact H|split; [exact J|]].
  exact (@uniterable_categories_give_raw_text _ _ _ _ _ _ H J I).
Defined.

(** A reply with a category whose items are a text, a category without
    items, and a category without a name. *)
Definition mixed_reply : str :=
  lit' "{'categories': [{'name': 'Fixes', 'items': 'ab'}, {'name': 'Empty', 'items': []}, {'items': ['x']}]}".

Definition mixed_categories : list (str * list str) :=
  [(lit "Fixes", [lit "a"; lit "b"]); (lit "Empty", []); ([], [lit "x"])].

Lemma document_is_laid_out_witness :
  provider_answered (world_replying mixed_reply) (lit "octo/app")
                    sample_text [] (Ok mixed_reply)
  /\ (exists v, json_loads (clean_reply mixed_reply) = Some v
                /\ document_shape v mixed_categories)
  /\ fst (summarize_with_ai (world_replying mixed_reply) (lit "octo/app")
                            sample_text [])
     = Ok (render_summary (lit "octo/app") mixed_categories).
Proof.
  assert (H : provider_answered (world_replying mixed_reply)
                (lit "octo/app") sample_text [] (Ok mixed_reply))
    by answered.
  assert (J : json_loads (clean_reply mixed_reply)
              = Some (JObj [(lit "categories",
                       JArr [JObj [(lit "name", JStr (lit "Fixes"));
                                   (lit "items", JStr (lit "ab"))];
                             JObj [(lit "name", JStr (lit "Empty"));
                                   (lit "items", JArr [])];
                             JObj [(lit "items", JArr [JStr (lit "x")])]])]))
    by (vm_compute; reflexivity).
  assert (D : document_shape
                (JObj [(lit "categories",
                       JArr [JObj [(lit "name", JStr (lit "Fixes"));
                                   (lit "items", JStr (lit "ab"))];
                             JObj [(lit "name", JStr (lit "Empty"));
                                   (lit "items", JArr [])];
                             JObj [(lit "items", JArr [JStr (lit "x")])]])])
                mixed_categories).
  { eexists _, _; split; [reflexivity|split; [reflexivity|]].
    repeat constructor; eexists; (split; [reflexivity|]);
      split; reflexivity. }
  split; [exact H|split; [eexists; split; [exact J|exact D]|]].
  exact (@document_is_laid_out _ _ _ _ _ _ _ H J D).
Defined.

(* ================================================================== *)
(** ** Further properties of the filter and the formatter *)
(* ================================================================== *)

Section FormatterMore.

Lemma filter_filter_same {A} (f : A -> bool) (l : list A) :
  filter f (filter f l) = filter f l.
Proof.
  induction l as [|x l IH]; [reflexivity|].
  cbn [filter]; destruct (f x) eqn:E; [|exact IH].
  cbn [filter]; rewrite E, IH; reflexivity.
Qed.

Lemma filter_filter_neg {A} (f : A -> bool) (l : list A) :
  filter f (filter (fun x => negb (f x)) l) = [].
Proof.
  induction l as [|x l IH]; [reflexivity|].
  cbn [filter]; destruct (f x) eqn:E; cbn [negb]; [exact IH|].
  cbn [filter]; rewrite E; exact IH.
Qed.

(** X14. Filtering the regular group again changes nothing: it holds no
    dependency update. *)
Theorem filter_prs_regular_is_stable (prs : list PullRequest) :
  filter_prs (regular (filter_prs prs))
  = mkFiltered (regular (filter_prs prs)) [].
Proof.
  unfold filter_prs; rewrite !filter_prs_fold; cbn [regular deps List.app].
  rewrite filter_filter_same.
  rewrite (filter_filter_neg (fun pr => deps_pattern_match (title pr))).
  reflexivity.
Qed.





End FormatterMore.

Section FormatterAndSummarizer.

Variable w : world.


End FormatterAndSummarizer.

Section MarkerCount.






End MarkerCount.


(* ================================================================== *)
(** ** The fetcher *)
(* ================================================================== *)

Module Fetcher.

Import PyStr Effects.

(** A pull request as the source-control host gives it in full. *)
Record pull : Type := mkPull {
  p_title : str;
  p_body : option str;
  p_number : Z;
  p_html_url : str;
  p_merged_at : option Z;
  p_labels : list str
}.

(** The client of the source-control host.  A search is read page by
    page while the loop runs: it gives numbers and may fail after
    them.  During one fetch the host answers a question the same way
    each time it is asked. *)
Record github_client : Type := mkClient {
  get_repo : str -> result unit;
  search_issues : str -> result (list Z * option exn);
  get_pull : str -> Z -> result pull;
  strftime_Y_m_d : Z -> str
}.

Definition search_query (gh : github_client) (repo_name : str) (since : Z)
  : str :=
  lit "repo:" ++ repo_name ++ lit " is:pr is:merged merged:>="
  ++ strftime_Y_m_d gh since.

(** The record made of a pull that has a merge time. *)
Definition record_of (repo_name : str) (full_pr : pull) (merged_at : Z)
  : PullRequest :=
  mkPullRequest (p_title full_pr)
                (match p_body full_pr with
                 | Some (c :: b) => c :: b
                 | Some [] | None => []
                 end)
                (p_number full_pr) (p_html_url full_pr) merged_at
                (p_labels full_pr) repo_name.

(** The loop over the results of the search. *)
Fixpoint collect (gh : github_client) (repo_name : str) (numbers : list Z)
         (failure : option exn) (pull_requests : list PullRequest)
  : result (list PullRequest) :=
  match numbers with
  | [] =>
      match failure with
      | Some e => Raise e
      | None => Ok pull_requests
      end
  | n :: rest =>
      match get_pull gh repo_name n with
      | Raise e => Raise e
      | Ok full_pr =>
          match p_merged_at full_pr with
          | None => collect gh repo_name rest failure pull_requests
          | Some merged_at =>
              collect gh repo_name rest failure
                      (pull_requests ++ [record_of repo_name full_pr merged_at])
          end
      end
  end.

(** [get_merged_prs]; every exception is logged and raised again. *)
Definition get_merged_prs (gh : github_client) (repo_name : str) (since : Z)
  : result (list PullRequest) :=
  match get_repo gh repo_name with
  | Raise e => Raise e
  | Ok _ =>
      match search_issues gh (search_query gh repo_name since) with
      | Raise e => Raise e
      | Ok (numbers, failure) => collect gh repo_name numbers failure []
      end
  end.

End Fetcher.

Section FetcherFacts.

Import Fetcher.

Variable gh : github_client.
Variable repo_name : str.

(** The records of the pulls that have a merge time. *)
Definition merged_records (pulls : list pull) : list PullRequest :=
  flat_map (fun p => match p_merged_at p with
                     | Some m => [record_of repo_name p m]
                     | None => []
                     end) pulls.



Lemma collect_complete (numbers : list Z) (pulls : list pull) :
  Forall2 (fun n p => get_pull gh repo_name n = Ok p) numbers pulls ->
  forall acc,
    collect gh repo_name numbers None acc = Ok (acc ++ merged_records pulls).
Proof.
  induction 1 as [|n p numbers pulls G _ IH]; intros acc; cbn [collect].
  - cbn; now rewrite app_nil_r.
  - rewrite G; cbn [merged_records flat_map].
    destruct (p_merged_at p) as [m|]; rewrite IH, <- ?app_assoc; reflexivity.
Qed.


Lemma fetch_raises_at_failing_pull
  (since : Z) (before after : list Z) (n : Z) (failure : option exn)
  (e : exn) (pulls : list pull) :
  get_repo gh repo_name = Ok tt ->
  search_issues gh (search_query gh repo_name since)
  = Ok (before ++ n :: after, failure) ->
  Forall2 (fun m p => get_pull gh repo_name m = Ok p) before pulls ->
  get_pull gh repo_name n = Raise e ->
  get_merged_prs gh repo_name since = Raise e.
Proof.
  intros R S F G; unfold get_merged_prs; rewrite R, S; clear R S.
  generalize (@nil PullRequest).
  induction F as [|m p before pulls Gm _ IH]; intros acc; cbn.
  - rewrite G; reflexivity.
  - rewrite Gm; destruct (p_merged_at p); apply IH.
Qed.

Lemma merged_records_none (pulls : list pull) :
  Forall (fun p => p_merged_at p = None) pulls -> merged_records pulls = [].
Proof.
  induction 1 as [|p pulls E _ IH]; [reflexivity|].
  cbn [merged_records flat_map]; rewrite E; exact IH.
Qed.

End FetcherFacts.

Section FetcherAndOrchestrator.

Import Fetcher.

Variable w : world.
Variable gh : github_client.

(** X18. When the details of one result of the search cannot be obtained,
    the entry of the repository is the error sentence with the message of
    that failure, whatever the other results are, also when that result
    would have been dropped for lack of a merge time; the provider is not
    asked about the repository. *)
Theorem failing_pull_gives_error_sentence
  (since : Z) (repo : str) (all_summaries : list str) (tr : trace)
  (before after : list Z) (n : Z) (failure : option exn) (e : exn)
  (pulls : list pull) :
  let name := strip repo in
  name <> [] ->
  github w tr name since = get_merged_prs gh name since ->
  get_repo gh name = Ok tt ->
  search_issues gh (search_query gh name since)
  = Ok (before ++ n :: after, failure) ->
  Forall2 (fun m p => get_pull gh name m = Ok p) before pulls ->
  get_pull gh name n = Raise e ->
  process_repos w since [repo] all_summaries tr
  = (Ok (all_summaries ++ [error_sentence name e]),
     tr ++ [Fetched name since (Raise e)]).
Proof.
  intros name Hname Hgh R S F G.
  assert (E : get_merged_prs gh name since = Raise e)
    by (eapply fetch_raises_at_failing_pull; eassumption).
  subst name; cbn [process_repos].
  destruct (strip repo) as [|c name] eqn:En; [congruence|].
  cbn [truthy negb]; unfold process_one, try_except, bind, call, ret.
  cbv beta zeta.
  rewrite Hgh, E; reflexivity.
Qed.

(** X19. When no result of the search has a merge time, the entry of the
    repository is the sentence for no changes and the provider is not asked.
    *)
Theorem unmerged_results_give_no_changes
  (since : Z) (repo : str) (all_summaries : list str) (tr : trace)
  (numbers : list Z) (pulls : list pull) :
  let name := strip repo in
  name <> [] ->
  github w tr name since = get_merged_prs gh name since ->
  get_repo gh name = Ok tt ->
  search_issues gh (search_query gh name since) = Ok (numbers, None) ->
  Forall2 (fun m p => get_pull gh name m = Ok p) numbers pulls ->
  Forall (fun p => p_merged_at p = None) pulls ->
  process_repos w since [repo] all_summaries tr
  = (Ok (all_summaries ++ [no_changes name]),
     tr ++ [Fetched name since (Ok [])]).
Proof.
  intros name Hname Hgh R S F U.
  assert (E : get_merged_prs gh name since = Ok []).
  { unfold get_merged_prs; rewrite R, S.
    erewrite collect_complete by eassumption.
    erewrite merged_records_none by eassumption; reflexivity. }
  subst name; cbn [process_repos].
  destruct (strip repo) as [|c name] eqn:En; [congruence|].
  cbn [truthy negb]; unfold process_one, try_except, bind, call, ret.
  cbv beta zeta.
  rewrite Hgh, E; reflexivity.
Qed.

End FetcherAndOrchestrator.

Import Fetcher.

(** A client of the host that lists the given numbers, cannot give the
    pull request numbered two, and knows no merge time for those
    numbered ten or more. *)
Definition sample_pull (n : Z) : pull :=
  mkPull (lit "Add login page") None n (lit "https://example.test/pull")
         (if (n <? 10)%Z then Some 0%Z else None) [lit "feature"].

Definition sample_client (numbers : list Z) : github_client :=
  mkClient
    (fun _ => Ok tt)
    (fun _ => Ok (numbers, None))
    (fun _ n => if (n =? 2)%Z then Raise boom else Ok (sample_pull n))
    (fun _ => lit "1970-01-01").

Definition world_fetching (numbers : list Z) : world :=
  mkWorld (fun _ repo since =>
             get_merged_prs (sample_client numbers) repo since)
          (fun _ _ _ => Ok (fenced features_payload))
          (fun _ _ _ _ _ => Ok (lit "1")) (fun _ _ _ => Ok tt)
          (lit "#releases") 0 0 (fun _ => lit "01 Jan 1970")
          (lit "instructions") (fun x => x) (fun x => x) (fun _ => false).

Lemma failing_pull_gives_error_sentence_witness :
  process_repos (world_fetching [1; 2; 3]%Z) (-604800000000)
                [lit " octo/app "] [] []
  = (Ok [lit "*octo/app*: Error processing repository - boom"],
     [Fetched (lit "octo/app") (-604800000000) (Raise boom)]).
Proof.
  refine (@failing_pull_gives_error_sentence
            (world_fetching [1; 2; 3]%Z) (sample_client [1; 2; 3]%Z)
            (-604800000000) (lit " octo/app ") [] [] [1%Z] [3%Z] 2%Z None boom
            [sample_pull 1] _ eq_refl eq_refl eq_refl _ eq_refl).
  - vm_compute; discriminate.
  - repeat constructor.
Defined.

Lemma unmerged_results_give_no_changes_witness :
  process_repos (world_fetching [11; 12]%Z) (-604800000000)
                [lit " octo/app "] [] []
  = (Ok [lit "*octo/app*: No changes in the specified time period."],
     [Fetched (lit "octo/app") (-604800000000) (Ok [])]).
Proof.
  refine (@unmerged_results_give_no_changes
            (world_fetching [11; 12]%Z) (sample_client [11; 12]%Z)
            (-604800000000) (lit " octo/app ") [] [] [11; 12]%Z
            [sample_pull 11; sample_pull 12] _ eq_refl eq_refl eq_refl _ _).
  - vm_compute; discriminate.
  - repeat constructor.
  - repeat constructor.
Defined.

(* ================================================================== *)
(** ** The provider adapters *)
(* ================================================================== *)

Module Provider.

Import PyStr Effects.

(** The two libraries. *)
Inductive kind : Type := OpenAI | Claude.

Record chat_message : Type := mkMessage { role : str; content : str }.

(** The clients of the two libraries.  A completion of the first gives
    the content of the message of each choice; a completion of the
    second gives, for each block of the content, its text if it has
    one.  A temperature is a fraction. *)
Record clients : Type := mkClients {
  chat_completions_create :
    str -> list chat_message -> Z -> Z * Z -> result (list (option str));
  messages_create :
    str -> Z -> Z * Z -> list chat_message -> result (list (option str));
  models_list : kind -> result unit
}.

(** What the host gives to the constructors: [str.lower], whether the
    library can be imported, and the constructor of its client (whose
    own failures are not import errors). *)
Record runtime : Type := mkRuntime {
  lower : str -> str;
  installed : kind -> bool;
  new_client : kind -> str -> result unit
}.

(** The two classes behind the one interface, each with its model. *)
Inductive ai_provider : Type :=
| OpenAIProvider (model : str)
| ClaudeProvider (model : str).

Definition default_max_tokens : Z := 500.

(** 0.3 *)
Definition default_temperature : Z * Z := (3, 10)%Z.

Definition unable : str := lit "Unable to generate summary.".

(** [response.choices[0]] of an empty list. *)
Definition index_error : exn := Exception (lit "list index out of range").

(** [OpenAIProvider.generate_summary]; every exception is logged and
    raised again. *)
Definition openai_generate_summary (cl : clients) (model : str)
           (system_prompt user_prompt : str) (max_tokens : Z)
           (temperature : Z * Z) : result str :=
  match chat_completions_create cl model
          [mkMessage (lit "system") system_prompt;
           mkMessage (lit "user") user_prompt]
          max_tokens temperature with
  | Raise e => Raise e
  | Ok [] => Raise index_error
  | Ok (summary :: _) =>
      match summary with
      | Some (c :: s) => Ok (strip (c :: s))
      | Some [] | None => Ok unable
      end
  end.

(** One turn of the loop over the blocks of the content. *)
Definition add_block (summary : str) (block : option str) : str :=
  match block with
  | Some text => summary ++ text
  | None => summary
  end.

(** [ClaudeProvider.generate_summary] *)
Definition claude_generate_summary (cl : clients) (model : str)
           (system_prompt user_prompt : str) (max_tokens : Z)
           (temperature : Z * Z) : result str :=
  let combined_prompt := system_prompt ++ [newline; newline] ++ user_prompt in
  match messages_create cl model max_tokens temperature
          [mkMessage (lit "user") combined_prompt] with
  | Raise e => Raise e
  | Ok content =>
      let summary := fold_left add_block content [] in
      if truthy summary then Ok (strip summary) else Ok unable
  end.

(** The call through the interface. *)
Definition generate_summary (cl : clients) (p : ai_provider)
           (system_prompt user_prompt : str) (max_tokens : Z)
           (temperature : Z * Z) : result str :=
  match p with
  | OpenAIProvider model =>
      openai_generate_summary cl model system_prompt user_prompt
                              max_tokens temperature
  | ClaudeProvider model =>
      claude_generate_summary cl model system_prompt user_prompt
                              max_tokens temperature
  end.

Definition kind_of (p : ai_provider) : kind :=
  match p with
  | OpenAIProvider _ => OpenAI
  | ClaudeProvider _ => Claude
  end.

(** [test_connection], the same in both classes: no exception leaves
    it. *)
Definition test_connection (cl : clients) (p : ai_provider) : bool :=
  match models_list cl (kind_of p) with
  | Ok _ => true
  | Raise _ => false
  end.

(** The constructors of the two classes. *)
Definition not_installed (k : kind) : exn :=
  match k with
  | OpenAI =>
      Exception (lit "OpenAI library not installed. Run: pip install openai")
  | Claude =>
      Exception
        (lit "Anthropic library not installed. Run: pip install anthropic")
  end.

Definition new_provider (rt : runtime) (k : kind) (api_key model : str)
  : result ai_provider :=
  if installed rt k then
    match new_client rt k api_key with
    | Raise e => Raise e
    | Ok _ =>
        Ok (match k with
            | OpenAI => OpenAIProvider model
            | Claude => ClaudeProvider model
            end)
    end
  else Raise (not_installed k).

(** [model or default] *)
Definition model_or (model : option str) (default : str) : str :=
  match model with
  | Some (c :: m) => c :: m
  | Some [] | None => default
  end.

Definition unsupported (provider : str) : exn :=
  Exception (lit "Unsupported AI provider: " ++ provider
             ++ lit ". Supported providers: openai, claude").

(** [create_ai_provider] *)
Definition create_ai_provider (rt : runtime) (provider api_key : str)
           (model : option str) : result ai_provider :=
  if eqb_str (lower rt provider) (lit "openai") then
    new_provider rt OpenAI api_key (model_or model (lit "gpt-4o-mini"))
  else if eqb_str (lower rt provider) (lit "claude") then
    new_provider rt Claude api_key
                 (model_or model (lit "claude-3-haiku-20240307"))
  else Raise (unsupported provider).

End Provider.

Import Provider.

Section AdapterFacts.

Variable cl : clients.

(** The request that each class sends. *)
Definition client_request (p : ai_provider) (system_prompt user_prompt : str)
           (max_tokens : Z) (temperature : Z * Z)
  : result (list (option str)) :=
  match p with
  | OpenAIProvider model =>
      chat_completions_create cl model
        [mkMessage (lit "system") system_prompt;
         mkMessage (lit "user") user_prompt] max_tokens temperature
  | ClaudeProvider model =>
      messages_create cl model max_tokens temperature
        [mkMessage (lit "user")
                   (system_prompt ++ [newline; newline] ++ user_prompt)]
  end.

(** The text that each class reads in an answer: the content of the
    first choice, or the texts of the blocks one after the other. *)
Definition reply_content (p : ai_provider) (answer : list (option str))
  : option str :=
  match p with
  | OpenAIProvider _ =>
      match answer with
      | [] => None
      | Some s :: _ => Some s
      | None :: _ => Some []
      end
  | ClaudeProvider _ =>
      Some (concat (flat_map (fun b => match b with
                                       | Some t => [t]
                                       | None => []
                                       end) answer))
  end.

Lemma fold_add_block (answer : list (option str)) (acc : str) :
  fold_left add_block answer acc
  = acc ++ concat (flat_map (fun b => match b with
                                      | Some t => [t]
                                      | None => []
                                      end) answer).
Proof.
  revert acc; induction answer as [|[t|] answer IH]; intros acc; cbn.
  - now rewrite app_nil_r.
  - rewrite IH, app_assoc; reflexivity.
  - apply IH.
Qed.

Lemma generate_summary_reads (p : ai_provider) (sys usr : str) (mt : Z)
      (temp : Z * Z) (answer : list (option str)) (text : str) :
  client_request p sys usr mt temp = Ok answer ->
  reply_content p answer = Some text ->
  generate_summary cl p sys usr mt temp
  = Ok (if truthy text then strip text else unable).
Proof.
  destruct p as [model|model]; cbn [client_request reply_content];
    unfold generate_summary, openai_generate_summary, claude_generate_summary;
    intros -> E.
  - destruct answer as [|[[|c s]|] rest]; inversion E; subst; reflexivity.
  - injection E as <-; cbv zeta; rewrite fold_add_block; cbn [List.app].
    destruct (truthy _); reflexivity.
Qed.

Lemma strip_blank (s : str) : forallb isspace s = true -> strip s = [].
Proof.
  intros H; unfold strip, strip_by.
  assert (L : lstrip_by isspace s = []).
  { induction s as [|c s IH]; [reflexivity|].
    cbn in H |- *; apply andb_prop in H as [-> H]; auto. }
  rewrite L; reflexivity.
Qed.

(** X20. Whatever the client answers, a text returned by either adapter has
    no white space at its ends: stripping it changes nothing. *)
Theorem generated_summary_is_trimmed
  (p : ai_provider) (sys usr : str) (mt : Z) (temp : Z * Z) (s : str) :
  generate_summary cl p sys usr mt temp = Ok s -> strip s = s.
Proof.
  assert (U : strip unable = unable) by (vm_compute; reflexivity).
  destruct p as [model|model];
    unfold generate_summary, openai_generate_summary, claude_generate_summary.
  - destruct (chat_completions_create cl model _ mt temp)
      as [[|[[|c t]|] rest]|e]; intros H; inversion H; subst;
      [exact U|apply strip_by_idem|exact U].
  - cbv zeta.
    destruct (messages_create cl model mt temp _) as [content|e];
      [|discriminate].
    destruct (truthy (fold_left add_block content [])); intros H;
      inversion H; subst; [apply strip_by_idem|exact U].
Qed.

End AdapterFacts.

Section AdapterAndSummarizer.

Variable w : world.
Variable cl : clients.
Variable p : ai_provider.

(** The summarizer's request goes through the adapter, with the default
    limits. *)
Definition asks_through_adapter (repo prs_text : str) (tr : trace) : Prop :=
  provider w tr (release_notes_prompt w) (user_prompt repo prs_text)
  = generate_summary cl p (release_notes_prompt w)
                     (user_prompt repo prs_text)
                     default_max_tokens default_temperature.

(** The answer of the client to that request. *)
Definition client_answers (repo prs_text : str)
           (answer : list (option str)) : Prop :=
  client_request cl p (release_notes_prompt w) (user_prompt repo prs_text)
                 default_max_tokens default_temperature
  = Ok answer.

Lemma summarize_through_adapter (repo prs_text : str) (tr : trace)
      (answer : list (option str)) (text : str) :
  nothing_to_summarize prs_text = false ->
  asks_through_adapter repo prs_text tr ->
  client_answers repo prs_text answer ->
  reply_content p answer = Some text ->
  let reply := if truthy text then strip text else unable in
  summarize_with_ai w repo prs_text tr
  = (Ok (summary_of_answer w repo prs_text (Ok reply)),
     tr ++ [Asked (release_notes_prompt w) (user_prompt repo prs_text)
                  (Ok reply)]).
Proof.
  intros G A C R reply.
  rewrite summarize_asks by exact G; cbv zeta.
  rewrite A, (generate_summary_reads _ _ _ _ _ _ C R); reflexivity.
Qed.

(** X21. When the answer of the client holds no text (no content in the
    first choice, or no block with a text), the summary of the repository is
    its name followed by the sentence "Unable to generate summary.": the
    sentence is not a JSON text and takes the path of a reply that cannot be
    decoded. *)
Theorem empty_reply_is_reported_under_name
  (repo prs_text : str) (tr : trace) (answer : list (option str)) :
  nothing_to_summarize prs_text = false ->
  asks_through_adapter repo prs_text tr ->
  client_answers repo prs_text answer ->
  reply_content p answer = Some [] ->
  summarize_with_ai w repo prs_text tr
  = (Ok (lit "*" ++ repo ++ lit "*:" ++ nl ++ nl
         ++ lit "Unable to generate summary."),
     tr ++ [Asked (release_notes_prompt w) (user_prompt repo prs_text)
                  (Ok (lit "Unable to generate summary."))]).
Proof.
  intros G A C R.
  rewrite (summarize_through_adapter G A C R); reflexivity.
Qed.

(** X22. When the answer of the client is made of white space only, the
    adapter returns the empty text and not its sentence: the summary of the
    repository is its name and nothing after it. *)
Theorem blank_reply_gives_bare_name
  (repo prs_text : str) (tr : trace) (answer : list (option str))
  (text : str) :
  nothing_to_summarize prs_text = false ->
  asks_through_adapter repo prs_text tr ->
  client_answers repo prs_text answer ->
  reply_content p answer = Some text ->
  text <> [] ->
  forallb isspace text = true ->
  summarize_with_ai w repo prs_text tr
  = (Ok (lit "*" ++ repo ++ lit "*:" ++ nl ++ nl),
     tr ++ [Asked (release_notes_prompt w) (user_prompt repo prs_text)
                  (Ok [])]).
Proof.
  intros G A C R N B.
  rewrite (summarize_through_adapter G A C R).
  apply truthy_true in N as ->; rewrite (strip_blank _ B).
  unfold summary_of_answer, parse_and_format.
  replace (json_loads (clean_reply [])) with (@None json)
    by (vm_compute; reflexivity).
  cbn [caught_by_parse_handler]; unfold raw_fallback.
  rewrite !app_assoc, app_nil_r; reflexivity.
Qed.

(** X23. When the first library answers without any choice, taking the first
    choice raises; the adapter lets the exception through and the summary is
    the sentence that counts the pull requests. *)
Theorem reply_without_choices_gives_count_sentence
  (repo prs_text : str) (tr : trace) :
  nothing_to_summarize prs_text = false ->
  asks_through_adapter repo prs_text tr ->
  client_answers repo prs_text [] ->
  kind_of p = OpenAI ->
  summarize_with_ai w repo prs_text tr
  = (Ok (count_fallback repo prs_text),
     tr ++ [Asked (release_notes_prompt w) (user_prompt repo prs_text)
                  (Raise index_error)]).
Proof.
  intros G A C K.
  rewrite summarize_asks by exact G; cbv zeta; rewrite A.
  unfold client_answers, client_request in C; revert C K.
  unfold generate_summary, openai_generate_summary.
  destruct p as [model|model]; [|discriminate].
  intros -> _; reflexivity.
Qed.

End AdapterAndSummarizer.

(** Clients that always give the same answers, and a world whose
    provider is an adapter over them. *)
Definition sample_clients (choices blocks : list (option str)) : clients :=
  mkClients (fun _ _ _ _ => Ok choices) (fun _ _ _ _ => Ok blocks)
            (fun _ => Ok tt).

Definition world_through (cl : clients) (p : ai_provider) : world :=
  mkWorld (fun _ repo _ => fetch_app repo)
          (fun _ sys usr =>
             generate_summary cl p sys usr
                              default_max_tokens default_temperature)
          (fun _ _ _ _ _ => Ok (lit "1")) (fun _ _ _ => Ok tt)
          (lit "#releases") 0 0 (fun _ => lit "01 Jan 1970")
          (lit "instructions") (fun x => x) (fun x => x) (fun _ => false).

Definition padded_blocks : list (option str) :=
  [Some (lit "  Added"); None; Some (lit " X "); Some []].

Definition blank_blocks : list (option str) :=
  [Some (lit " "); None; Some [newline]].

Lemma generated_summary_is_trimmed_witness :
  generate_summary (sample_clients [] padded_blocks)
                   (ClaudeProvider (lit "claude-3-haiku-20240307"))
                   (lit "instructions") (lit "text")
                   default_max_tokens default_temperature
  = Ok (lit "Added X")
  /\ strip (lit "Added X") = lit "Added X".
Proof.
  assert (E : generate_summary (sample_clients [] padded_blocks)
                (ClaudeProvider (lit "claude-3-haiku-20240307"))
                (lit "instructions") (lit "text")
                default_max_tokens default_temperature
              = Ok (lit "Added X")) by (vm_compute; reflexivity).
  split; [exact E|].
  exact (@generated_summary_is_trimmed _ _ _ _ _ _ _ E).
Defined.

Lemma empty_reply_is_reported_under_name_witness :
  summarize_with_ai
    (world_through (sample_clients [None; Some (lit "late")] [])
                   (OpenAIProvider (lit "gpt-4o-mini")))
    (lit "octo/app") sample_text []
  = (Ok (lit "*octo/app*:" ++ nl ++ nl ++ lit "Unable to generate summary."),
     [Asked (lit "instructions") (user_prompt (lit "octo/app") sample_text)
            (Ok (lit "Unable to generate summary."))]).
Proof.
  refine (@empty_reply_is_reported_under_name
            (world_through (sample_clients [None; Some (lit "late")] [])
                           (OpenAIProvider (lit "gpt-4o-mini")))
            (sample_clients [None; Some (lit "late")] [])
            (OpenAIProvider (lit "gpt-4o-mini"))
            (lit "octo/app") sample_text [] [None; Some (lit "late")]
            _ eq_refl eq_refl eq_refl).
  vm_compute; reflexivity.
Defined.

Lemma blank_reply_gives_bare_name_witness :
  summarize_with_ai
    (world_through (sample_clients [] blank_blocks)
                   (ClaudeProvider (lit "claude-3-haiku-20240307")))
    (lit "octo/app") sample_text []
  = (Ok (lit "*octo/app*:" ++ nl ++ nl),
     [Asked (lit "instructions") (user_prompt (lit "octo/app") sample_text)
            (Ok [])]).
Proof.
  refine (@blank_reply_gives_bare_name
            (world_through (sample_clients [] blank_blocks)
                           (ClaudeProvider (lit "claude-3-haiku-20240307")))
            (sample_clients [] blank_blocks)
            (ClaudeProvider (lit "claude-3-haiku-20240307"))
            (lit "octo/app") sample_text [] blank_blocks
            (lit " " ++ [newline])
            _ eq_refl eq_refl eq_refl _ _).
  - vm_compute; reflexivity.
  - discriminate.
  - vm_compute; reflexivity.
Defined.

Lemma reply_without_choices_gives_count_sentence_witness :
  summarize_with_ai
    (world_through (sample_clients [] [])
                   (OpenAIProvider (lit "gpt-4o-mini")))
    (lit "octo/app") sample_text []
  = (Ok (lit "*octo/app*: 2 pull requests merged. See individual PRs for details."),
     [Asked (lit "instructions") (user_prompt (lit "octo/app") sample_text)
            (Raise (Exception (lit "list index out of range")))]).
Proof.
  refine (@reply_without_choices_gives_count_sentence
            (world_through (sample_clients [] [])
                           (OpenAIProvider (lit "gpt-4o-mini")))
            (sample_clients [] [])
            (OpenAIProvider (lit "gpt-4o-mini"))
            (lit "octo/app") sample_text [] _ eq_refl eq_refl eq_refl).
  vm_compute; reflexivity.
Defined.

(* ================================================================== *)
(** ** The entry point *)
(* ================================================================== *)

Module Startup.

Import PyStr Effects Gen.

(** The three tests of a connection that the constructor of the
    generator makes. *)
Inductive check : Type := CheckedGithub | CheckedSlack | CheckedProvider.

(** The process as [main] finds it: its environment and its parsed
    arguments, the host, the answers to the tests of the connections,
    and the services of a run.  The clients of the provider and of the
    source-control host answer after the events so far; [rest] is the
    remainder of the outside world (chat platform, file system, clock
    and host functions). *)
Record process : Type := mkProcess {
  getenv : str -> option str;
  repos_arg : str;
  days_back_arg : Z;
  rt : runtime;
  get_user_login : result str;
  auth_test : result unit;
  ai_clients : trace -> clients;
  github_at : trace -> github_client;
  rest : world
}.

(** What the constructor keeps. *)
Record generator : Type := mkGenerator {
  g_slack_channel : str;
  g_ai_provider : ai_provider
}.

Definition connection_failed : exn :=
  Exception (lit "AI provider connection failed").

(** [_test_connections]: every exception is logged and raised again. *)
Definition _test_connections (pr : process) (p : ai_provider)
  : result unit * list check :=
  match get_user_login pr with
  | Raise e => (Raise e, [CheckedGithub])
  | Ok _ =>
      match auth_test pr with
      | Raise e => (Raise e, [CheckedGithub; CheckedSlack])
      | Ok _ =>
          if test_connection (ai_clients pr []) p
          then (Ok tt, [CheckedGithub; CheckedSlack; CheckedProvider])
          else (Raise connection_failed,
                [CheckedGithub; CheckedSlack; CheckedProvider])
      end
  end.

(** The constructor of the generator.  The clients of the chat platform
    and of the source-control host are built without a call. *)
Definition __init__ (pr : process)
           (slack_bot_token slack_channel ai_provider ai_api_key
            github_token : str) (ai_model : option str)
  : result generator * list check :=
  match create_ai_provider (rt pr) ai_provider ai_api_key ai_model with
  | Raise e => (Raise e, [])
  | Ok p =>
      match _test_connections pr p with
      | (Raise e, checks) => (Raise e, checks)
      | (Ok _, checks) => (Ok (mkGenerator slack_channel p), checks)
      end
  end.

(** The outside world of the run of a generator. *)
Definition world_of (pr : process) (g : generator) : world :=
  mkWorld
    (fun tr repo_name since => get_merged_prs (github_at pr tr) repo_name since)
    (fun tr system_prompt user_prompt =>
       generate_summary (ai_clients pr tr) (g_ai_provider g)
                        system_prompt user_prompt
                        default_max_tokens default_temperature)
    (slack (rest pr)) (filesystem (rest pr)) (g_slack_channel g)
    (now_start (rest pr)) (now_end (rest pr)) (strftime_d_b_Y (rest pr))
    (release_notes_prompt (rest pr)) (float_str (rest pr))
    (str_repr (rest pr)) (float_is_zero (rest pr)).

(** How [main] ends: it returns, or it leaves through [sys.exit]. *)
Inductive ending : Type := Returned | Exited (status : Z).

(** Truth value of a variable of the environment. *)
Definition present (v : option str) : bool :=
  match v with
  | Some (_ :: _) => true
  | Some [] | None => false
  end.

Definition value (v : option str) : str :=
  match v with
  | Some s => s
  | None => []
  end.

(** The list of names read in the argument. *)
Definition parse_repos (repos : str) : list str :=
  List.map strip
           (filter (fun repo => truthy (strip repo)) (split (lit ",") repos)).

(** [main]: its ending, the tests of connections made, and the events
    of the run. *)
Definition main (pr : process) : ending * list check * trace :=
  let slack_bot_token := getenv pr (lit "SLACK_BOT_TOKEN") in
  let slack_channel := getenv pr (lit "SLACK_CHANNEL") in
  let ai_provider :=
    lower (rt pr) (match getenv pr (lit "AI_PROVIDER") with
                   | Some v => v
                   | None => lit "openai"
                   end) in
  let openai_api_key := getenv pr (lit "OPENAI_API_KEY") in
  let anthropic_api_key := getenv pr (lit "ANTHROPIC_API_KEY") in
  let github_token := getenv pr (lit "GITHUB_TOKEN") in
  if negb (present slack_bot_token) then (Exited 1, [], [])
  else if negb (present slack_channel) then (Exited 1, [], [])
  else if negb (present github_token) then (Exited 1, [], [])
  else
    let ai_api_key :=
      if eqb_str ai_provider (lit "openai") then
        if negb (present openai_api_key) then None else openai_api_key
      else if eqb_str ai_provider (lit "claude") then
        if negb (present anthropic_api_key) then None else anthropic_api_key
      else None in
    match ai_api_key with
    | None => (Exited 1, [], [])
    | Some ai_api_key =>
        let repos := parse_repos (repos_arg pr) in
        match repos with
        | [] => (Exited 1, [], [])
        | _ :: _ =>
            match __init__ pr (value slack_bot_token) (value slack_channel)
                           ai_provider ai_api_key (value github_token) None
            with
            | (Raise _, checks) => (Exited 1, checks, [])
            | (Ok g, checks) =>
                match generate_release_notes (world_of pr g) repos
                                             (days_back_arg pr) [] with
                | (Ok _, tr) => (Returned, checks, tr)
                | (Raise _, tr) => (Exited 1, checks, tr)
                end
            end
        end
    end.

End Startup.

Import Startup.

Section ParsedNames.

(** The pieces of a split at one code point do not hold it. *)
Lemma split_go_pieces (c : N) (s : str) :
  Forall (fun p => ~ In c p)
         (let (p, ps) := split_go [c] 0 s in p :: ps).
Proof.
  induction s as [|x t IH]; cbn [split_go].
  - constructor; [intros []|constructor].
  - cbn [startswith List.length Nat.pred].
    destruct (split_go [c] 0 t) as [p ps].
    destruct (N.eqb_spec c x) as [->|Hx]; cbn [andb].
    + destruct t; constructor; try (intros []); exact IH.
    + destruct t.
      * inversion IH as [|? ? Hp Hps]; subst.
        constructor; [|exact Hps].
        intros [E|H]; [congruence|exact (Hp H)].
      * inversion IH as [|? ? Hp Hps]; subst.
        constructor; [|exact Hps].
        intros [E|H]; [congruence|exact (Hp H)].
Qed.

Lemma in_strip (s : str) (c : N) : In c (strip s) -> In c s.
Proof.
  intros H; destruct (strip_by_decompose isspace s) as (l & r & E & _).
  rewrite E; apply in_or_app; right; apply in_or_app; left; exact H.
Qed.

(** The names read in the argument are not empty, have no white space
    at their ends and hold no comma. *)
Definition well_formed_name (name : str) : Prop :=
  name <> [] /\ strip name = name /\ ~ In 44%N name.

Lemma parse_repos_well_formed (repos : str) :
  Forall well_formed_name (parse_repos repos).
Proof.
  unfold parse_repos.
  pose proof (split_go_pieces 44 repos) as P.
  unfold split; change (lit ",") with [44%N].
  destruct (split_go [44%N] 0 repos) as [p ps].
  induction P as [|q qs Hq _ IH]; [constructor|].
  cbn [filter].
  destruct (truthy (strip q)) eqn:T; [|exact IH].
  cbn [List.map]; constructor; [|exact IH].
  split; [apply truthy_true; exact T|].
  split; [apply strip_by_idem|].
  intros H; apply Hq, in_strip, H.
Qed.

Lemma worked_names_well_formed (names : list str) :
  Forall well_formed_name names -> worked_names names = names.
Proof.
  unfold worked_names.
  induction 1 as [|q qs (Hq & Sq & _) _ IH]; [reflexivity|].
  cbn [List.map filter]; rewrite Sq.
  apply truthy_true in Hq as ->; rewrite IH; reflexivity.
Qed.

(** X24. Every name that [main] reads in its argument is worked on by the
    loop of the run as it is: the loop fetches the names read, each once and
    in their order, and returns one summary for each of them. *)
Theorem parsed_names_are_all_worked_on
  (w : world) (repos : str) (since : Z) (tr : trace) :
  let names := parse_repos repos in
  exists summaries evs,
    process_repos w since names [] tr = (Ok summaries, tr ++ evs)
    /\ flat_map fetched_name evs = names
    /\ List.length summaries = List.length names.
Proof.
  cbv zeta.
  destruct (process_repos_account w since (parse_repos repos) [] tr)
    as (l & evs & E & L & Fn & _).
  rewrite (worked_names_well_formed (parse_repos_well_formed repos)) in *.
  exists l, evs; auto.
Qed.

Lemma split_go_name (c : N) (p t : str) :
  ~ In c p ->
  split_go [c] 0 (p ++ c :: t)
  = (p, let (q, qs) := split_go [c] 0 t in q :: qs).
Proof.
  induction p as [|x p IH]; intros Hp.
  - cbn [List.app split_go startswith List.length Nat.pred].
    rewrite N.eqb_refl; reflexivity.
  - cbn [List.app split_go startswith].
    destruct (N.eqb_spec c x) as [->|_]; [exfalso; apply Hp; left; reflexivity|].
    cbn [andb]; rewrite IH; [reflexivity|].
    intros H; apply Hp; right; exact H.
Qed.

Lemma split_join_names (c : N) (names : list str) :
  names <> [] ->
  Forall (fun name => ~ In c name) names ->
  split [c] (join [c] names) = names.
Proof.
  induction names as [|p rest IH]; [congruence|]; intros _ F.
  inversion F as [|? ? Hp Hrest]; subst.
  destruct rest as [|q rest].
  - cbn [join]; apply (@split_without_separator [c] p c); [reflexivity|exact Hp].
  - change (join [c] (p :: q :: rest)) with (p ++ c :: join [c] (q :: rest)).
    unfold split at 1; rewrite split_go_name by exact Hp.
    fold (split [c] (join [c] (q :: rest))).
    rewrite IH; [reflexivity|discriminate|exact Hrest].
Qed.

(** X25. Names that are not empty, have no white space at their ends and
    hold no comma are read back as they are from their list joined by
    commas. *)
Theorem joined_names_are_read_back (names : list str) :
  Forall well_formed_name names ->
  parse_repos (join (lit ",") names) = names.
Proof.
  intros F; destruct names as [|p rest]; [reflexivity|].
  unfold parse_repos; change (lit ",") with [44%N].
  rewrite split_join_names;
    [|discriminate
     |eapply Forall_impl; [|exact F]; cbv beta; intros a H; apply H].
  induction F as [|q qs (Hq & Sq & _) _ IH]; [reflexivity|].
  cbn [filter]; rewrite Sq.
  apply truthy_true in Hq as ->; cbn [List.map]; rewrite Sq, IH; reflexivity.
Qed.

End ParsedNames.

Lemma joined_names_are_read_back_witness :
  parse_repos (lit "octo/app,octo/web") = [lit "octo/app"; lit "octo/web"].
Proof.
  refine (@joined_names_are_read_back [lit "octo/app"; lit "octo/web"] _).
  repeat constructor; try discriminate;
    intros H; vm_compute in H; intuition discriminate.
Defined.

Section MainFacts.

Variable pr : process.

(** The provider that the environment names, in lower case. *)
Definition named_provider : str :=
  lower (rt pr) (match getenv pr (lit "AI_PROVIDER") with
                 | Some v => v
                 | None => lit "openai"
                 end).

(** The settings that [main] asks for: the three tokens, a supported
    provider and the key of that provider. *)
Definition settings_ok : bool :=
  present (getenv pr (lit "SLACK_BOT_TOKEN"))
  && present (getenv pr (lit "SLACK_CHANNEL"))
  && present (getenv pr (lit "GITHUB_TOKEN"))
  && ((eqb_str named_provider (lit "openai")
       && present (getenv pr (lit "OPENAI_API_KEY")))
      || (eqb_str named_provider (lit "claude")
          && present (getenv pr (lit "ANTHROPIC_API_KEY")))).

(** The key that goes with the named provider. *)
Definition named_key : option str :=
  if eqb_str named_provider (lit "openai")
  then getenv pr (lit "OPENAI_API_KEY")
  else getenv pr (lit "ANTHROPIC_API_KEY").

Definition ending_of (r : result unit) : ending :=
  match r with
  | Ok _ => Returned
  | Raise _ => Exited 1
  end.

Definition all_checks : list check :=
  [CheckedGithub; CheckedSlack; CheckedProvider].

Definition channel : str := value (getenv pr (lit "SLACK_CHANNEL")).

(** [main] exits before the run, or it runs the generator that it
    built. *)
Lemma main_cases :
  (exists checks, main pr = (Exited 1, checks, []))
  \/ exists key p,
      settings_ok = true
      /\ parse_repos (repos_arg pr) <> []
      /\ named_key = Some key
      /\ create_ai_provider (rt pr) named_provider key None = Ok p
      /\ _test_connections pr p = (Ok tt, all_checks)
      /\ main pr
         = (let (r, tr) :=
              generate_release_notes
                (world_of pr (mkGenerator channel p))
                (parse_repos (repos_arg pr)) (days_back_arg pr) [] in
            (ending_of r, all_checks, tr)).
Proof.
  unfold main, settings_ok, named_key; fold named_provider; cbv zeta.
  destruct (present (getenv pr (lit "SLACK_BOT_TOKEN")));
    cbn [negb andb]; [|left; eauto].
  destruct (present (getenv pr (lit "SLACK_CHANNEL")));
    cbn [negb andb]; [|left; eauto].
  destruct (present (getenv pr (lit "GITHUB_TOKEN")));
    cbn [negb andb]; [|left; eauto].
  assert (K : forall v, present v = true -> exists k, v = Some k).
  { intros [k|]; [eauto|discriminate]. }
  destruct (eqb_str named_provider (lit "openai")) eqn:Eo; cbn [andb orb].
  - destruct (present (getenv pr (lit "OPENAI_API_KEY"))) eqn:Po;
      cbn [negb]; [|left; eauto].
    destruct (K _ Po) as (key & Ek); rewrite Ek.
    destruct (parse_repos (repos_arg pr)) as [|n ns] eqn:En; [left; eauto|].
    unfold __init__.
    destruct (create_ai_provider (rt pr) named_provider key None)
      as [p|e] eqn:Ec; [|left; eauto].
    unfold _test_connections.
    destruct (get_user_login pr); [|left; eauto].
    destruct (auth_test pr); [|left; eauto].
    destruct (test_connection (ai_clients pr []) p) eqn:Tc; [|left; eauto].
    right; exists key, p; fold channel.
    split; [reflexivity|split; [discriminate|]].
    split; [first [reflexivity|exact Ek]|split; [exact Ec|]].
    split; [rewrite Tc; reflexivity|].
    destruct (generate_release_notes _ _ _ _) as [[[]|e] tr]; reflexivity.
  - destruct (eqb_str named_provider (lit "claude")) eqn:Ecl; cbn [andb];
      [|left; eauto].
    destruct (present (getenv pr (lit "ANTHROPIC_API_KEY"))) eqn:Pa;
      cbn [negb]; [|left; eauto].
    destruct (K _ Pa) as (key & Ek); rewrite Ek.
    destruct (parse_repos (repos_arg pr)) as [|n ns] eqn:En; [left; eauto|].
    unfold __init__.
    destruct (create_ai_provider (rt pr) named_provider key None)
      as [p|e] eqn:Ec; [|left; eauto].
    unfold _test_connections.
    destruct (get_user_login pr); [|left; eauto].
    destruct (auth_test pr); [|left; eauto].
    destruct (test_connection (ai_clients pr []) p) eqn:Tc; [|left; eauto].
    right; exists key, p; fold channel.
    split; [reflexivity|split; [discriminate|]].
    split; [first [reflexivity|exact Ek]|split; [exact Ec|]].
    split; [rewrite Tc; reflexivity|].
    destruct (generate_release_notes _ _ _ _) as [[[]|e] tr]; reflexivity.
Qed.

(** X26. When a required setting is missing or empty, the provider is not a
    supported one, the key of the named provider is missing, or the argument
    holds no name, [main] exits with status 1 before any test of a
    connection and before any fetch, request, post or write. *)
Theorem invalid_settings_exit_before_any_call :
  settings_ok = false \/ parse_repos (repos_arg pr) = [] ->
  main pr = (Exited 1, [], []).
Proof.
  unfold main, settings_ok; fold named_provider; cbv zeta.
  destruct (present (getenv pr (lit "SLACK_BOT_TOKEN")));
    cbn [negb andb]; [|reflexivity].
  destruct (present (getenv pr (lit "SLACK_CHANNEL")));
    cbn [negb andb]; [|reflexivity].
  destruct (present (getenv pr (lit "GITHUB_TOKEN")));
    cbn [negb andb]; [|reflexivity].
  destruct (eqb_str named_provider (lit "openai")); cbn [andb orb].
  - destruct (getenv pr (lit "OPENAI_API_KEY")) as [[|c k]|];
      cbn [present negb]; try reflexivity.
    intros [H | ->]; [discriminate|reflexivity].
  - destruct (eqb_str named_provider (lit "claude")); cbn [andb];
      [|reflexivity].
    destruct (getenv pr (lit "ANTHROPIC_API_KEY")) as [[|c k]|];
      cbn [present negb]; try reflexivity.
    intros [H | ->]; [discriminate|reflexivity].
Qed.

(** X27. When one of the three tests of a connection fails, [main] exits
    with status 1 and nothing is fetched, asked, posted or written,
    whatever the other settings and the argument are.  The test of the
    provider fails when listing the models of the provider that the
    environment names raises; the other provider is not looked at. *)
Theorem failed_check_stops_before_the_run :
  (exists e, get_user_login pr = Raise e)
  \/ (exists e, auth_test pr = Raise e)
  \/ (forall key p,
        create_ai_provider (rt pr) named_provider key None = Ok p ->
        exists e, models_list (ai_clients pr []) (kind_of p) = Raise e) ->
  exists checks, main pr = (Exited 1, checks, []).
Proof.
  intros H.
  destruct main_cases as [L|(key & p & _ & _ & _ & C & T & _)]; [exact L|].
  exfalso; revert T; unfold _test_connections, test_connection.
  destruct H as [(e & ->)|[(e & E)|E]]; [discriminate| |].
  - rewrite E; destruct (get_user_login pr); discriminate.
  - destruct (E key p C) as (e & ->).
    destruct (get_user_login pr); [|discriminate].
    destruct (auth_test pr); discriminate.
Qed.


(** X29. When [main] returns, the three tests of the connections were made,
    every name read in the argument was fetched once and in order, one
    message was posted, to the channel that the environment names, and
    accepted, and that message was written to the file as the last event. *)
Theorem returned_main_has_posted_and_written
  (checks : list check) (tr : trace) :
  main pr = (Returned, checks, tr) ->
  checks = all_checks
  /\ exists since evs message ts,
      window_start (rest pr) (days_back_arg pr) = Ok since
      /\ tr = evs ++ [Posted channel (text_version message)
                             (build_blocks
                                message
                                (Some (date_range (rest pr) since)))
                             false (Ok ts);
                      Wrote output_path message (Ok tt)]
      /\ Forall gathering evs
      /\ flat_map fetched_name evs = parse_repos (repos_arg pr).
Proof.
  intros M.
  destruct main_cases as [(cs & L)|(key & p & _ & Hn & _ & _ & _ & R)].
  { rewrite L in M; discriminate. }
  rewrite M in R; clear M.
  set (w := world_of pr (mkGenerator channel p)) in *.
  set (names := parse_repos (repos_arg pr)) in *.
  set (days := days_back_arg pr) in *.
  pose proof (worked_names_well_formed
                (parse_repos_well_formed (repos_arg pr))) as W.
  fold names in W.
  destruct (window_start w days) as [since|e0] eqn:Ws.
  2:{ rewrite (@run_without_window w names _ [] _ Ws) in R; discriminate. }
  destruct (process_repos_account w since names [] [])
    as (l & evs & E & L & Fn & _ & _).
  destruct (@run_account w names _ _ [] Ws)
    as (summaries & evs' & E' & _ & G & Run).
  rewrite E in E'; injection E' as <- <-.
  rewrite W in L, Fn; cbn [List.app] in Run.
  destruct l as [|s l]; [destruct names; [congruence|discriminate]|].
  cbv zeta in Run.
  set (message := join (nl ++ nl) (s :: l)) in *.
  destruct (slack w evs (slack_channel w) (text_version message)
              (build_blocks message (Some (date_range w since))) false)
    as [ts|e].
  - match type of Run with
    | _ = (outcome ?x, _) => destruct x as [[]|e]
    end; rewrite Run in R; cbn [outcome ending_of] in R;
      [|discriminate].
    injection R as -> ->; split; [reflexivity|].
    exists since, evs, message, ts.
    split; [exact Ws|split; [reflexivity|split; assumption]].
  - rewrite Run in R; discriminate.
Qed.

End MainFacts.

(** A process with every setting in place but the key of the first
    library, two names in its argument, and services that answer. *)
Definition sample_env (provider : str) (name : str) : option str :=
  if eqb_str name (lit "SLACK_BOT_TOKEN") then Some (lit "xoxb-1")
  else if eqb_str name (lit "SLACK_CHANNEL") then Some (lit "#releases")
  else if eqb_str name (lit "GITHUB_TOKEN") then Some (lit "ghp_1")
  else if eqb_str name (lit "AI_PROVIDER") then Some provider
  else if eqb_str name (lit "ANTHROPIC_API_KEY") then Some (lit "sk-ant-1")
  else None.

Definition sample_runtime : runtime :=
  mkRuntime (List.map Re.ascii_lower) (fun _ => true) (fun _ _ => Ok tt).

Definition sample_process (provider : str) (login : result str) : process :=
  mkProcess (sample_env provider) (lit " octo/app , ,octo/web") 7
            sample_runtime login (Ok tt)
            (fun _ => sample_clients [] [Some (fenced features_payload)])
            (fun _ => sample_client [1; 3]%Z)
            (sample_world fetch_app (Ok []) (Ok (lit "1700000000.1"))).

Definition claude_process : process :=
  sample_process (lit "Claude") (Ok (lit "octocat")).

Lemma invalid_settings_exit_before_any_call_witness :
  main (sample_process (lit "Gemini") (Ok (lit "octocat")))
  = (Exited 1, [], []).
Proof.
  apply invalid_settings_exit_before_any_call.
  left; vm_compute; reflexivity.
Defined.

(** The same process when the second library alone cannot list its
    models. *)
Definition claude_down : clients :=
  mkClients (fun _ _ _ _ => Ok []) (fun _ _ _ _ => Ok [])
            (fun k => match k with
                      | OpenAI => Ok tt
                      | Claude => Raise boom
                      end).

Definition process_claude_down : process :=
  mkProcess (sample_env (lit "Claude")) (lit " octo/app , ,octo/web") 7
            sample_runtime (Ok (lit "octocat")) (Ok tt)
            (fun _ => claude_down)
            (fun _ => sample_client [1; 3]%Z)
            (sample_world fetch_app (Ok []) (Ok (lit "1700000000.1"))).

Lemma failed_check_stops_before_the_run_witness :
  (exists checks,
      main (sample_process (lit "Claude") (Raise boom))
      = (Exited 1, checks, []))
  /\ (exists checks, main process_claude_down = (Exited 1, checks, []))
  /\ main process_claude_down
     = (Exited 1, [CheckedGithub; CheckedSlack; CheckedProvider], []).
Proof.
  split; [|split].
  - apply failed_check_stops_before_the_run.
    left; exists boom; reflexivity.
  - apply failed_check_stops_before_the_run.
    right; right; intros key p C.
    vm_compute in C; injection C as <-.
    exists boom; reflexivity.
  - vm_compute; reflexivity.
Defined.


Lemma returned_main_has_posted_and_written_witness :
  snd (fst (main claude_process)) = all_checks
  /\ exists since evs message ts,
      window_start (rest claude_process) 7 = Ok since
      /\ snd (main claude_process)
         = evs ++ [Posted (lit "#releases") (text_version message)
                          (build_blocks
                             message
                             (Some (date_range (rest claude_process) since)))
                          false (Ok ts);
                   Wrote output_path message (Ok tt)]
      /\ Forall gathering evs
      /\ flat_map fetched_name evs = [lit "octo/app"; lit "octo/web"].
Proof.
  refine (@returned_main_has_posted_and_written
            claude_process (snd (fst (main claude_process)))
            (snd (main claude_process)) _).
  assert (E : fst (fst (main claude_process)) = Returned)
    by (vm_compute; reflexivity).
  destruct (main claude_process) as [[e checks] tr]; cbn in E |- *.
  rewrite E; reflexivity.
Defined.
